(** * element-scroller: a shallow embedding of [src/index.ts]

    The scroller keeps a cached position, a decaying "scrolling" velocity and
    a constant "gliding" velocity, and advances them in a per-frame callback.

    Numbers.  The source computes with JavaScript numbers.  They are embedded
    as exact rationals extended with [+Infinity], [-Infinity] and [NaN]
    ([num] below): every operator follows the ECMAScript rules for the special
    values, while rounding error and the sign of zero are abstracted away
    (a finite result is the exact rational one).  Rationals are the canonical
    ones of [Qcanon], so that equal numbers are equal terms.  JavaScript's
    own sums are exact on whole numbers up to [2^53]: what is stated about
    the destination of a [scrollTo] and about sums of [scrollBy] amounts is
    stated for whole numbers of pixels within such bounds, and holds of the
    rounded arithmetic too; the range of the committed positions and the
    saturation of [scrollTo] rest on the order of the numbers and on the
    special values only.

    Host.  The DOM element is a record of its scroll offsets and sizes, and
    keeps the offsets assigned to it as they are written;
    [requestAnimationFrame] is a counter of handles and the list of handles
    still scheduled; [Date.now()] and the frame timestamps are inputs of the
    events that carry them. *)

From Stdlib Require Import QArith Qcanon Qround Qabs Lqa ZArith List Bool Lia.
Import ListNotations.

(** ** JavaScript numbers *)

Module Num.

Local Open Scope Qc_scope.

Inductive num : Type :=
| NaN
| PInf
| NInf
| Fin (q : Qc).

Definition ofZ (z : Z) : num := Fin (Q2Qc (inject_Z z)).
Definition ofQ (q : Q) : num := Fin (Q2Qc q).

Definition zero : num := Fin 0.
Definition one : num := Fin 1.

(** Three-way sign of a rational. *)
Definition sgn (q : Qc) : comparison := q ?= 0.

Definition is_finite (a : num) : bool :=
  match a with Fin _ => true | _ => false end.

Definition is_nan (a : num) : bool :=
  match a with NaN => true | _ => false end.

(** [a + b]; the sum of two finite numbers is the exact one: the rounding
    of a double, and its overflow to an infinity, are not modelled. *)
Definition add (a b : num) : num :=
  match a, b with
  | NaN, _ | _, NaN => NaN
  | PInf, NInf | NInf, PInf => NaN
  | PInf, _ | _, PInf => PInf
  | NInf, _ | _, NInf => NInf
  | Fin x, Fin y => Fin (x + y)
  end.

(** unary [-a] *)
Definition neg (a : num) : num :=
  match a with
  | NaN => NaN
  | PInf => NInf
  | NInf => PInf
  | Fin x => Fin (- x)
  end.

(** [a - b] *)
Definition sub (a b : num) : num := add a (neg b).

(** An infinity of the sign [c]; the zero sign gives [NaN] (0 * Infinity). *)
Definition inf_of_sign (c : comparison) : num :=
  match c with
  | Gt => PInf
  | Lt => NInf
  | Eq => NaN
  end.

(** [a * b]; the product of two finite numbers is the exact one. *)
Definition mul (a b : num) : num :=
  match a, b with
  | NaN, _ | _, NaN => NaN
  | Fin x, Fin y => Fin (x * y)
  | PInf, PInf | NInf, NInf => PInf
  | PInf, NInf | NInf, PInf => NInf
  | PInf, Fin y | Fin y, PInf => inf_of_sign (sgn y)
  | NInf, Fin y | Fin y, NInf => inf_of_sign (CompOpp (sgn y))
  end.

(** [a / b]; a zero divisor counts as [+0], and the quotient of two finite
    numbers is the exact one. *)
Definition div (a b : num) : num :=
  match a, b with
  | NaN, _ | _, NaN => NaN
  | Fin x, Fin y =>
      match sgn y with
      | Eq => inf_of_sign (sgn x)
      | _ => Fin (x / y)
      end
  | Fin _, _ => Fin 0
  | PInf, Fin y => match sgn y with Lt => NInf | _ => PInf end
  | NInf, Fin y => match sgn y with Lt => PInf | _ => NInf end
  | _, _ => NaN
  end.

(** The comparison of two numbers; [None] when one of them is [NaN]. *)
Definition cmp (a b : num) : option comparison :=
  match a, b with
  | NaN, _ | _, NaN => None
  | PInf, PInf | NInf, NInf => Some Eq
  | PInf, _ | _, NInf => Some Gt
  | NInf, _ | _, PInf => Some Lt
  | Fin x, Fin y => Some (x ?= y)
  end.

(** [a < b] *)
Definition ltb (a b : num) : bool :=
  match cmp a b with Some Lt => true | _ => false end.

(** [a <= b] *)
Definition leb (a b : num) : bool :=
  match cmp a b with Some Lt | Some Eq => true | _ => false end.

(** [a >= b] *)
Definition geb (a b : num) : bool := leb b a.

(** [a === b] *)
Definition eqb (a b : num) : bool :=
  match cmp a b with Some Eq => true | _ => false end.

(** [Math.max(a, b)] *)
Definition max (a b : num) : num :=
  match cmp a b with
  | None => NaN
  | Some Lt => b
  | Some _ => a
  end.

(** [Math.min(a, b)] *)
Definition min (a b : num) : num :=
  match cmp a b with
  | None => NaN
  | Some Gt => b
  | Some _ => a
  end.

(** [Math.abs(a)] *)
Definition abs (a : num) : num :=
  match a with
  | NaN => NaN
  | PInf | NInf => PInf
  | Fin x => match sgn x with Lt => Fin (- x) | _ => Fin x end
  end.

(** Truthiness of a number: [0] and [NaN] are falsy. *)
Definition truthy (a : num) : bool :=
  match a with
  | NaN => false
  | Fin x => match sgn x with Eq => false | _ => true end
  | _ => true
  end.

(** [a || b] on numbers. *)
Definition or_else (a b : num) : num := if truthy a then a else b.

(** [a || b] where [a] may be [undefined]. *)
Definition opt_or_else (a : option num) (b : num) : num :=
  match a with
  | Some x => or_else x b
  | None => b
  end.

(** [a ?? b] *)
Definition nullish (a : option num) (b : num) : num :=
  match a with
  | Some x => x
  | None => b
  end.

End Num.

Import Num.

Declare Scope num_scope.
Delimit Scope num_scope with num.
Bind Scope num_scope with num.
Infix "+" := add : num_scope.
Infix "-" := sub : num_scope.
Infix "*" := mul : num_scope.
Infix "/" := div : num_scope.
Notation "- x" := (neg x) : num_scope.

(** ** Module-level helpers and constants of [index.ts] *)

(** [clamp = (bottom, value, top) => max(bottom, min(top, value))] *)
Definition clamp (bottom value top : num) : num :=
  Num.max bottom (Num.min top value).

(** [isWithin = (min, value, max) => value >= min && value <= max] *)
Definition isWithin (min value max : num) : bool :=
  geb value min && leb value max.

(** [STANDARD_FRAME_TIME = 1000 / 60] *)
Definition STANDARD_FRAME_TIME : num := (ofZ 1000 / ofZ 60)%num.

(** The cutoff [0.2] of the renderer and the wheel threshold [300]. *)
Definition EPSILON : num := ofQ (2 # 10).
Definition WHEEL_THRESHOLD : Z := 300.

(** ** Data model *)

Record Position : Type := mkPosition { left : num; top : num }.

Record ScrollLength : Type := mkScrollLength { width : num; height : num }.

(** [type Velocity = [X, Y]] *)
Definition Velocity : Type := (num * num)%type.

(** [Partial<Options>], the second argument of [makeScroller]. *)
Record Options : Type := mkOptions {
  opt_friction : option num;
  opt_handleWheel : option bool;
  opt_flipWheel : option bool;
  opt_wheelFriction : option num
}.

(** [ScrollOptions = Partial<Position> & {friction?: number}] *)
Record ScrollOptions : Type := mkScrollOptions {
  so_left : option num;
  so_top : option num;
  so_friction : option num
}.

(** The argument of [glide]. *)
Record GlideOptions : Type := mkGlideOptions {
  go_left : option num;
  go_top : option num
}.

(** A wheel event object: its identity, its deltas and whether
    [preventDefault()] has been called on it. *)
Record WheelEvent : Type := mkWheelEvent {
  ev_id : nat;
  deltaX : num;
  deltaY : num;
  defaultPrevented : bool
}.

(** The scrolled DOM element, as far as the scroller reads and writes it. *)
Record Element : Type := mkElement {
  scrollLeft : num;
  scrollTop : num;
  scrollWidth : num;
  clientWidth : num;
  scrollHeight : num;
  clientHeight : num
}.

(** The host: the element, the listeners bound on it, the frame scheduler
    (next handle, handles still scheduled) and the history of the positions
    assigned to the element, latest first. *)
Record Host : Type := mkHost {
  element : Element;
  wheelBound : bool;
  scrollBound : bool;
  rafNext : positive;
  rafQueue : list positive;
  written : list Position
}.

(** The module-level variables shared by every scroller; [minFrameTime] is
    what the sampling loop run at load time has measured. *)
Record Globals : Type := mkGlobals {
  minFrameTime : num;
  lastGlobalWheel : Z;
  ignoreEvent : option nat
}.

(** One scroller: the mutable fields of [self] and the animation variables
    of the closure. *)
Record Scroller : Type := mkScroller {
  self_friction : num;
  self_flipWheel : bool;
  self_wheelFriction : num;
  self_disposed : bool;
  friction : num;
  currentPosition : Position;
  scrolling : option Velocity;
  gliding : option Velocity;
  frameId : option positive;
  lastFrameTime : option num
}.

Record World : Type := mkWorld {
  glob : Globals;
  host : Host;
  sc : Scroller
}.

(** *** Field updates *)

Definition set_sc (s : Scroller) (w : World) : World :=
  mkWorld (glob w) (host w) s.

Definition set_host (h : Host) (w : World) : World :=
  mkWorld (glob w) h (sc w).

Definition set_glob (g : Globals) (w : World) : World :=
  mkWorld g (host w) (sc w).

Definition with_friction (f : num) (s : Scroller) : Scroller :=
  mkScroller (self_friction s) (self_flipWheel s) (self_wheelFriction s)
    (self_disposed s) f (currentPosition s) (scrolling s) (gliding s)
    (frameId s) (lastFrameTime s).

Definition with_currentPosition (p : Position) (s : Scroller) : Scroller :=
  mkScroller (self_friction s) (self_flipWheel s) (self_wheelFriction s)
    (self_disposed s) (friction s) p (scrolling s) (gliding s)
    (frameId s) (lastFrameTime s).

Definition with_scrolling (v : option Velocity) (s : Scroller) : Scroller :=
  mkScroller (self_friction s) (self_flipWheel s) (self_wheelFriction s)
    (self_disposed s) (friction s) (currentPosition s) v (gliding s)
    (frameId s) (lastFrameTime s).

Definition with_gliding (v : option Velocity) (s : Scroller) : Scroller :=
  mkScroller (self_friction s) (self_flipWheel s) (self_wheelFriction s)
    (self_disposed s) (friction s) (currentPosition s) (scrolling s) v
    (frameId s) (lastFrameTime s).

Definition with_frameId (i : option positive) (s : Scroller) : Scroller :=
  mkScroller (self_friction s) (self_flipWheel s) (self_wheelFriction s)
    (self_disposed s) (friction s) (currentPosition s) (scrolling s)
    (gliding s) i (lastFrameTime s).

Definition with_lastFrameTime (t : option num) (s : Scroller) : Scroller :=
  mkScroller (self_friction s) (self_flipWheel s) (self_wheelFriction s)
    (self_disposed s) (friction s) (currentPosition s) (scrolling s)
    (gliding s) (frameId s) t.

Definition with_disposed (b : bool) (s : Scroller) : Scroller :=
  mkScroller (self_friction s) (self_flipWheel s) (self_wheelFriction s)
    b (friction s) (currentPosition s) (scrolling s) (gliding s)
    (frameId s) (lastFrameTime s).

Definition with_self_friction (f : num) (s : Scroller) : Scroller :=
  mkScroller f (self_flipWheel s) (self_wheelFriction s)
    (self_disposed s) (friction s) (currentPosition s) (scrolling s)
    (gliding s) (frameId s) (lastFrameTime s).

Definition with_self_flipWheel (b : bool) (s : Scroller) : Scroller :=
  mkScroller (self_friction s) b (self_wheelFriction s)
    (self_disposed s) (friction s) (currentPosition s) (scrolling s)
    (gliding s) (frameId s) (lastFrameTime s).

Definition with_self_wheelFriction (f : num) (s : Scroller) : Scroller :=
  mkScroller (self_friction s) (self_flipWheel s) f
    (self_disposed s) (friction s) (currentPosition s) (scrolling s)
    (gliding s) (frameId s) (lastFrameTime s).

(** ** The host's primitives *)

(** [requestAnimationFrame(render)]: a fresh handle, now scheduled. *)
Definition requestAnimationFrame (h : Host) : positive * Host :=
  (rafNext h,
   mkHost (element h) (wheelBound h) (scrollBound h)
     (Pos.succ (rafNext h)) (rafQueue h ++ [rafNext h]) (written h)).

(** [cancelAnimationFrame(id)] *)
Definition cancelAnimationFrame (i : positive) (h : Host) : Host :=
  mkHost (element h) (wheelBound h) (scrollBound h) (rafNext h)
    (filter (fun j => negb (Pos.eqb i j)) (rafQueue h)) (written h).

(** [element.scrollLeft = l; element.scrollTop = t] *)
Definition write_offsets (p : Position) (h : Host) : Host :=
  mkHost
    (mkElement (left p) (top p) (scrollWidth (element h))
       (clientWidth (element h)) (scrollHeight (element h))
       (clientHeight (element h)))
    (wheelBound h) (scrollBound h) (rafNext h) (rafQueue h)
    (p :: written h).

Definition set_rafQueue (q : list positive) (h : Host) : Host :=
  mkHost (element h) (wheelBound h) (scrollBound h) (rafNext h) q
    (written h).

Definition set_listeners (wheel scroll : bool) (h : Host) : Host :=
  mkHost (element h) wheel scroll (rafNext h) (rafQueue h) (written h).

(** ** [makeScroller] and its inner functions *)

Local Open Scope num_scope.

Definition getPosition (w : World) : Position :=
  mkPosition (scrollLeft (element (host w))) (scrollTop (element (host w))).

Definition getScrollLength (w : World) : ScrollLength :=
  let e := element (host w) in
  mkScrollLength (scrollWidth e - clientWidth e)
                 (scrollHeight e - clientHeight e).

Definition setPosition (position : Position) (w : World) : World :=
  set_host (write_offsets position (host w))
    (set_sc (with_currentPosition position (sc w)) w).

(** [!frameId]: handles are positive, so only [null] is falsy. *)
Definition no_frameId (s : Scroller) : bool :=
  match frameId s with None => true | Some _ => false end.

Definition requestRender (w : World) : World :=
  if no_frameId (sc w) then
    let (i, h) := requestAnimationFrame (host w) in
    set_host h (set_sc (with_frameId (Some i) (sc w)) w)
  else w.

(** [(scrolling?.[0] || 0)] and [(scrolling?.[1] || 0)] *)
Definition pendingX (s : Scroller) : num :=
  opt_or_else (option_map fst (scrolling s)) zero.

Definition pendingY (s : Scroller) : num :=
  opt_or_else (option_map snd (scrolling s)) zero.

Definition scrollBy (o : ScrollOptions) (w : World) : World :=
  let left := nullish (so_left o) zero in
  let top := nullish (so_top o) zero in
  let s := sc w in
  let s1 := with_friction (opt_or_else (so_friction o) (self_friction s)) s in
  let s2 := with_scrolling (Some (pendingX s1 + left, pendingY s1 + top)) s1 in
  requestRender (set_sc s2 w).

Definition scrollTo (o : ScrollOptions) (w : World) : World :=
  let len := getScrollLength w in
  let s := sc w in
  scrollBy
    (mkScrollOptions
       (Some match so_left o with
             | None => zero
             | Some l =>
                 clamp zero l (width len)
                 - (left (currentPosition s) + pendingX s)
             end)
       (Some match so_top o with
             | None => zero
             | Some t =>
                 clamp zero t (height len)
                 - (top (currentPosition s) + pendingY s)
             end)
       (so_friction o))
    w.

Definition glide (o : GlideOptions) (w : World) : World :=
  requestRender
    (set_sc
       (with_gliding
          (Some (opt_or_else (go_left o) zero, opt_or_else (go_top o) zero))
          (sc w))
       w).

Definition stop (w : World) : World :=
  let h := match frameId (sc w) with
           | Some i => cancelAnimationFrame i (host w)
           | None => host w
           end in
  set_host h
    (set_sc
       (with_scrolling None
          (with_gliding None
             (with_lastFrameTime None (with_frameId None (sc w)))))
       w).

(** *** The renderer *)

(** [timeDelta = lastFrameTime != null ? time - lastFrameTime : minFrameTime] *)
Definition timeDelta (time : num) (w : World) : num :=
  match lastFrameTime (sc w) with
  | Some l => time - l
  | None => minFrameTime (glob w)
  end.

(** [adjustedFriction = clamp(0, friction * (timeDelta / STANDARD_FRAME_TIME), 1)] *)
Definition adjustedFriction (fr dt : num) : num :=
  clamp zero (fr * (dt / STANDARD_FRAME_TIME)) one.

(** [abs(delta) < 0.2 || !isWithin(0, pos + delta, len) ? 0 : v - delta] *)
Definition nextVelocity (v delta pos len : num) : num :=
  if ltb (Num.abs delta) EPSILON || negb (isWithin zero (pos + delta) len)
  then zero
  else v - delta.

(** The [if (scrolling)] block: the array after the two assignments (or
    [null]) and the increments of [leftBy] and [topBy]. *)
Definition scrollingStep (fr dt : num) (pos : Position) (len : ScrollLength)
    (v : Velocity) : option Velocity * num * num :=
  let af := adjustedFriction fr dt in
  let (x, y) := v in
  let xDelta := x * af in
  let yDelta := y * af in
  let nx := nextVelocity x xDelta (left pos) (width len) in
  let ny := nextVelocity y yDelta (top pos) (height len) in
  (if eqb nx zero && eqb ny zero then None else Some (nx, ny),
   xDelta, yDelta).

(** The [if (gliding)] block: the increments of [leftBy] and [topBy]. *)
Definition glidingStep (dt : num) (v : Velocity) : num * num :=
  let (x, y) := v in
  let secondFraction := dt / ofZ 1000 in
  (x * secondFraction, y * secondFraction).

(** The two motion blocks of [render]: the scrolling array after the frame
    (or [null]) and the final [leftBy] and [topBy]. *)
Definition advance (dt : num) (pos : Position) (len : ScrollLength)
    (fr : num) (scrolling gliding : option Velocity)
    : option Velocity * num * num :=
  let leftBy := zero in
  let topBy := zero in
  let '(scrolling', leftBy, topBy) :=
    match scrolling with
    | Some v =>
        let '(v', xDelta, yDelta) := scrollingStep fr dt pos len v in
        (v', leftBy + xDelta, topBy + yDelta)
    | None => (None, leftBy, topBy)
    end in
  let '(leftBy, topBy) :=
    match gliding with
    | Some v =>
        let (gx, gy) := glidingStep dt v in
        (leftBy + gx, topBy + gy)
    | None => (leftBy, topBy)
    end in
  (scrolling', leftBy, topBy).

(** The end of [render]: [if (gliding || scrolling) {...} else {...}]. *)
Definition reschedule (time : num) (w : World) : World :=
  match gliding (sc w), scrolling (sc w) with
  | None, None =>
      set_sc (with_lastFrameTime None (with_frameId None (sc w))) w
  | _, _ =>
      requestRender
        (set_sc (with_frameId None (with_lastFrameTime (Some time) (sc w))) w)
  end.

Definition render (time : num) (w : World) : World :=
  if self_disposed (sc w) then w
  else
    let dt := timeDelta time w in
    let pos := currentPosition (sc w) in
    let len := getScrollLength w in
    let '(scrolling', leftBy, topBy) :=
      advance dt pos len (friction (sc w)) (scrolling (sc w))
        (gliding (sc w)) in
    reschedule time
      (setPosition
         (mkPosition (clamp zero (left pos + leftBy) (width len))
                     (clamp zero (top pos + topBy) (height len)))
         (set_sc (with_scrolling scrolling' (sc w)) w)).

(** *** Event handlers and disposal *)

(** The [window] wheel listener of the module. *)
Definition globalWheel (now : Z) (e : WheelEvent) (w : World) : World :=
  if match ignoreEvent (glob w) with
     | Some i => Nat.eqb i (ev_id e)
     | None => false
     end
  then w
  else set_glob (mkGlobals (minFrameTime (glob w)) now (ignoreEvent (glob w))) w.

(** [handleWheel(event)], with [Date.now()] as [now]; the event comes back
    with its [defaultPrevented] flag. *)
Definition handleWheel (now : Z) (e : WheelEvent) (w : World)
    : World * WheelEvent :=
  if (now - lastGlobalWheel (glob w) <? WHEEL_THRESHOLD)%Z then (w, e)
  else
    let w1 :=
      set_glob
        (mkGlobals (minFrameTime (glob w)) (lastGlobalWheel (glob w))
           (Some (ev_id e)))
        w in
    let e1 := mkWheelEvent (ev_id e) (deltaX e) (deltaY e) true in
    (scrollBy
       (if self_flipWheel (sc w1)
        then mkScrollOptions (Some (deltaY e)) (Some (deltaX e))
               (Some (self_wheelFriction (sc w1)))
        else mkScrollOptions (Some (deltaX e)) (Some (deltaY e))
               (Some (self_wheelFriction (sc w1))))
       w1,
     e1).

Definition handleScroll (w : World) : World :=
  if no_frameId (sc w)
  then set_sc (with_currentPosition (getPosition w) (sc w)) w
  else w.

Definition dispose (w : World) : World :=
  let w1 := stop w in
  let w2 := set_sc (with_disposed true (sc w1)) w1 in
  let w3 := set_host (set_listeners false false (host w2)) w2 in
  match frameId (sc w3) with
  | Some i => set_host (cancelAnimationFrame i (host w3)) w3
  | None => w3
  end.

(** [makeScroller(element, options)] on a host whose element has no listener
    of the scroller yet. *)
Definition makeScroller (g : Globals) (h : Host) (o : Options) : World :=
  let fr := nullish (opt_friction o) (ofQ (2 # 10)) in
  let doHandleWheel :=
    match opt_handleWheel o with Some b => b | None => false end in
  let w0 :=
    mkWorld g h
      (mkScroller fr
         (match opt_flipWheel o with Some b => b | None => false end)
         (nullish (opt_wheelFriction o) (ofQ (25 # 100)))
         false fr (mkPosition zero zero) None None None None) in
  set_host (set_listeners doHandleWheel true h)
    (set_sc (with_currentPosition (getPosition w0) (sc w0)) w0).

(** ** What the host and the caller can do *)

Inductive action : Type :=
| ScrollTo (o : ScrollOptions)
| ScrollBy (o : ScrollOptions)
| Glide (o : GlideOptions)
| Stop
| Dispose
| SetFriction (f : num)
| SetFlipWheel (b : bool)
| SetWheelFriction (f : num)
| Frame (time : num)
| Wheel (now : Z) (e : WheelEvent)
| ForeignWheel (now : Z) (e : WheelEvent)
| ScrollEvent.

(** An animation frame at [time]: every callback scheduled so far runs. *)
Definition frame (time : num) (w : World) : World :=
  fold_left (fun w' _ => render time w') (rafQueue (host w))
    (set_host (set_rafQueue [] (host w)) w).

(** A wheel event on the element: the element's listener, if bound, then the
    listener on [window]. *)
Definition wheel (now : Z) (e : WheelEvent) (w : World) : World * WheelEvent :=
  let (w1, e1) :=
    if wheelBound (host w) then handleWheel now e w else (w, e) in
  (globalWheel now e1 w1, e1).

(** A scroll event on the element. *)
Definition scrollEvent (w : World) : World :=
  if scrollBound (host w) then handleScroll w else w.

Definition step (w : World) (a : action) : World :=
  match a with
  | ScrollTo o => scrollTo o w
  | ScrollBy o => scrollBy o w
  | Glide o => glide o w
  | Stop => stop w
  | Dispose => dispose w
  | SetFriction f => set_sc (with_self_friction f (sc w)) w
  | SetFlipWheel b => set_sc (with_self_flipWheel b (sc w)) w
  | SetWheelFriction f => set_sc (with_self_wheelFriction f (sc w)) w
  | Frame time => frame time w
  | Wheel now e => fst (wheel now e w)
  | ForeignWheel now e => globalWheel now e w
  | ScrollEvent => scrollEvent w
  end.

Definition run (w : World) (l : list action) : World := fold_left step l w.

(** [n] frames, the first at [t0] and each next one [STANDARD_FRAME_TIME]
    later. *)
Fixpoint frames (n : nat) (t0 : num) (w : World) : World :=
  match n with
  | O => w
  | S k => frames k (t0 + STANDARD_FRAME_TIME) (frame t0 w)
  end.

(** ** A running example: a fresh scroller on a 1500 x 2000 content seen
    through a 500 x 400 box, so that 1000 x 1600 pixels are scrollable. *)

Module Demo.

Definition el : Element :=
  mkElement zero zero (ofZ 1500) (ofZ 500) (ofZ 2000) (ofZ 400).

Definition h0 : Host := mkHost el false false 1%positive [] [].

Definition g0 : Globals := mkGlobals STANDARD_FRAME_TIME 0 None.

Definition noOptions : Options := mkOptions None None None None.

Definition w0 : World := makeScroller g0 h0 noOptions.

Definition toLeft (l : num) : ScrollOptions :=
  mkScrollOptions (Some l) None None.

Definition byLeft (l : num) : ScrollOptions :=
  mkScrollOptions (Some l) None None.

End Demo.

(** ** Predicates used by the statements *)

(** Both axes of [p] lie in [[0, length]]. *)
Definition in_range (p : Position) (len : ScrollLength) : bool :=
  isWithin zero (left p) (width len) && isWithin zero (top p) (height len).

Definition fin_onum (o : option num) : bool :=
  match o with Some x => is_finite x | None => true end.

Definition fin_velocity (v : option Velocity) : bool :=
  match v with
  | Some (x, y) => is_finite x && is_finite y
  | None => true
  end.

Definition fin_position (p : Position) : bool :=
  is_finite (left p) && is_finite (top p).

Definition fin_element (e : Element) : bool :=
  is_finite (scrollLeft e) && is_finite (scrollTop e)
  && is_finite (scrollWidth e) && is_finite (clientWidth e)
  && is_finite (scrollHeight e) && is_finite (clientHeight e).

(** Every number held by the world is finite. *)
Definition fin_world (w : World) : bool :=
  fin_element (element (host w))
  && is_finite (minFrameTime (glob w))
  && is_finite (self_friction (sc w))
  && is_finite (self_wheelFriction (sc w))
  && is_finite (friction (sc w))
  && fin_position (currentPosition (sc w))
  && fin_velocity (scrolling (sc w))
  && fin_velocity (gliding (sc w))
  && fin_onum (lastFrameTime (sc w)).

(** The scrollable length is not negative on either axis. *)
Definition lengths_ok (w : World) : bool :=
  leb zero (width (getScrollLength w))
  && leb zero (height (getScrollLength w)).

(** The handle kept in [frameId] is the one callback the host has scheduled. *)
Definition scheduled_ok (w : World) : Prop :=
  rafQueue (host w) =
  match frameId (sc w) with Some i => [i] | None => [] end.

(** An axis of [glide]'s argument that is absent or zero. *)
Definition absent_or_zero (o : option num) : bool :=
  match o with Some x => eqb x zero | None => true end.

(** Frames after which a velocity of [v] pixels has certainly been cut off:
    more than five times its size. *)
Definition axisBound (v : num) : nat :=
  match v with
  | Fin q => Z.to_nat (Qceiling (inject_Z 5 * Qabs (this q)))
  | _ => O
  end.

Definition frameBound (o : ScrollOptions) : nat :=
  2 + Nat.max (axisBound (nullish (so_left o) zero))
              (axisBound (nullish (so_top o) zero)).

(** The position [p] clamped again into the scrollable range. *)
Definition reclamp (len : ScrollLength) (p : Position) : Position :=
  mkPosition (clamp zero (left p) (width len))
             (clamp zero (top p) (height len)).

(** A live scroller gliding at speed 0 on both axes with its frame scheduled. *)
Definition idle_gliding (w : World) : Prop :=
  self_disposed (sc w) = false
  /\ gliding (sc w) = Some (zero, zero)
  /\ exists i, frameId (sc w) = Some i /\ rafQueue (host w) = [i].

(** Both axes of [p] lie in [[0, length]] or are [NaN]. *)
Definition in_range_or_nan (p : Position) (len : ScrollLength) : bool :=
  (is_nan (left p) || isWithin zero (left p) (width len))
  && (is_nan (top p) || isWithin zero (top p) (height len)).

(** The invariant behind the range of the committed positions: the
    scrollable length is [len], and every position written to the element
    so far lies in [[0, len]] on each axis, or is [NaN] there. *)
Definition committed_ok (len : ScrollLength) (w : World) : Prop :=
  getScrollLength w = len
  /\ Forall (fun p => in_range_or_nan p len = true) (written (host w)).

(** [b * r^k]: the bound on a velocity that started within [b] and lost
    the fraction [1 - r] in each of [k] frames. *)
Fixpoint shrink (b r : Q) (k : nat) : Q :=
  match k with
  | O => b
  | S k' => shrink b r k' * r
  end.

(** A live scroller whose scrolling motion runs with friction [f] and is
    either over or within [bl], [bt] per axis, with its next frame scheduled
    for [t], one standard frame time after the last one. *)
Definition decaying (f : Qc) (bl bt : Q) (t : num) (w : World) : Prop :=
  self_disposed (sc w) = false
  /\ friction (sc w) = Fin f
  /\ (scrolling (sc w) = None
      \/ exists (vx vy : Qc) (i : positive),
           scrolling (sc w) = Some (Fin vx, Fin vy)
           /\ (Qabs (this vx) <= bl)%Q
           /\ (Qabs (this vy) <= bt)%Q
           /\ frameId (sc w) = Some i
           /\ rafQueue (host w) = [i]
           /\ is_finite t = true
           /\ timeDelta t w = STANDARD_FRAME_TIME).

(** The actions that do not call [scrollBy]. *)
Definition keeps_friction (a : action) : bool :=
  match a with
  | ScrollTo _ | ScrollBy _ | Wheel _ _ => false
  | _ => true
  end.

(** ** The frame clock of the module

    The block that measures [minFrameTime] when the module is loaded: a
    callback that reschedules itself for a hundred more frames. *)

Module FrameClock.

(** The variables of the block, and whether its callback is scheduled. *)
Record t : Type := mk {
  minFrameTime : num;
  frames : Z;
  lastFrameTime : num;
  scheduled : bool
}.

(** [minFrameTime = STANDARD_FRAME_TIME; frames = 100; lastFrameTime = -100]
    and the first [requestAnimationFrame(frameTimeLoop)]. *)
Definition init : t := mk STANDARD_FRAME_TIME 100 (ofZ (-100)) true.

(** [frameTimeLoop(time)]; [frames-- > 0] tests the count before it drops. *)
Definition frameTimeLoop (time : num) (c : t) : t :=
  let frameTime := (time - lastFrameTime c)%num in
  mk (if ltb frameTime (minFrameTime c) then frameTime else minFrameTime c)
     (frames c - 1)
     time
     (0 <? frames c)%Z.

(** An animation frame at [time], as the clock sees it. *)
Definition tick (time : num) (c : t) : t :=
  if scheduled c then frameTimeLoop time c else c.

(** The animation frames at the times [ts], in this order. *)
Definition sample (ts : list num) (c : t) : t :=
  fold_left (fun c' time => tick time c') ts c.

(** The times between one frame and the next, starting from [last]. *)
Fixpoint gaps (last : num) (ts : list num) : list num :=
  match ts with
  | [] => []
  | time :: rest => (time - last)%num :: gaps time rest
  end.

End FrameClock.

(** ** More of the host *)

(** Someone else scrolls the element to [p] (nothing of the scroller is
    involved and nothing is logged); the element's scroll event follows. *)
Definition userScroll (p : Position) (w : World) : World :=
  scrollEvent
    (set_host
       (mkHost
          (mkElement (left p) (top p) (scrollWidth (element (host w)))
             (clientWidth (element (host w)))
             (scrollHeight (element (host w)))
             (clientHeight (element (host w))))
          (wheelBound (host w)) (scrollBound (host w)) (rafNext (host w))
          (rafQueue (host w)) (written (host w)))
       w).

(** At most one callback of the scroller is scheduled, and [frameId] is its
    handle. *)
Definition single_flight (w : World) : Prop :=
  rafQueue (host w) = []
  \/ exists i, frameId (sc w) = Some i /\ rafQueue (host w) = [i].

(** Wheel events each less than 300 ms after the one before, the first
    less than 300 ms after [last], none of them the event in [ignored]. *)
Fixpoint foreign_series (ignored : option nat) (last : Z)
    (evs : list (Z * WheelEvent)) : Prop :=
  match evs with
  | [] => True
  | (now, e) :: rest =>
      (now - last < 300)%Z
      /\ ignored <> Some (ev_id e)
      /\ foreign_series ignored now rest
  end.

Definition wheels (evs : list (Z * WheelEvent)) : list action :=
  map (fun ne => Wheel (fst ne) (snd ne)) evs.

(** The sums of the [left] and of the [top] of a list of scroll options. *)
Fixpoint sumLeft (os : list ScrollOptions) : num :=
  match os with
  | [] => zero
  | o :: rest => (nullish (so_left o) zero + sumLeft rest)%num
  end.

Fixpoint sumTop (os : list ScrollOptions) : num :=
  match os with
  | [] => zero
  | o :: rest => (nullish (so_top o) zero + sumTop rest)%num
  end.

(** The actions that leave [frameId] alone when it is set. *)
Definition keeps_handle (a : action) : bool :=
  match a with
  | Stop | Dispose => false
  | _ => true
  end.

(** The actions that leave the gliding vector alone. *)
Definition keeps_gliding (a : action) : bool :=
  match a with
  | Glide _ | Stop | Dispose => false
  | _ => true
  end.

(** The argument [handleWheel] passes to [scrollBy] for the event [e]. *)
Definition wheelOptions (w : World) (e : WheelEvent) : ScrollOptions :=
  if self_flipWheel (sc w)
  then mkScrollOptions (Some (deltaY e)) (Some (deltaX e))
         (Some (self_wheelFriction (sc w)))
  else mkScrollOptions (Some (deltaX e)) (Some (deltaY e))
         (Some (self_wheelFriction (sc w))).

(** ** Whole numbers of pixels

    A JavaScript number holds every whole number up to [2^53] in size, and
    adds and subtracts two of them without rounding as long as the result
    stays that small.  The statements that need a sum to be exact are made
    for whole numbers, within bounds that keep every sum the code computes
    on the way under [2^53]. *)

(** [x] is a whole number of size [b] at most. *)
Definition is_whole (b : Z) (x : num) : bool :=
  match x with
  | Fin q => (Qden (this q) =? 1)%positive && (Z.abs (Qnum (this q)) <=? b)%Z
  | _ => false
  end.

Definition whole_onum (b : Z) (o : option num) : bool :=
  match o with Some x => is_whole b x | None => true end.

(** The bounds used for positions and targets, for velocities, and for the
    amounts and the number of a run of [scrollBy] calls. *)
Definition MAX_POSITION : Z := 2 ^ 51.
Definition MAX_VELOCITY : Z := 2 ^ 52.
Definition MAX_AMOUNT : Z := 2 ^ 31.
Definition MAX_CALLS : Z := 2 ^ 20.

(** The cached position and the pending scrolling velocity are whole. *)
Definition whole_motion (w : World) : bool :=
  is_whole MAX_POSITION (left (currentPosition (sc w)))
  && is_whole MAX_POSITION (top (currentPosition (sc w)))
  && is_whole MAX_VELOCITY (pendingX (sc w))
  && is_whole MAX_VELOCITY (pendingY (sc w)).

(** The clamped coordinates a [scrollTo] with the options [o] heads for are
    whole. *)
Definition whole_target (o : ScrollOptions) (w : World) : bool :=
  match so_left o with
  | Some l => is_whole MAX_POSITION (clamp zero l (width (getScrollLength w)))
  | None => true
  end
  && match so_top o with
     | Some t =>
         is_whole MAX_POSITION (clamp zero t (height (getScrollLength w)))
     | None => true
     end.

(** The amounts of a [scrollBy] are whole. *)
Definition whole_amounts (o : ScrollOptions) : bool :=
  whole_onum MAX_AMOUNT (so_left o) && whole_onum MAX_AMOUNT (so_top o).

(** [o] with [l] as its [left]. *)
Definition with_left (l : num) (o : ScrollOptions) : ScrollOptions :=
  mkScrollOptions (Some l) (so_top o) (so_friction o).

Definition with_top (t : num) (o : ScrollOptions) : ScrollOptions :=
  mkScrollOptions (so_left o) (Some t) (so_friction o).

(** The delta [scrollTo] hands to [scrollBy] for one axis:
    [coordinate == null ? 0 : clamp(0, coordinate, length) - (position + pending)]. *)
Definition targetDelta (coordinate : option num) (length position pending : num)
    : num :=
  match coordinate with
  | None => zero
  | Some c => (clamp zero c length - (position + pending))%num
  end.

(** The actions that never assign the cached position from the element. *)
Definition keeps_position (a : action) : bool :=
  match a with
  | ScrollEvent => false
  | _ => true
  end.

(** ** Arithmetic of [num] *)

Section NumFacts.

Local Open Scope Qc_scope.

Lemma this_plus (a b : Qc) : (this (a + b) == this a + this b)%Q.
Proof. unfold Qcplus, Q2Qc; cbn [this]. apply Qred_correct. Qed.

Lemma this_mult (a b : Qc) : (this (a * b) == this a * this b)%Q.
Proof. unfold Qcmult, Q2Qc; cbn [this]. apply Qred_correct. Qed.

Lemma this_opp (a : Qc) : (this (- a) == - this a)%Q.
Proof. unfold Qcopp, Q2Qc; cbn [this]. apply Qred_correct. Qed.

Lemma this_minus (a b : Qc) : (this (a - b) == this a - this b)%Q.
Proof. unfold Qcminus. rewrite this_plus, this_opp. reflexivity. Qed.

Lemma this_Q2Qc (q : Q) : (this (Q2Qc q) == q)%Q.
Proof. cbn [this Q2Qc]. apply Qred_correct. Qed.

Lemma leb_Fin (x y : Qc) : leb (Fin x) (Fin y) = true <-> x <= y.
Proof.
  unfold leb; cbn [cmp]. rewrite Qcle_alt.
  destruct (x ?= y); split; intros; congruence.
Qed.

Lemma ltb_Fin (x y : Qc) : ltb (Fin x) (Fin y) = true <-> x < y.
Proof.
  unfold ltb; cbn [cmp]. rewrite Qclt_alt.
  destruct (x ?= y); split; intros; congruence.
Qed.

Lemma eqb_Fin (x y : Qc) : eqb (Fin x) (Fin y) = true <-> x = y.
Proof.
  unfold eqb; cbn [cmp]. rewrite Qceq_alt.
  destruct (x ?= y); split; intros; congruence.
Qed.

Lemma add_zero_l (a : num) : (zero + a)%num = a.
Proof.
  destruct a; cbn; try reflexivity. f_equal. ring.
Qed.

Lemma add_zero_r (a : num) : (a + zero)%num = a.
Proof.
  destruct a; cbn; try reflexivity. f_equal. ring.
Qed.

Lemma or_else_zero (a : num) :
  or_else a zero = a \/ (a = NaN /\ or_else a zero = zero).
Proof.
  destruct a as [| | |q]; cbn; auto.
  unfold or_else, truthy, sgn. destruct (q ?= 0) eqn:E; auto.
  apply Qceq_alt in E. subst. auto.
Qed.

End NumFacts.

(** ** The renderer, frame by frame *)

Section Renderer.

Local Open Scope num_scope.

Lemma render_disposed (t : num) (w : World) :
  self_disposed (sc w) = true -> render t w = w.
Proof. intros H. unfold render. rewrite H. reflexivity. Qed.

Lemma requestRender_sc_fields (w : World) :
  let w' := requestRender w in
  scrolling (sc w') = scrolling (sc w)
  /\ gliding (sc w') = gliding (sc w)
  /\ friction (sc w') = friction (sc w)
  /\ currentPosition (sc w') = currentPosition (sc w)
  /\ lastFrameTime (sc w') = lastFrameTime (sc w)
  /\ self_disposed (sc w') = self_disposed (sc w)
  /\ self_friction (sc w') = self_friction (sc w)
  /\ self_wheelFriction (sc w') = self_wheelFriction (sc w)
  /\ self_flipWheel (sc w') = self_flipWheel (sc w).
Proof.
  unfold requestRender. destruct (no_frameId (sc w)); cbn; repeat split.
Qed.

Lemma requestRender_host_fields (w : World) :
  let w' := requestRender w in
  element (host w') = element (host w)
  /\ written (host w') = written (host w)
  /\ wheelBound (host w') = wheelBound (host w)
  /\ scrollBound (host w') = scrollBound (host w)
  /\ glob w' = glob w.
Proof.
  unfold requestRender. destruct (no_frameId (sc w)); cbn; repeat split.
Qed.

Lemma requestRender_frameId (w : World) :
  frameId (sc (requestRender w)) <> None.
Proof.
  unfold requestRender, no_frameId.
  destruct (frameId (sc w)) eqn:E; cbn; congruence.
Qed.

(** A request made while no handle is kept schedules a fresh callback and
    keeps its handle. *)
Lemma requestRender_schedules (w : World) :
  frameId (sc w) = None ->
  frameId (sc (requestRender w)) = Some (rafNext (host w))
  /\ rafQueue (host (requestRender w)) = rafQueue (host w) ++ [rafNext (host w)].
Proof.
  intros H. unfold requestRender, no_frameId. rewrite H. cbn. split; reflexivity.
Qed.

Lemma requestRender_keeps (w : World) (i : positive) :
  frameId (sc w) = Some i -> requestRender w = w.
Proof.
  intros H. unfold requestRender, no_frameId. rewrite H. reflexivity.
Qed.

Lemma reschedule_sc_fields (t : num) (w : World) :
  let w' := reschedule t w in
  scrolling (sc w') = scrolling (sc w)
  /\ gliding (sc w') = gliding (sc w)
  /\ friction (sc w') = friction (sc w)
  /\ currentPosition (sc w') = currentPosition (sc w)
  /\ self_disposed (sc w') = self_disposed (sc w)
  /\ self_friction (sc w') = self_friction (sc w)
  /\ self_wheelFriction (sc w') = self_wheelFriction (sc w)
  /\ self_flipWheel (sc w') = self_flipWheel (sc w).
Proof.
  cbv zeta. unfold reschedule.
  destruct (gliding (sc w)) eqn:Hg, (scrolling (sc w)) eqn:Hs.
  4: { cbn. rewrite Hg, Hs. repeat split; reflexivity. }
  all: match goal with |- context [requestRender ?W] =>
         pose proof (requestRender_sc_fields W) as H end;
       cbv zeta in H;
       destruct H as (H1 & H2 & H3 & H4 & _ & H6 & H7 & H8 & H9);
       rewrite H1, H2, H3, H4, H6, H7, H8, H9; cbn; rewrite ?Hg, ?Hs;
       repeat split; reflexivity.
Qed.

Lemma reschedule_host_fields (t : num) (w : World) :
  let w' := reschedule t w in
  element (host w') = element (host w)
  /\ written (host w') = written (host w)
  /\ wheelBound (host w') = wheelBound (host w)
  /\ scrollBound (host w') = scrollBound (host w)
  /\ glob w' = glob w.
Proof.
  cbv zeta. unfold reschedule.
  destruct (gliding (sc w)) eqn:Hg, (scrolling (sc w)) eqn:Hs.
  4: { cbn. repeat split; reflexivity. }
  all: match goal with |- context [requestRender ?W] =>
         pose proof (requestRender_host_fields W) as H end;
       cbv zeta in H; exact H.
Qed.

(** What a frame of a live scroller leaves in the scroller's variables. *)
Lemma render_live (t : num) (w : World) :
  self_disposed (sc w) = false ->
  let pos := currentPosition (sc w) in
  let len := getScrollLength w in
  let r := advance (timeDelta t w) pos len (friction (sc w))
             (scrolling (sc w)) (gliding (sc w)) in
  let p' := mkPosition (clamp zero (left pos + snd (fst r)) (width len))
                       (clamp zero (top pos + snd r) (height len)) in
  let w' := render t w in
  scrolling (sc w') = fst (fst r)
  /\ currentPosition (sc w') = p'
  /\ gliding (sc w') = gliding (sc w)
  /\ friction (sc w') = friction (sc w)
  /\ self_disposed (sc w') = false
  /\ written (host w') = p' :: written (host w)
  /\ element (host w') =
       mkElement (left p') (top p') (scrollWidth (element (host w)))
         (clientWidth (element (host w))) (scrollHeight (element (host w)))
         (clientHeight (element (host w)))
  /\ glob w' = glob w.
Proof.
  intros Hd. cbv zeta. unfold render. rewrite Hd.
  destruct (advance _ _ _ _ _ _) as [[s' lb] tb]. cbn [fst snd].
  match goal with |- context [reschedule t ?W] =>
    pose proof (reschedule_sc_fields t W) as Hs;
    pose proof (reschedule_host_fields t W) as Hh end.
  cbv zeta in Hs, Hh.
  destruct Hs as (H1 & H2 & H3 & H4 & H5 & _).
  destruct Hh as (G1 & G2 & _ & _ & G5).
  rewrite H1, H2, H3, H4, H5, G1, G2, G5. cbn.
  repeat split; auto.
Qed.

Lemma advance_scrolling (dt : num) (pos : Position) (len : ScrollLength)
    (fr : num) (v : Velocity) (g : option Velocity) :
  fst (fst (advance dt pos len fr (Some v) g))
  = fst (fst (scrollingStep fr dt pos len v)).
Proof.
  unfold advance. destruct (scrollingStep fr dt pos len v) as [[v' xd] yd].
  destruct g as [[gx gy]|]; reflexivity.
Qed.

Lemma advance_none (dt : num) (pos : Position) (len : ScrollLength)
    (fr : num) (g : option Velocity) :
  fst (fst (advance dt pos len fr None g)) = None.
Proof. unfold advance. destruct g as [[gx gy]|]; reflexivity. Qed.

Lemma render_keeps (t : num) (w : World) :
  self_disposed (sc (render t w)) = self_disposed (sc w)
  /\ friction (sc (render t w)) = friction (sc w)
  /\ (scrolling (sc w) = None -> scrolling (sc (render t w)) = None).
Proof.
  destruct (self_disposed (sc w)) eqn:Hd.
  - rewrite render_disposed by exact Hd. auto.
  - destruct (render_live t w Hd) as (R1 & _ & _ & R4 & R5 & _).
    split; [exact R5|]. split; [exact R4|].
    intros Hs. rewrite R1, Hs. apply advance_none.
Qed.

Lemma frame_keeps (t : num) (w : World) :
  self_disposed (sc (frame t w)) = self_disposed (sc w)
  /\ friction (sc (frame t w)) = friction (sc w)
  /\ (scrolling (sc w) = None -> scrolling (sc (frame t w)) = None).
Proof.
  unfold frame.
  change (self_disposed (sc w))
    with (self_disposed (sc (set_host (set_rafQueue [] (host w)) w))).
  change (friction (sc w))
    with (friction (sc (set_host (set_rafQueue [] (host w)) w))).
  change (scrolling (sc w))
    with (scrolling (sc (set_host (set_rafQueue [] (host w)) w))).
  generalize (set_host (set_rafQueue [] (host w)) w).
  induction (rafQueue (host w)) as [|i q IH]; intros v; cbn [fold_left].
  - auto.
  - destruct (render_keeps t v) as (A & B & C).
    destruct (IH (render t v)) as (A' & B' & C').
    rewrite A', B', A, B. auto.
Qed.

(** C3: on a frame with an active scrolling motion each axis moves by
    [delta = velocity * adjustedFriction], where [adjustedFriction] is
    [clamp(0, friction * (elapsed / STANDARD_FRAME_TIME), 1)]; the axis
    velocity becomes zero when [|delta| < 0.2] or when [position + delta] is
    not within [[0, length]], and [velocity - delta] otherwise; the vector is
    cleared when both axes are zero. *)
Theorem render_scrolling_axis (t : num) (w : World) (x y : num) :
  self_disposed (sc w) = false ->
  scrolling (sc w) = Some (x, y) ->
  let elapsed := timeDelta t w in
  let af :=
    clamp zero (friction (sc w) * (elapsed / STANDARD_FRAME_TIME)) one in
  let dx := x * af in
  let dy := y * af in
  let pos := currentPosition (sc w) in
  let len := getScrollLength w in
  let glideBy :=
    match gliding (sc w) with
    | Some (gx, gy) => (gx * (elapsed / ofZ 1000), gy * (elapsed / ofZ 1000))
    | None => (zero, zero)
    end in
  let outside p l := negb (leb zero p && leb p l) in
  let nx :=
    if ltb (Num.abs dx) (ofQ (2 # 10)) || outside (left pos + dx) (width len)
    then zero else x - dx in
  let ny :=
    if ltb (Num.abs dy) (ofQ (2 # 10)) || outside (top pos + dy) (height len)
    then zero else y - dy in
  currentPosition (sc (render t w)) =
    mkPosition (clamp zero (left pos + (dx + fst glideBy)) (width len))
               (clamp zero (top pos + (dy + snd glideBy)) (height len))
  /\ scrolling (sc (render t w)) =
       (if eqb nx zero && eqb ny zero then None else Some (nx, ny)).
Proof.
  intros Hd Hs. cbv zeta.
  destruct (render_live t w Hd) as (H1 & H2 & _).
  rewrite H1, H2, Hs. clear H1 H2.
  unfold advance, scrollingStep, adjustedFriction, nextVelocity, isWithin,
    geb, EPSILON, glidingStep.
  rewrite !add_zero_l.
  destruct (gliding (sc w)) as [[gx gy]|]; cbn [fst snd].
  - split; reflexivity.
  - rewrite !add_zero_r. split; reflexivity.
Qed.

(** C3, at the first frame of a scroll by 100 pixels on the running example:
    the axis moves by 20 pixels and keeps a velocity of 80. *)
Lemma render_scrolling_axis_witness :
  currentPosition (sc (render zero (scrollBy (Demo.byLeft (ofZ 100)) Demo.w0)))
    = mkPosition (ofZ 20) zero
  /\ scrolling (sc (render zero (scrollBy (Demo.byLeft (ofZ 100)) Demo.w0)))
    = Some (ofZ 80, zero).
Proof.
  pose proof (@render_scrolling_axis zero
                (scrollBy (Demo.byLeft (ofZ 100)) Demo.w0) (ofZ 100) zero
                eq_refl eq_refl) as H.
  cbv zeta in H. destruct H as [H1 H2]. rewrite H1, H2.
  split; vm_compute; reflexivity.
Defined.

End Renderer.

(** ** The public operations *)

Section Operations.

Local Open Scope num_scope.

Lemma scrollBy_fields (o : ScrollOptions) (w : World) :
  let w' := scrollBy o w in
  friction (sc w') = opt_or_else (so_friction o) (self_friction (sc w))
  /\ scrolling (sc w') =
       Some (pendingX (sc w) + nullish (so_left o) zero,
             pendingY (sc w) + nullish (so_top o) zero)
  /\ gliding (sc w') = gliding (sc w)
  /\ currentPosition (sc w') = currentPosition (sc w)
  /\ lastFrameTime (sc w') = lastFrameTime (sc w)
  /\ self_disposed (sc w') = self_disposed (sc w)
  /\ self_friction (sc w') = self_friction (sc w)
  /\ self_wheelFriction (sc w') = self_wheelFriction (sc w)
  /\ self_flipWheel (sc w') = self_flipWheel (sc w).
Proof.
  cbv zeta. unfold scrollBy.
  match goal with |- context [requestRender ?W] =>
    pose proof (requestRender_sc_fields W) as H end.
  cbv zeta in H. destruct H as (H1 & H2 & H3 & H4 & H5 & H6 & H7 & H8 & H9).
  rewrite H1, H2, H3, H4, H5, H6, H7, H8, H9. cbn.
  repeat split; reflexivity.
Qed.

Lemma scrollBy_host_fields (o : ScrollOptions) (w : World) :
  let w' := scrollBy o w in
  element (host w') = element (host w)
  /\ written (host w') = written (host w)
  /\ wheelBound (host w') = wheelBound (host w)
  /\ scrollBound (host w') = scrollBound (host w)
  /\ glob w' = glob w.
Proof.
  cbv zeta. unfold scrollBy.
  match goal with |- context [requestRender ?W] =>
    pose proof (requestRender_host_fields W) as H end.
  cbv zeta in H. exact H.
Qed.

Lemma glide_fields (o : GlideOptions) (w : World) :
  let w' := glide o w in
  gliding (sc w') =
    Some (opt_or_else (go_left o) zero, opt_or_else (go_top o) zero)
  /\ scrolling (sc w') = scrolling (sc w)
  /\ friction (sc w') = friction (sc w)
  /\ currentPosition (sc w') = currentPosition (sc w)
  /\ lastFrameTime (sc w') = lastFrameTime (sc w)
  /\ self_disposed (sc w') = self_disposed (sc w)
  /\ self_friction (sc w') = self_friction (sc w)
  /\ self_wheelFriction (sc w') = self_wheelFriction (sc w)
  /\ self_flipWheel (sc w') = self_flipWheel (sc w).
Proof.
  cbv zeta. unfold glide.
  match goal with |- context [requestRender ?W] =>
    pose proof (requestRender_sc_fields W) as H end.
  cbv zeta in H. destruct H as (H1 & H2 & H3 & H4 & H5 & H6 & H7 & H8 & H9).
  rewrite H1, H2, H3, H4, H5, H6, H7, H8, H9. cbn.
  repeat split; reflexivity.
Qed.

Lemma glide_host_fields (o : GlideOptions) (w : World) :
  let w' := glide o w in
  element (host w') = element (host w)
  /\ written (host w') = written (host w)
  /\ wheelBound (host w') = wheelBound (host w)
  /\ scrollBound (host w') = scrollBound (host w)
  /\ glob w' = glob w.
Proof.
  cbv zeta. unfold glide.
  match goal with |- context [requestRender ?W] =>
    pose proof (requestRender_host_fields W) as H end.
  cbv zeta in H. exact H.
Qed.

Lemma opt_or_else_truthy (f d : num) :
  truthy f = true -> opt_or_else (Some f) d = f.
Proof. intros H. cbn. unfold or_else. rewrite H. reflexivity. Qed.

(** C4, as the code has it: [glide] replaces the whole gliding vector; each
    axis becomes the supplied speed, or 0 when it is absent or 0, whatever
    was gliding before, and the scrolling motion is left alone.  So
    [glide({top: -50})] then [glide({top: 0})] leaves [[0, 0]]: the vertical
    glide stops, and so does any earlier horizontal glide. *)
Theorem glide_replaces_vector (w : World) (o : GlideOptions) :
  gliding (sc (glide o w)) =
    Some (opt_or_else (go_left o) zero, opt_or_else (go_top o) zero)
  /\ scrolling (sc (glide o w)) = scrolling (sc w)
  /\ gliding (sc (glide (mkGlideOptions None (Some (ofZ (-50)))) w)) =
       Some (zero, ofZ (-50))
  /\ gliding (sc (glide (mkGlideOptions None (Some zero))
                    (glide (mkGlideOptions None (Some (ofZ (-50)))) w))) =
       Some (zero, zero).
Proof.
  destruct (glide_fields o w) as (H1 & H2 & _).
  split; [exact H1|]. split; [exact H2|].
  split.
  - destruct (glide_fields (mkGlideOptions None (Some (ofZ (-50)))) w)
      as (G & _). rewrite G. vm_compute. reflexivity.
  - destruct (glide_fields (mkGlideOptions None (Some zero))
                (glide (mkGlideOptions None (Some (ofZ (-50)))) w))
      as (G & _). rewrite G. reflexivity.
Qed.

(** C4 fails as stated: with a horizontal glide of 100 px/s active,
    [glide({top: -50})] then [glide({top: 0})] leaves no horizontal glide. *)
Lemma glide_other_axis_counterexample :
  let w := glide (mkGlideOptions (Some (ofZ 100)) None) Demo.w0 in
  let w' := glide (mkGlideOptions None (Some zero))
              (glide (mkGlideOptions None (Some (ofZ (-50)))) w) in
  gliding (sc w) = Some (ofZ 100, zero)
  /\ gliding (sc w') = Some (zero, zero)
  /\ option_map fst (gliding (sc w')) <> option_map fst (gliding (sc w)).
Proof.
  cbv zeta. split; [vm_compute; reflexivity|].
  split; [vm_compute; reflexivity|].
  vm_compute. intros H. discriminate H.
Qed.

End Operations.

(** ** Disposal *)

Section Disposal.

Local Open Scope num_scope.

Lemma stop_fields (w : World) :
  let w' := stop w in
  scrolling (sc w') = None
  /\ gliding (sc w') = None
  /\ frameId (sc w') = None
  /\ lastFrameTime (sc w') = None
  /\ self_disposed (sc w') = self_disposed (sc w)
  /\ currentPosition (sc w') = currentPosition (sc w)
  /\ element (host w') = element (host w)
  /\ written (host w') = written (host w).
Proof.
  cbv zeta. unfold stop. destruct (frameId (sc w)); cbn; repeat split.
Qed.

Lemma dispose_fields (w : World) :
  let w' := dispose w in
  self_disposed (sc w') = true
  /\ scrolling (sc w') = None
  /\ gliding (sc w') = None
  /\ frameId (sc w') = None
  /\ element (host w') = element (host w)
  /\ written (host w') = written (host w)
  /\ wheelBound (host w') = false
  /\ scrollBound (host w') = false.
Proof.
  cbv zeta. unfold dispose, stop.
  destruct (frameId (sc w)); cbn; repeat split.
Qed.

Lemma frame_disposed (t : num) (w : World) :
  self_disposed (sc w) = true ->
  frame t w = set_host (set_rafQueue [] (host w)) w.
Proof.
  intros Hd. unfold frame.
  assert (G : forall (q : list positive) (v : World),
             self_disposed (sc v) = true ->
             fold_left (fun w' (_ : positive) => render t w') q v = v).
  { induction q as [|i q IH]; intros v Hv; cbn; [reflexivity|].
    rewrite render_disposed by exact Hv. apply IH, Hv. }
  apply G. exact Hd.
Qed.

Lemma scrollTo_as_scrollBy (o : ScrollOptions) (w : World) :
  exists o', scrollTo o w = scrollBy o' w /\ so_friction o' = so_friction o.
Proof. unfold scrollTo. eexists. split; reflexivity. Qed.

Lemma handleWheel_surface (now : Z) (e : WheelEvent) (w : World) :
  let w' := fst (handleWheel now e w) in
  element (host w') = element (host w)
  /\ written (host w') = written (host w)
  /\ self_disposed (sc w') = self_disposed (sc w).
Proof.
  cbv zeta. unfold handleWheel.
  destruct (now - lastGlobalWheel (glob w) <? WHEEL_THRESHOLD)%Z;
    cbn [fst]; [repeat split|].
  match goal with |- context [scrollBy ?O ?W] =>
    destruct (scrollBy_host_fields O W) as (A & B & _);
    destruct (scrollBy_fields O W) as (_ & _ & _ & _ & _ & C & _) end.
  rewrite A, B, C. repeat split.
Qed.

(** No action but a frame writes to the element, and a frame of a disposed
    scroller does not either; the disposed flag is never cleared. *)
Lemma step_disposed (w : World) (a : action) :
  self_disposed (sc w) = true ->
  self_disposed (sc (step w a)) = true
  /\ element (host (step w a)) = element (host w)
  /\ written (host (step w a)) = written (host w).
Proof.
  intros Hd. destruct a; cbn [step].
  - destruct (scrollTo_as_scrollBy o w) as (o' & E & _). rewrite E.
    destruct (scrollBy_host_fields o' w) as (A & B & _).
    destruct (scrollBy_fields o' w) as (_ & _ & _ & _ & _ & C & _).
    rewrite A, B, C. auto.
  - destruct (scrollBy_host_fields o w) as (A & B & _).
    destruct (scrollBy_fields o w) as (_ & _ & _ & _ & _ & C & _).
    rewrite A, B, C. auto.
  - destruct (glide_host_fields o w) as (A & B & _).
    destruct (glide_fields o w) as (_ & _ & _ & _ & _ & C & _).
    rewrite A, B, C. auto.
  - destruct (stop_fields w) as (_ & _ & _ & _ & C & _ & A & B).
    rewrite A, B, C. auto.
  - destruct (dispose_fields w) as (C & _ & _ & _ & A & B & _).
    rewrite A, B, C. auto.
  - cbn. auto.
  - cbn. auto.
  - cbn. auto.
  - rewrite frame_disposed by exact Hd. cbn. auto.
  - unfold wheel. destruct (wheelBound (host w)).
    + destruct (handleWheel_surface now e w) as (A & B & C).
      destruct (handleWheel now e w) as [w1 e1]. cbn [fst] in *.
      unfold globalWheel. destruct (match ignoreEvent (glob w1) with
                                    | Some i => Nat.eqb i (ev_id e1)
                                    | None => false end); cbn;
        rewrite ?A, ?B, ?C; auto.
    + cbn [fst]. unfold globalWheel.
      destruct (match ignoreEvent (glob w) with
                | Some i => Nat.eqb i (ev_id e)
                | None => false end); cbn; auto.
  - unfold globalWheel.
    destruct (match ignoreEvent (glob w) with
              | Some i => Nat.eqb i (ev_id e)
              | None => false end); cbn; auto.
  - unfold scrollEvent, handleScroll.
    destruct (scrollBound (host w)); [|auto].
    destruct (no_frameId (sc w)); cbn; auto.
Qed.

(** C8: once the scroller is disposed the renderer returns before anything
    else, also for a frame that was scheduled before; whatever public calls,
    frames and events follow, nothing is written to the element and its
    offsets stay as they were.  [dispose()] itself writes nothing and sets
    the flag. *)
Theorem disposed_never_writes (w0 w : World) (l : list action) (t : num) :
  self_disposed (sc w) = true ->
  self_disposed (sc (dispose w0)) = true
  /\ written (host (dispose w0)) = written (host w0)
  /\ render t w = w
  /\ written (host (frame t w)) = written (host w)
  /\ self_disposed (sc (run w l)) = true
  /\ written (host (run w l)) = written (host w)
  /\ element (host (run w l)) = element (host w).
Proof.
  intros Hd.
  destruct (dispose_fields w0) as (D1 & _ & _ & _ & _ & D6 & _).
  split; [exact D1|]. split; [exact D6|].
  split; [apply render_disposed, Hd|].
  split; [rewrite frame_disposed by exact Hd; reflexivity|].
  clear D1 D6. revert w Hd. unfold run.
  induction l as [|a l IH]; intros w Hd; cbn [fold_left].
  - auto.
  - destruct (step_disposed w a Hd) as (A & B & C).
    destruct (IH (step w a) A) as (I1 & I2 & I3).
    rewrite I2, I3, B, C. auto.
Qed.

(** C8 on the running example: a scroll is requested, the scroller is
    disposed, and a scroll, a glide and two frames follow. *)
Lemma disposed_never_writes_witness :
  let w := dispose (scrollBy (Demo.byLeft (ofZ 100)) Demo.w0) in
  let l := [ScrollTo (Demo.toLeft (ofZ 500));
            Glide (mkGlideOptions (Some (ofZ 100)) None);
            Frame zero; Frame (ofZ 17)] in
  self_disposed (sc w) = true
  /\ written (host (run w l)) = []
  /\ element (host (run w l)) = Demo.el.
Proof.
  cbv zeta.
  assert (H : self_disposed
                (sc (dispose (scrollBy (Demo.byLeft (ofZ 100)) Demo.w0)))
              = true) by reflexivity.
  split; [exact H|].
  destruct (@disposed_never_writes Demo.w0
              (dispose (scrollBy (Demo.byLeft (ofZ 100)) Demo.w0))
              [ScrollTo (Demo.toLeft (ofZ 500));
               Glide (mkGlideOptions (Some (ofZ 100)) None);
               Frame zero; Frame (ofZ 17)] zero H)
    as (_ & _ & _ & _ & _ & A & B).
  split; [rewrite A | rewrite B]; reflexivity.
Defined.

End Disposal.

(** ** The friction in effect *)

Section FrictionInEffect.

Local Open Scope num_scope.

(** Only [scrollBy], called directly, by [scrollTo] or by the wheel handler,
    touches the friction in effect. *)
Lemma step_keeps_friction (w : World) (a : action) :
  keeps_friction a = true -> friction (sc (step w a)) = friction (sc w).
Proof.
  destruct a as [o|o|o| | |f|b|f|time|now e|now e| ];
    cbn [keeps_friction step]; intros H; try discriminate H.
  - destruct (glide_fields o w) as (_ & _ & F & _). exact F.
  - unfold stop. destruct (frameId (sc w)); reflexivity.
  - unfold dispose, stop. destruct (frameId (sc w)); reflexivity.
  - reflexivity.
  - reflexivity.
  - reflexivity.
  - apply frame_keeps.
  - unfold globalWheel.
    destruct (match ignoreEvent (glob w) with
              | Some i => Nat.eqb i (ev_id e)
              | None => false end); reflexivity.
  - unfold scrollEvent, handleScroll.
    destruct (scrollBound (host w)); [|reflexivity].
    destruct (no_frameId (sc w)); reflexivity.
Qed.

Lemma run_keeps_friction (l : list action) (w : World) :
  forallb keeps_friction l = true ->
  friction (sc (run w l)) = friction (sc w).
Proof.
  revert w. unfold run.
  induction l as [|a l IH]; intros w H; cbn [fold_left]; [reflexivity|].
  cbn [forallb] in H. apply andb_true_iff in H. destruct H as [Ha Hl].
  rewrite (IH _ Hl). apply step_keeps_friction, Ha.
Qed.

(** C7, as the code has it: every [scrollBy] sets the friction in effect
    anew, to the friction passed when there is one (and it is neither 0 nor
    [NaN]) and to the instance default when none is passed, also while a
    motion is pending; frames and the calls that are not scrolls leave it
    alone, so it lasts until the next scroll.  [scrollBy] adds [left] and
    [top] (0 when absent) to the pending velocity of each axis and leaves a
    frame requested. *)
Theorem scrollBy_friction_and_velocity (w : World) (o : ScrollOptions) :
  let w' := scrollBy o w in
  (forall f, so_friction o = Some f -> truthy f = true ->
             friction (sc w') = f)
  /\ (so_friction o = None -> friction (sc w') = self_friction (sc w))
  /\ (forall l, forallb keeps_friction l = true ->
                friction (sc (run w' l)) = friction (sc w'))
  /\ scrolling (sc w') =
       Some (pendingX (sc w) + nullish (so_left o) zero,
             pendingY (sc w) + nullish (so_top o) zero)
  /\ frameId (sc w') <> None
  /\ (frameId (sc w) = None ->
      frameId (sc w') = Some (rafNext (host w))
      /\ In (rafNext (host w)) (rafQueue (host w'))).
Proof.
  cbv zeta. destruct (scrollBy_fields o w) as (H1 & H2 & _).
  repeat split.
  - intros f Hf Ht. rewrite H1, Hf. apply opt_or_else_truthy, Ht.
  - intros Hf. rewrite H1, Hf. reflexivity.
  - intros l Hl. apply run_keeps_friction, Hl.
  - exact H2.
  - unfold scrollBy. apply requestRender_frameId.
  - unfold scrollBy.
    match goal with |- context [requestRender ?W] =>
      destruct (@requestRender_schedules W) as [A B]; [cbn; assumption|] end.
    rewrite A. reflexivity.
  - unfold scrollBy.
    match goal with |- context [requestRender ?W] =>
      destruct (@requestRender_schedules W) as [A B]; [cbn; assumption|] end.
    rewrite B. apply in_or_app. right. cbn. left. reflexivity.
Qed.

(** C7 at a fresh scroller: a scroll by 100 with friction 1/2 puts 1/2 in
    effect, requests the first frame, and a glide and two frames later 1/2 is
    still in effect; a scroll by 100 without friction puts the default 1/5 in
    effect. *)
Lemma scrollBy_friction_and_velocity_witness :
  let o := mkScrollOptions (Some (ofZ 100)) None (Some (ofQ (1 # 2))) in
  friction (sc (scrollBy o Demo.w0)) = ofQ (1 # 2)
  /\ friction (sc (run (scrollBy o Demo.w0)
                     [Glide (mkGlideOptions None (Some (ofZ 10)));
                      Frame zero; Frame (ofZ 17)])) = ofQ (1 # 2)
  /\ frameId (sc (scrollBy o Demo.w0)) = Some 1%positive
  /\ friction (sc (scrollBy (Demo.byLeft (ofZ 100)) Demo.w0)) = ofQ (2 # 10).
Proof.
  cbv zeta.
  destruct (scrollBy_friction_and_velocity Demo.w0
              (mkScrollOptions (Some (ofZ 100)) None (Some (ofQ (1 # 2)))))
    as (H1 & _ & H3 & _ & _ & H6).
  destruct (scrollBy_friction_and_velocity Demo.w0 (Demo.byLeft (ofZ 100)))
    as (_ & H2 & _).
  pose proof (H1 (ofQ (1 # 2)) eq_refl eq_refl) as E1.
  split; [exact E1|].
  split;
    [rewrite (H3 [Glide (mkGlideOptions None (Some (ofZ 10)));
                  Frame zero; Frame (ofZ 17)] eq_refl); exact E1|].
  split; [destruct (H6 eq_refl) as [E6 _]; rewrite E6; reflexivity|].
  rewrite (H2 eq_refl). reflexivity.
Defined.

(** C7 fails as stated: after a scroll by 100 with friction 1/2, a second
    scroll by 100 without a friction, made while the first motion is still
    pending, puts the instance default 1/5 back in effect at once. *)
Lemma scrollBy_friction_counterexample :
  let w1 := scrollBy (mkScrollOptions (Some (ofZ 100)) None
                        (Some (ofQ (1 # 2)))) Demo.w0 in
  let w2 := scrollBy (Demo.byLeft (ofZ 100)) w1 in
  friction (sc w1) = ofQ (1 # 2)
  /\ scrolling (sc w1) = Some (ofZ 100, zero)
  /\ scrolling (sc w2) = Some (ofZ 200, zero)
  /\ friction (sc w2) = ofQ (2 # 10)
  /\ friction (sc w2) <> ofQ (1 # 2).
Proof.
  cbv zeta. repeat split; try (vm_compute; reflexivity).
  vm_compute. intros H. discriminate H.
Qed.

End FrictionInEffect.

(** ** Wheel events *)

Section WheelEvents.

Local Open Scope Z_scope.

Lemma globalWheel_records (now : Z) (e : WheelEvent) (w : World) :
  ignoreEvent (glob w) <> Some (ev_id e) ->
  lastGlobalWheel (glob (globalWheel now e w)) = now
  /\ ignoreEvent (glob (globalWheel now e w)) = ignoreEvent (glob w)
  /\ sc (globalWheel now e w) = sc w
  /\ host (globalWheel now e w) = host w.
Proof.
  intros H. unfold globalWheel.
  destruct (ignoreEvent (glob w)) as [i|]; [|cbn; auto].
  destruct (Nat.eqb_spec i (ev_id e)) as [E|E]; [congruence|cbn; auto].
Qed.

(** C9: on a scroller that handles the wheel, an event that comes 300 ms or
    more (so, in particular, more than 300 ms) after the last wheel event
    recorded as foreign is intercepted: it is marked as the scroller's own,
    its default is prevented, a [scrollBy] runs with [wheelFriction] as
    friction and with the deltas swapped when [flipWheel] is set, and the
    event is not recorded as foreign.  Less than 300 ms after, the event
    is left alone and the motion does not change; the listener on [window]
    then records it as foreign itself.  And a foreign wheel event [f] is
    recorded by the listener on [window] with its time [last], so that what
    happens to the event after it is decided by [now - last]. *)
Theorem wheel_interception (now : Z) (e : WheelEvent) (w : World) :
  wheelBound (host w) = true ->
  let opts :=
    if self_flipWheel (sc w)
    then mkScrollOptions (Some (deltaY e)) (Some (deltaX e))
           (Some (self_wheelFriction (sc w)))
    else mkScrollOptions (Some (deltaX e)) (Some (deltaY e))
           (Some (self_wheelFriction (sc w))) in
  let owned :=
    set_glob (mkGlobals (minFrameTime (glob w)) (lastGlobalWheel (glob w))
                (Some (ev_id e))) w in
  (300 <= now - lastGlobalWheel (glob w) ->
   wheel now e w =
     (scrollBy opts owned, mkWheelEvent (ev_id e) (deltaX e) (deltaY e) true)
   /\ (truthy (self_wheelFriction (sc w)) = true ->
       friction (sc (fst (wheel now e w))) = self_wheelFriction (sc w))
   /\ lastGlobalWheel (glob (fst (wheel now e w))) = lastGlobalWheel (glob w))
  /\ (now - lastGlobalWheel (glob w) < 300 ->
      snd (wheel now e w) = e
      /\ sc (fst (wheel now e w)) = sc w
      /\ host (fst (wheel now e w)) = host w
      /\ (ignoreEvent (glob w) <> Some (ev_id e) ->
          lastGlobalWheel (glob (fst (wheel now e w))) = now))
  /\ (forall (last : Z) (f : WheelEvent),
        ignoreEvent (glob w) <> Some (ev_id f) ->
        let w' := step w (ForeignWheel last f) in
        lastGlobalWheel (glob w') = last
        /\ sc w' = sc w
        /\ host w' = host w
        /\ (now - last < 300 ->
            snd (wheel now e w') = e
            /\ sc (fst (wheel now e w')) = sc w
            /\ host (fst (wheel now e w')) = host w)
        /\ (300 <= now - last ->
            defaultPrevented (snd (wheel now e w')) = true
            /\ sc (fst (wheel now e w')) = sc (scrollBy opts w)
            /\ lastGlobalWheel (glob (fst (wheel now e w'))) = last)).
Proof.
  intros Hb. cbv zeta.
  assert (Old : forall v : World,
            wheelBound (host v) = true ->
            (300 <= now - lastGlobalWheel (glob v) ->
             wheel now e v =
               (scrollBy
                  (if self_flipWheel (sc v)
                   then mkScrollOptions (Some (deltaY e)) (Some (deltaX e))
                          (Some (self_wheelFriction (sc v)))
                   else mkScrollOptions (Some (deltaX e)) (Some (deltaY e))
                          (Some (self_wheelFriction (sc v))))
                  (set_glob (mkGlobals (minFrameTime (glob v))
                               (lastGlobalWheel (glob v)) (Some (ev_id e))) v),
                mkWheelEvent (ev_id e) (deltaX e) (deltaY e) true))
            /\ (now - lastGlobalWheel (glob v) < 300 ->
                snd (wheel now e v) = e
                /\ sc (fst (wheel now e v)) = sc v
                /\ host (fst (wheel now e v)) = host v
                /\ (ignoreEvent (glob v) <> Some (ev_id e) ->
                    lastGlobalWheel (glob (fst (wheel now e v))) = now))).
  { intros v Hv. unfold wheel. rewrite Hv. unfold handleWheel.
    unfold WHEEL_THRESHOLD. split; intros H.
    - destruct (Z.ltb_spec (now - lastGlobalWheel (glob v)) 300) as [L|L];
        [lia|].
      cbn [sc set_glob].
      match goal with |- context [scrollBy ?O ?W] =>
        destruct (scrollBy_host_fields O W) as (_ & _ & _ & _ & G) end.
      unfold globalWheel. rewrite G. cbn [glob set_glob ignoreEvent ev_id].
      rewrite Nat.eqb_refl. reflexivity.
    - destruct (Z.ltb_spec (now - lastGlobalWheel (glob v)) 300) as [L|L];
        [|lia].
      cbn [fst snd].
      split; [reflexivity|].
      split; [unfold globalWheel; destruct (match ignoreEvent (glob v) with
                | Some i => Nat.eqb i (ev_id e)
                | None => false end); reflexivity|].
      split; [unfold globalWheel; destruct (match ignoreEvent (glob v) with
                | Some i => Nat.eqb i (ev_id e)
                | None => false end); reflexivity|].
      intros Hi. apply globalWheel_records, Hi. }
  destruct (Old w Hb) as [O1 O2].
  split; [|split].
  - intros H. pose proof (O1 H) as E. split; [exact E|].
    rewrite E. cbn [fst].
    match goal with |- context [scrollBy ?O ?W] =>
      destruct (scrollBy_host_fields O W) as (_ & _ & _ & _ & G);
      destruct (scrollBy_fields O W) as (F & _) end.
    split.
    + intros Ht. rewrite F.
      destruct (self_flipWheel (sc w)); cbn [so_friction sc set_glob];
        apply opt_or_else_truthy, Ht.
    + rewrite G. reflexivity.
  - exact O2.
  - intros last f Hf. cbn [step].
    destruct (globalWheel_records last f w Hf) as (G1 & G2 & G3 & G4).
    assert (Hb' : wheelBound (host (globalWheel last f w)) = true)
      by (rewrite G4; exact Hb).
    destruct (Old (globalWheel last f w) Hb') as [P1 P2].
    rewrite G1, G3 in P1. rewrite G1, G3, G4 in P2.
    split; [exact G1|]. split; [exact G3|]. split; [exact G4|]. split.
    + intros H. destruct (P2 H) as (A & B & C & _). auto.
    + intros H. rewrite (P1 H). cbn [fst snd defaultPrevented].
      split; [reflexivity|].
      match goal with |- context [scrollBy ?O ?W] =>
        destruct (scrollBy_host_fields O W) as (_ & _ & _ & _ & G) end.
      rewrite G. cbn [glob set_glob lastGlobalWheel].
      split; [|reflexivity].
      unfold scrollBy, requestRender. cbn [sc set_glob set_sc host].
      rewrite G3, G4.
      destruct (no_frameId _); reflexivity.
Qed.

(** C9 on the running example with the wheel handled: an event 301 ms after
    the last foreign one is intercepted and scrolls with the wheel friction
    1/4, one 299 ms after is not and is recorded as foreign itself; and
    after a foreign event at 1000 ms an event at 1299 ms is left alone,
    one at 1300 ms is taken. *)
Lemma wheel_interception_witness :
  let w := makeScroller Demo.g0 Demo.h0
             (mkOptions None (Some true) None None) in
  let e := mkWheelEvent 7 zero (ofZ 120) false in
  let f := mkWheelEvent 6 zero (ofZ 120) false in
  defaultPrevented (snd (wheel 301 e w)) = true
  /\ scrolling (sc (fst (wheel 301 e w))) = Some (zero, ofZ 120)
  /\ friction (sc (fst (wheel 301 e w))) = ofQ (25 # 100)
  /\ lastGlobalWheel (glob (fst (wheel 301 e w))) = 0
  /\ snd (wheel 299 e w) = e
  /\ sc (fst (wheel 299 e w)) = sc w
  /\ lastGlobalWheel (glob (fst (wheel 299 e w))) = 299
  /\ lastGlobalWheel (glob (step w (ForeignWheel 1000 f))) = 1000
  /\ snd (wheel 1299 e (step w (ForeignWheel 1000 f))) = e
  /\ sc (fst (wheel 1299 e (step w (ForeignWheel 1000 f)))) = sc w
  /\ defaultPrevented (snd (wheel 1300 e (step w (ForeignWheel 1000 f)))) = true.
Proof.
  cbv zeta.
  pose proof (@wheel_interception 301
                (mkWheelEvent 7 zero (ofZ 120) false)
                (makeScroller Demo.g0 Demo.h0
                   (mkOptions None (Some true) None None)) eq_refl) as H1.
  pose proof (@wheel_interception 299
                (mkWheelEvent 7 zero (ofZ 120) false)
                (makeScroller Demo.g0 Demo.h0
                   (mkOptions None (Some true) None None)) eq_refl) as H2.
  pose proof (@wheel_interception 1299
                (mkWheelEvent 7 zero (ofZ 120) false)
                (makeScroller Demo.g0 Demo.h0
                   (mkOptions None (Some true) None None)) eq_refl) as H3.
  pose proof (@wheel_interception 1300
                (mkWheelEvent 7 zero (ofZ 120) false)
                (makeScroller Demo.g0 Demo.h0
                   (mkOptions None (Some true) None None)) eq_refl) as H4.
  cbv zeta in H1, H2, H3, H4.
  destruct H1 as [H1 _]. destruct H2 as (_ & H2 & _).
  destruct H3 as (_ & _ & H3). destruct H4 as (_ & _ & H4).
  destruct H1 as (H1 & F & G); [cbn; lia|].
  destruct H2 as (A & B & _ & C); [cbn; lia|].
  destruct (H3 1000 (mkWheelEvent 6 zero (ofZ 120) false))
    as (R & _ & _ & L & _); [cbn; discriminate|].
  destruct (H4 1000 (mkWheelEvent 6 zero (ofZ 120) false))
    as (_ & _ & _ & _ & T); [cbn; discriminate|].
  destruct L as (L1 & L2 & _); [lia|].
  destruct T as (T1 & _); [lia|].
  split; [rewrite H1; reflexivity|].
  split; [rewrite H1; vm_compute; reflexivity|].
  split; [rewrite (F eq_refl); reflexivity|].
  split; [rewrite G; reflexivity|].
  split; [exact A|]. split; [exact B|].
  split; [apply C; cbn; discriminate|].
  split; [exact R|]. split; [exact L1|]. split; [exact L2 | exact T1].
Defined.

End WheelEvents.

(** ** Gliding at speed zero *)

Section ZeroGlide.

Local Open Scope num_scope.

Lemma absent_or_zero_falsy (o : option num) :
  absent_or_zero o = true -> opt_or_else o zero = zero.
Proof.
  destruct o as [x|]; cbn; [|reflexivity].
  destruct x as [| | |q]; cbn; try discriminate.
  intros H. apply eqb_Fin in H. subst q. reflexivity.
Qed.

Lemma div_1000_finite (a : num) :
  is_finite a = true -> is_finite (a / ofZ 1000) = true.
Proof.
  destruct a; cbn; try discriminate. intros _. reflexivity.
Qed.

Lemma mul_zero_finite (a : num) : is_finite a = true -> zero * a = zero.
Proof.
  destruct a as [| | |q]; cbn; try discriminate. intros _.
  unfold zero. f_equal. ring.
Qed.

Lemma sub_finite (a b : num) :
  is_finite a = true -> is_finite b = true -> is_finite (a - b) = true.
Proof.
  destruct a, b; cbn; try discriminate; reflexivity.
Qed.

(** While something glides, every frame of a live scroller schedules the
    next one and records its time. *)
Lemma render_gliding_reschedules (t : num) (w : World) (v : Velocity) :
  self_disposed (sc w) = false ->
  gliding (sc w) = Some v ->
  frameId (sc (render t w)) = Some (rafNext (host w))
  /\ rafQueue (host (render t w)) = rafQueue (host w) ++ [rafNext (host w)]
  /\ lastFrameTime (sc (render t w)) = Some t.
Proof.
  intros Hd Hg. unfold render. rewrite Hd.
  destruct (advance _ _ _ _ _ _) as [[s' lb] tb].
  unfold reschedule. cbn [sc setPosition set_sc set_host gliding
    with_currentPosition with_scrolling]. rewrite Hg.
  match goal with |- context [requestRender ?W] =>
    destruct (@requestRender_schedules W eq_refl) as [A B];
    destruct (requestRender_sc_fields W) as (_ & _ & _ & _ & C & _) end.
  rewrite A, B, C. cbn. repeat split.
Qed.

Lemma getScrollLength_render (t : num) (w : World) :
  getScrollLength (render t w) = getScrollLength w.
Proof.
  destruct (self_disposed (sc w)) eqn:Hd.
  - rewrite render_disposed by exact Hd. reflexivity.
  - destruct (render_live t w Hd) as (_ & _ & _ & _ & _ & _ & E & _).
    unfold getScrollLength. rewrite E. reflexivity.
Qed.

Lemma frame_single (t : num) (w : World) (i : positive) :
  rafQueue (host w) = [i] ->
  frame t w = render t (set_host (set_rafQueue [] (host w)) w).
Proof. intros H. unfold frame. rewrite H. reflexivity. Qed.

(** One frame of a scroller gliding at speed zero. *)
Lemma zero_glide_frame (t : num) (w : World) :
  idle_gliding w ->
  idle_gliding (frame t w)
  /\ length (written (host (frame t w))) = S (length (written (host w)))
  /\ getScrollLength (frame t w) = getScrollLength w
  /\ glob (frame t w) = glob w
  /\ lastFrameTime (sc (frame t w)) = Some t
  /\ (scrolling (sc w) = None ->
      is_finite (timeDelta t w) = true ->
      scrolling (sc (frame t w)) = None
      /\ currentPosition (sc (frame t w)) =
           reclamp (getScrollLength w) (currentPosition (sc w))).
Proof.
  intros (Hd & Hg & i & Hi & Hq).
  rewrite (frame_single t w i Hq).
  set (w1 := set_host (set_rafQueue [] (host w)) w).
  assert (Hd1 : self_disposed (sc w1) = false) by exact Hd.
  assert (Hg1 : gliding (sc w1) = Some (zero, zero)) by exact Hg.
  destruct (render_gliding_reschedules t w1 _ Hd1 Hg1) as (F1 & F2 & F3).
  destruct (render_live t w1 Hd1) as (L1 & L2 & L3 & _ & L5 & L6 & _ & L8).
  split; [|split; [|split; [|split; [|split]]]].
  - split; [exact L5|]. split; [rewrite L3; exact Hg1|].
    exists (rafNext (host w1)). split; [exact F1|]. rewrite F2. reflexivity.
  - rewrite L6. reflexivity.
  - rewrite getScrollLength_render. reflexivity.
  - rewrite L8. reflexivity.
  - exact F3.
  - intros Hs Hf.
    assert (Hs1 : scrolling (sc w1) = None) by exact Hs.
    assert (Ht : timeDelta t w1 = timeDelta t w) by reflexivity.
    rewrite L1, L2, Hs1, Hg1, Ht.
    unfold advance, glidingStep. cbn [fst snd].
    rewrite (mul_zero_finite _ (div_1000_finite _ Hf)).
    rewrite !add_zero_l, !add_zero_r.
    split; reflexivity.
Qed.

Lemma zero_glide_frames (ts : list num) (w : World) :
  idle_gliding w ->
  let w' := run w (map Frame ts) in
  idle_gliding w'
  /\ length (written (host w')) = (length ts + length (written (host w)))%nat
  /\ (scrolling (sc w) = None ->
      is_finite (minFrameTime (glob w)) = true ->
      fin_onum (lastFrameTime (sc w)) = true ->
      forallb is_finite ts = true ->
      scrolling (sc w') = None
      /\ currentPosition (sc w') =
           Nat.iter (length ts) (reclamp (getScrollLength w))
             (currentPosition (sc w))).
Proof.
  revert w. unfold run.
  induction ts as [|t ts IH]; intros w J; cbn [map fold_left length step].
  - cbv zeta. split; [exact J|]. split; [reflexivity|]. intros Hs _ _ _.
    split; [exact Hs | reflexivity].
  - destruct (zero_glide_frame t w J) as (J1 & W1 & Len & G & T & P).
    specialize (IH (frame t w) J1). cbv zeta in IH.
    destruct IH as (I1 & I2 & I3). cbv zeta.
    split; [exact I1|]. split; [rewrite I2, W1; lia|].
    intros Hs Hm Hl Hts. cbn [forallb] in Hts.
    apply andb_true_iff in Hts. destruct Hts as [Ht Hts].
    assert (Hdt : is_finite (timeDelta t w) = true).
    { unfold timeDelta. destruct (lastFrameTime (sc w)) as [l|].
      - apply sub_finite; [exact Ht | exact Hl].
      - exact Hm. }
    destruct (P Hs Hdt) as [P1 P2].
    destruct I3 as [I3 I4]; [exact P1 | rewrite G; exact Hm
                            | rewrite T; exact Ht | exact Hts |].
    split; [exact I3|].
    rewrite I4, Len, P2. rewrite Nat.iter_succ_r. reflexivity.
Qed.

(** C10: [glide] with both axes absent or zero leaves the gliding vector
    [[0, 0]] instead of clearing it; from then on every frame schedules the
    next one and commits a position (the cached one clamped again, when no
    scrolling motion is pending), for any number of frames, until [stop()]
    or [dispose()] clears the vector and the schedule. *)
Theorem zero_glide_keeps_rendering (w : World) (o : GlideOptions)
    (ts : list num) :
  self_disposed (sc w) = false ->
  scheduled_ok w ->
  absent_or_zero (go_left o) = true ->
  absent_or_zero (go_top o) = true ->
  let w' := run (glide o w) (map Frame ts) in
  gliding (sc (glide o w)) = Some (zero, zero)
  /\ gliding (sc w') = Some (zero, zero)
  /\ (exists i, frameId (sc w') = Some i /\ rafQueue (host w') = [i])
  /\ length (written (host w')) = (length ts + length (written (host w)))%nat
  /\ (scrolling (sc w) = None ->
      is_finite (minFrameTime (glob w)) = true ->
      fin_onum (lastFrameTime (sc w)) = true ->
      forallb is_finite ts = true ->
      currentPosition (sc w') =
        Nat.iter (length ts) (reclamp (getScrollLength w))
          (currentPosition (sc w)))
  /\ gliding (sc (stop w')) = None
  /\ rafQueue (host (stop w')) = []
  /\ gliding (sc (dispose w')) = None
  /\ rafQueue (host (dispose w')) = [].
Proof.
  intros Hd Hok Hl Ht. cbv zeta.
  destruct (glide_fields o w) as (G1 & G2 & _ & G4 & G5 & G6 & _).
  destruct (glide_host_fields o w) as (E1 & E2 & _ & _ & E5).
  rewrite (absent_or_zero_falsy _ Hl), (absent_or_zero_falsy _ Ht) in G1.
  assert (J : idle_gliding (glide o w)).
  { split; [rewrite G6; exact Hd|]. split; [exact G1|].
    unfold glide. red in Hok.
    destruct (frameId (sc w)) as [i|] eqn:Hf.
    - exists i. rewrite requestRender_keeps with (i := i) by exact Hf.
      cbn. split; [exact Hf | exact Hok].
    - match goal with |- context [requestRender ?W] =>
        destruct (@requestRender_schedules W) as [A B]; [exact Hf|] end.
      eexists. split; [exact A|]. rewrite B. cbn. rewrite Hok. reflexivity. }
  destruct (zero_glide_frames ts (glide o w) J) as (J' & W' & P).
  destruct J' as (D' & Gl' & i & Fi & Qi).
  split; [exact G1|]. split; [exact Gl'|].
  split; [exists i; split; assumption|].
  split; [rewrite W', E2; reflexivity|].
  split.
  - intros Hs Hm Hlt Hts.
    destruct P as [_ P]; [rewrite G2; exact Hs | rewrite E5; exact Hm
                         | rewrite G5; exact Hlt | exact Hts |].
    rewrite P, G4. unfold getScrollLength. rewrite E1. reflexivity.
  - destruct (stop_fields (run (glide o w) (map Frame ts)))
      as (_ & S2 & _).
    destruct (dispose_fields (run (glide o w) (map Frame ts)))
      as (_ & _ & D3 & _).
    split; [exact S2|].
    split; [unfold stop; rewrite Fi; cbn; rewrite Qi; cbn;
            rewrite Pos.eqb_refl; reflexivity|].
    split; [exact D3|].
    unfold dispose, stop. rewrite Fi. cbn. rewrite Qi. cbn.
    rewrite Pos.eqb_refl. reflexivity.
Qed.

(** C10 on the running example: [glide({})] and three frames. *)
Lemma zero_glide_keeps_rendering_witness :
  let w' := run (glide (mkGlideOptions None None) Demo.w0)
              (map Frame [zero; ofZ 17; ofZ 34]) in
  gliding (sc w') = Some (zero, zero)
  /\ (exists i, frameId (sc w') = Some i /\ rafQueue (host w') = [i])
  /\ length (written (host w')) = 3%nat
  /\ currentPosition (sc w') = mkPosition zero zero.
Proof.
  cbv zeta.
  destruct (@zero_glide_keeps_rendering Demo.w0 (mkGlideOptions None None)
              [zero; ofZ 17; ofZ 34] eq_refl eq_refl eq_refl eq_refl)
    as (_ & A & B & C & D & _).
  split; [exact A|]. split; [exact B|]. split; [exact C|].
  rewrite (D eq_refl eq_refl eq_refl eq_refl). vm_compute. reflexivity.
Defined.

End ZeroGlide.

(** ** One frame request at a time *)

Section Scheduling.

Lemma requestRender_scheduled_ok (w : World) :
  scheduled_ok w -> scheduled_ok (requestRender w).
Proof.
  unfold scheduled_ok. intros H.
  destruct (frameId (sc w)) as [i|] eqn:Hi.
  - rewrite (requestRender_keeps w i Hi), Hi. exact H.
  - destruct (requestRender_schedules w Hi) as [A B].
    rewrite A, B, H. reflexivity.
Qed.

(** A frame of a live scroller either leaves no handle and no new callback,
    or schedules one callback and keeps its handle. *)
Lemma render_schedule (t : num) (w : World) :
  self_disposed (sc w) = false ->
  (frameId (sc (render t w)) = None
   /\ rafQueue (host (render t w)) = rafQueue (host w))
  \/ (frameId (sc (render t w)) = Some (rafNext (host w))
      /\ rafQueue (host (render t w))
         = rafQueue (host w) ++ [rafNext (host w)]).
Proof.
  intros Hd. unfold render. rewrite Hd.
  destruct (advance _ _ _ _ _ _) as [[s' lb] tb].
  unfold reschedule.
  cbn [sc setPosition set_sc set_host gliding scrolling
         with_currentPosition with_scrolling].
  destruct (gliding (sc w)), s';
    try (right;
         match goal with |- context [requestRender ?W] =>
           destruct (@requestRender_schedules W eq_refl) as [A B] end;
         rewrite A, B; split; reflexivity).
  left. split; reflexivity.
Qed.

Lemma frame_scheduled_ok (t : num) (w : World) :
  self_disposed (sc w) = false ->
  scheduled_ok w -> scheduled_ok (frame t w).
Proof.
  intros Hd H. red in H.
  destruct (frameId (sc w)) as [i|] eqn:Hi.
  - rewrite (frame_single t w i H).
    destruct (render_schedule t (set_host (set_rafQueue [] (host w)) w) Hd)
      as [[A B]|[A B]]; red; rewrite A, B; reflexivity.
  - unfold frame. rewrite H. cbn [fold_left]. red. cbn. rewrite Hi.
    reflexivity.
Qed.

(** The single-flight invariant: on a live scroller every action keeps the
    handle in [frameId] and the host's schedule in step. *)
Lemma step_scheduled_ok (w : World) (a : action) :
  self_disposed (sc w) = false ->
  scheduled_ok w -> scheduled_ok (step w a).
Proof.
  intros Hd H. destruct a; cbn [step]; try exact H.
  - unfold scrollTo, scrollBy. apply requestRender_scheduled_ok. exact H.
  - unfold scrollBy. apply requestRender_scheduled_ok. exact H.
  - unfold glide. apply requestRender_scheduled_ok. exact H.
  - red in H. red. unfold stop.
    destruct (frameId (sc w)) as [i|]; cbn; rewrite H; cbn;
      rewrite ?Pos.eqb_refl; reflexivity.
  - red in H. red. unfold dispose, stop.
    destruct (frameId (sc w)) as [i|]; cbn; rewrite H; cbn;
      rewrite ?Pos.eqb_refl; reflexivity.
  - apply frame_scheduled_ok; assumption.
  - unfold wheel. destruct (wheelBound (host w)).
    + unfold handleWheel.
      destruct (now - lastGlobalWheel (glob w) <? WHEEL_THRESHOLD)%Z;
        cbn [fst]; unfold globalWheel.
      * destruct (match ignoreEvent (glob w) with
                  | Some i => Nat.eqb i (ev_id e)
                  | None => false end); exact H.
      * match goal with |- context [scrollBy ?O ?W] =>
          assert (S : scheduled_ok (scrollBy O W))
            by (unfold scrollBy; apply requestRender_scheduled_ok; exact H);
          destruct (match ignoreEvent (glob (scrollBy O W)) with
                    | Some i => Nat.eqb i (ev_id (mkWheelEvent (ev_id e)
                                   (deltaX e) (deltaY e) true))
                    | None => false end); exact S end.
    + cbn [fst]. unfold globalWheel.
      destruct (match ignoreEvent (glob w) with
                | Some i => Nat.eqb i (ev_id e)
                | None => false end); exact H.
  - unfold globalWheel.
    destruct (match ignoreEvent (glob w) with
              | Some i => Nat.eqb i (ev_id e)
              | None => false end); exact H.
  - unfold scrollEvent, handleScroll.
    destruct (scrollBound (host w)); [|exact H].
    destruct (no_frameId (sc w)); exact H.
Qed.

(** A scroller made on a host with nothing scheduled starts in step. *)
Lemma makeScroller_scheduled_ok (g : Globals) (h : Host) (o : Options) :
  rafQueue h = [] -> scheduled_ok (makeScroller g h o).
Proof. intros H. red. cbn. exact H. Qed.

End Scheduling.

(** ** Friction zero *)

Section ZeroFriction.

Local Open Scope num_scope.

(** With friction 0 every finite velocity gives a frame delta of 0, which is
    under the cutoff: the motion is cleared by the frame and moves nothing. *)
Lemma scrollingStep_zero_friction (dt : num) (pos : Position)
    (len : ScrollLength) (x y : Qc) :
  is_finite dt = true ->
  scrollingStep zero dt pos len (Fin x, Fin y) = (None, zero, zero).
Proof.
  intros Hdt. unfold scrollingStep, adjustedFriction.
  assert (E : zero * (dt / STANDARD_FRAME_TIME) = zero).
  { destruct dt as [| | |q]; try discriminate. cbn. unfold zero.
    f_equal. ring. }
  rewrite E.
  assert (A : clamp zero zero one = zero) by reflexivity.
  rewrite A.
  assert (X : forall q : Qc, Fin q * zero = zero).
  { intros q. cbn. unfold zero. f_equal. ring. }
  rewrite !X. unfold nextVelocity.
  assert (L : ltb (Num.abs zero) EPSILON = true) by reflexivity.
  rewrite L. cbn [orb]. reflexivity.
Qed.

(** C6 does not hold on the code: with the instance friction 0 in effect, a
    scroll by 100 pixels is cleared by its first frame, which moves nothing
    and requests no further frame. *)
Theorem zero_friction_completes_at_first_frame :
  let w := makeScroller Demo.g0 Demo.h0
             (mkOptions (Some zero) None None None) in
  let w1 := scrollBy (Demo.byLeft (ofZ 100)) w in
  let w2 := frame zero w1 in
  friction (sc w1) = zero
  /\ scrolling (sc w1) = Some (ofZ 100, zero)
  /\ scrolling (sc w2) = None
  /\ currentPosition (sc w2) = mkPosition zero zero
  /\ frameId (sc w2) = None
  /\ rafQueue (host w2) = [].
Proof.
  cbv zeta. repeat split; vm_compute; reflexivity.
Qed.

End ZeroFriction.

(** ** Finite numbers, and the range of the committed positions *)

Section Finite.

Local Open Scope num_scope.

Ltac fin_cases :=
  repeat match goal with
  | H : is_finite ?a = true |- _ =>
      is_var a; destruct a; [discriminate H | discriminate H
                            | discriminate H | clear H]
  end.

Lemma fin_add (a b : num) :
  is_finite a = true -> is_finite b = true -> is_finite (a + b) = true.
Proof. intros; fin_cases; reflexivity. Qed.

Lemma fin_mul (a b : num) :
  is_finite a = true -> is_finite b = true -> is_finite (a * b) = true.
Proof. intros; fin_cases; reflexivity. Qed.

Lemma fin_div_standard (a : num) :
  is_finite a = true -> is_finite (a / STANDARD_FRAME_TIME) = true.
Proof. intros; fin_cases; reflexivity. Qed.

Lemma fin_nullish (a : option num) (b : num) :
  fin_onum a = true -> is_finite b = true -> is_finite (nullish a b) = true.
Proof. destruct a; cbn; auto. Qed.

Lemma or_else_finite (a : num) : is_finite a = true -> or_else a zero = a.
Proof.
  intros H. destruct (or_else_zero a) as [E|[E _]]; [exact E|].
  subst a. discriminate H.
Qed.

Lemma fin_max (a b : num) :
  is_finite a = true -> is_finite b = true -> is_finite (Num.max a b) = true.
Proof.
  intros; fin_cases. unfold Num.max, cmp.
  match goal with |- context [Qccompare ?x ?y] => destruct (Qccompare x y) end;
    reflexivity.
Qed.

Lemma fin_clamp (v w : num) :
  is_finite w = true -> is_nan v = false ->
  is_finite (clamp zero v w) = true.
Proof.
  intros Hw Hv. unfold clamp. fin_cases.
  destruct v as [| | |x]; try discriminate.
  - apply fin_max; reflexivity.
  - reflexivity.
  - apply fin_max; [reflexivity|]. unfold Num.min, cmp.
    match goal with |- context [Qccompare ?x ?y] =>
      destruct (Qccompare x y) end; reflexivity.
Qed.

Lemma fin_not_nan (a : num) : is_finite a = true -> is_nan a = false.
Proof. destruct a; cbn; congruence. Qed.

Lemma fin_adjustedFriction (fr dt : num) :
  is_finite fr = true -> is_finite dt = true ->
  is_finite (adjustedFriction fr dt) = true.
Proof.
  intros Hf Hd. unfold adjustedFriction. apply fin_clamp; [reflexivity|].
  apply fin_not_nan, fin_mul; [exact Hf|]. apply fin_div_standard, Hd.
Qed.

Lemma fin_nextVelocity (v d p l : num) :
  is_finite v = true -> is_finite d = true ->
  is_finite (nextVelocity v d p l) = true.
Proof.
  intros Hv Hd. unfold nextVelocity.
  destruct (_ || _); [reflexivity|]. apply sub_finite; assumption.
Qed.

Lemma max_Fin_cases (x y : Qc) :
  (Num.max (Fin x) (Fin y) = Fin x /\ (y <= x)%Qc)
  \/ (Num.max (Fin x) (Fin y) = Fin y /\ (x < y)%Qc).
Proof.
  unfold Num.max, cmp. destruct (Qccompare x y) eqn:E.
  - left. split; [reflexivity|]. apply Qceq_alt in E. subst. apply Qcle_refl.
  - right. split; [reflexivity|]. apply Qclt_alt, E.
  - left. split; [reflexivity|]. apply Qclt_le_weak, Qcgt_alt, E.
Qed.

Lemma min_Fin_cases (x y : Qc) :
  (Num.min (Fin x) (Fin y) = Fin x /\ (x <= y)%Qc)
  \/ (Num.min (Fin x) (Fin y) = Fin y /\ (y < x)%Qc).
Proof.
  unfold Num.min, cmp. destruct (Qccompare x y) eqn:E.
  - left. split; [reflexivity|]. apply Qceq_alt in E. subst. apply Qcle_refl.
  - left. split; [reflexivity|]. apply Qclt_le_weak, Qclt_alt, E.
  - right. split; [reflexivity|]. apply Qcgt_alt, E.
Qed.

Lemma isWithin_Fin (x w : Qc) :
  isWithin zero (Fin x) (Fin w) = true <-> (0 <= x /\ x <= w)%Qc.
Proof.
  unfold isWithin, geb. rewrite andb_true_iff.
  unfold zero. rewrite !leb_Fin. reflexivity.
Qed.

(** The clamp of anything but [NaN] into a finite range that starts at 0 or
    above lies in the range. *)
Lemma clamp_in_range (v w : num) :
  is_finite w = true -> leb zero w = true -> is_nan v = false ->
  isWithin zero (clamp zero v w) w = true.
Proof.
  intros Hw H0 Hv. destruct w as [| | |w]; try discriminate. clear Hw.
  apply leb_Fin in H0.
  assert (M : forall m : Qc, (m <= w)%Qc ->
              isWithin zero (Num.max zero (Fin m)) (Fin w) = true).
  { intros m Hm. unfold zero.
    destruct (max_Fin_cases 0 m) as [[E L]|[E L]]; rewrite E;
      apply isWithin_Fin; split; auto using Qcle_refl, Qclt_le_weak. }
  unfold clamp. destruct v as [| | |x]; try discriminate.
  - apply (M w), Qcle_refl.
  - apply isWithin_Fin. split; [apply Qcle_refl | exact H0].
  - destruct (min_Fin_cases w x) as [[E L]|[E L]]; rewrite E; apply M;
      auto using Qcle_refl, Qclt_le_weak.
Qed.

Lemma max_zero_nonneg (x : Qc) :
  (0 <= x)%Qc -> Num.max zero (Fin x) = Fin x.
Proof.
  intros H. unfold zero.
  destruct (max_Fin_cases 0 x) as [[E L]|[E L]]; rewrite E; [|reflexivity].
  f_equal. apply Qcle_antisym; assumption.
Qed.

(** A value within the range is its own clamp. *)
Lemma clamp_within (v w : num) :
  isWithin zero v w = true -> clamp zero v w = v.
Proof.
  intros H. unfold isWithin, geb in H. apply andb_true_iff in H.
  destruct H as [H1 H2]. unfold clamp.
  destruct v as [| | |x]; try discriminate;
    destruct w as [| | |w]; try discriminate; try reflexivity.
  - apply leb_Fin in H1. apply max_zero_nonneg, H1.
  - apply leb_Fin in H1, H2.
    destruct (min_Fin_cases w x) as [[E L]|[E L]]; rewrite E.
    + assert (w = x) by (apply Qcle_antisym; assumption). subst w.
      apply max_zero_nonneg, H1.
    + apply max_zero_nonneg, H1.
Qed.

Lemma fin_world_spec (w : World) :
  fin_world w = true <->
  fin_element (element (host w)) = true
  /\ is_finite (minFrameTime (glob w)) = true
  /\ is_finite (self_friction (sc w)) = true
  /\ is_finite (self_wheelFriction (sc w)) = true
  /\ is_finite (friction (sc w)) = true
  /\ fin_position (currentPosition (sc w)) = true
  /\ fin_velocity (scrolling (sc w)) = true
  /\ fin_velocity (gliding (sc w)) = true
  /\ fin_onum (lastFrameTime (sc w)) = true.
Proof. unfold fin_world. rewrite !andb_true_iff. tauto. Qed.

Lemma fin_timeDelta (t : num) (w : World) :
  is_finite t = true ->
  is_finite (minFrameTime (glob w)) = true ->
  fin_onum (lastFrameTime (sc w)) = true ->
  is_finite (timeDelta t w) = true.
Proof.
  intros Ht Hm Hl. unfold timeDelta.
  destruct (lastFrameTime (sc w)); [apply sub_finite|]; assumption.
Qed.

Lemma fin_advance (dt : num) (pos : Position) (len : ScrollLength)
    (fr : num) (s g : option Velocity) :
  is_finite dt = true -> is_finite fr = true ->
  fin_velocity s = true -> fin_velocity g = true ->
  let r := advance dt pos len fr s g in
  fin_velocity (fst (fst r)) = true
  /\ is_finite (snd (fst r)) = true
  /\ is_finite (snd r) = true.
Proof.
  intros Hdt Hfr Hs Hg. cbv zeta. unfold advance.
  assert (A := fin_adjustedFriction fr dt Hfr Hdt).
  assert (G : forall a b : num, is_finite a = true -> is_finite b = true ->
              is_finite (fst (match g with
                              | Some v => let (gx, gy) := glidingStep dt v in
                                          (a + gx, b + gy)
                              | None => (a, b)
                              end)) = true
              /\ is_finite (snd (match g with
                                 | Some v => let (gx, gy) := glidingStep dt v in
                                             (a + gx, b + gy)
                                 | None => (a, b)
                                 end)) = true).
  { intros a b Ha Hb. destruct g as [[gx gy]|]; cbn [fin_velocity] in Hg.
    - apply andb_true_iff in Hg. destruct Hg as [G1 G2].
      unfold glidingStep. cbn [fst snd].
      split; apply fin_add; auto; apply fin_mul; auto;
        apply div_1000_finite; exact Hdt.
    - cbn. auto. }
  destruct s as [[x y]|]; cbn [fin_velocity] in Hs.
  - apply andb_true_iff in Hs. destruct Hs as [S1 S2].
    unfold scrollingStep.
    set (nx := nextVelocity x _ _ _). set (ny := nextVelocity y _ _ _).
    assert (Nx : is_finite nx = true)
      by (apply fin_nextVelocity; auto; apply fin_mul; auto).
    assert (Ny : is_finite ny = true)
      by (apply fin_nextVelocity; auto; apply fin_mul; auto).
    destruct (G (zero + x * adjustedFriction fr dt)
                (zero + y * adjustedFriction fr dt)) as [G1 G2];
      try (apply fin_add; [reflexivity | apply fin_mul; auto]).
    destruct (match g with
              | Some v => let (gx, gy) := glidingStep dt v in _
              | None => _ end) as [lb tb].
    cbn [fst snd] in *. split; [|auto].
    destruct (eqb nx zero && eqb ny zero); cbn; [reflexivity|].
    rewrite Nx, Ny. reflexivity.
  - destruct (G zero zero eq_refl eq_refl) as [G1 G2].
    destruct (match g with
              | Some v => let (gx, gy) := glidingStep dt v in _
              | None => _ end) as [lb tb].
    cbn [fst snd] in *. auto.
Qed.

(** The clamp into a range that starts at 0 or above lies in the range,
    whatever the end of the range, unless the value is [NaN]; then it is
    [NaN] too. *)
Lemma clamp_range (v w : num) :
  leb zero w = true -> is_nan v = false ->
  isWithin zero (clamp zero v w) w = true.
Proof.
  intros H0 Hv. destruct w as [| | |w]; try discriminate H0.
  - destruct v as [| | |x]; try discriminate Hv; try reflexivity.
    unfold clamp. change (Num.min PInf (Fin x)) with (Fin x). unfold zero.
    destruct (max_Fin_cases 0 x) as [[E L]|[E L]]; rewrite E;
      unfold isWithin, geb; rewrite andb_true_iff; split;
      try reflexivity; apply leb_Fin; auto using Qcle_refl, Qclt_le_weak.
  - apply clamp_in_range; auto.
Qed.

Lemma clamp_range_or_nan (v w : num) :
  leb zero w = true ->
  is_nan (clamp zero v w) || isWithin zero (clamp zero v w) w = true.
Proof.
  intros H0. destruct (is_nan v) eqn:Hv.
  - destruct v; try discriminate Hv.
    destruct w; try discriminate H0; reflexivity.
  - rewrite (clamp_range v w H0 Hv). apply orb_true_r.
Qed.

(** A frame writes a position that is in range or [NaN] on each axis, and
    leaves the scrollable length as it is. *)
Lemma render_committed (len : ScrollLength) (t : num) (w : World) :
  leb zero (width len) = true -> leb zero (height len) = true ->
  committed_ok len w -> committed_ok len (render t w).
Proof.
  intros Lw Lh (Hlen & Hall).
  destruct (self_disposed (sc w)) eqn:Hd.
  { rewrite render_disposed by exact Hd. split; assumption. }
  destruct (render_live t w Hd) as (_ & _ & _ & _ & _ & R6 & _).
  split.
  - rewrite getScrollLength_render. exact Hlen.
  - rewrite R6. constructor; [|exact Hall].
    rewrite <- Hlen in Lw, Lh |- *. unfold in_range_or_nan. cbn [left top].
    apply andb_true_iff. split; apply clamp_range_or_nan; assumption.
Qed.

Lemma frame_committed (len : ScrollLength) (t : num) (w : World) :
  leb zero (width len) = true -> leb zero (height len) = true ->
  committed_ok len w -> committed_ok len (frame t w).
Proof.
  intros Lw Lh H. unfold frame.
  assert (H0 : committed_ok len (set_host (set_rafQueue [] (host w)) w))
    by exact H.
  revert H0. generalize (set_host (set_rafQueue [] (host w)) w).
  induction (rafQueue (host w)) as [|i q IH]; intros v Hv; cbn [fold_left].
  - exact Hv.
  - apply IH. apply render_committed; assumption.
Qed.

Lemma globalWheel_committed (len : ScrollLength) (now : Z) (e : WheelEvent)
    (w : World) :
  committed_ok len w -> committed_ok len (globalWheel now e w).
Proof.
  intros H. unfold globalWheel.
  destruct (match ignoreEvent (glob w) with
            | Some i => Nat.eqb i (ev_id e)
            | None => false end); exact H.
Qed.

(** Whatever an action brings, the positions written so far stay in range
    or [NaN]: only a frame writes, and it writes a clamp. *)
Lemma step_committed (len : ScrollLength) (w : World) (a : action) :
  leb zero (width len) = true -> leb zero (height len) = true ->
  committed_ok len w -> committed_ok len (step w a).
Proof.
  intros Lw Lh H. pose proof H as (Hlen & Hall).
  unfold committed_ok.
  destruct a; cbn [step] in *.
  - destruct (scrollTo_as_scrollBy o w) as (o' & E & _). rewrite E.
    destruct (scrollBy_host_fields o' w) as (X & Y & _).
    unfold getScrollLength in *. rewrite X, Y. auto.
  - destruct (scrollBy_host_fields o w) as (X & Y & _).
    unfold getScrollLength in *. rewrite X, Y. auto.
  - destruct (glide_host_fields o w) as (X & Y & _).
    unfold getScrollLength in *. rewrite X, Y. auto.
  - destruct (stop_fields w) as (_ & _ & _ & _ & _ & _ & X & Y).
    unfold getScrollLength in *. rewrite X, Y. auto.
  - destruct (dispose_fields w) as (_ & _ & _ & _ & X & Y & _).
    unfold getScrollLength in *. rewrite X, Y. auto.
  - exact H.
  - exact H.
  - exact H.
  - apply frame_committed; assumption.
  - unfold wheel.
    destruct (wheelBound (host w)); [|apply globalWheel_committed, H].
    destruct (handleWheel_surface now e w) as (X & Y & _).
    destruct (handleWheel now e w) as [w1 e1]. cbn [fst] in *.
    apply globalWheel_committed.
    split; [unfold getScrollLength in *; rewrite X; exact Hlen|].
    rewrite Y. exact Hall.
  - apply globalWheel_committed, H.
  - unfold scrollEvent, handleScroll.
    destruct (scrollBound (host w)); [|exact H].
    destruct (no_frameId (sc w)); exact H.
Qed.

Lemma run_committed (len : ScrollLength) (l : list action) (w : World) :
  leb zero (width len) = true -> leb zero (height len) = true ->
  committed_ok len w -> committed_ok len (run w l).
Proof.
  intros Lw Lh. revert w. unfold run.
  induction l as [|a l IH]; intros w H; cbn [fold_left]; [exact H|].
  apply IH. apply step_committed; assumption.
Qed.

(** A frame that starts from finite numbers commits a position in range.
    (Of the rounded arithmetic this holds as well: there a delta may
    overflow to an infinity, never to [NaN], and the clamp brings an
    infinity into the range.) *)
Lemma render_in_range (t : num) (w : World) :
  lengths_ok w = true ->
  self_disposed (sc w) = false ->
  fin_position (currentPosition (sc w)) = true ->
  fin_velocity (scrolling (sc w)) = true ->
  fin_velocity (gliding (sc w)) = true ->
  is_finite (friction (sc w)) = true ->
  is_finite (timeDelta t w) = true ->
  in_range (currentPosition (sc (render t w))) (getScrollLength w) = true.
Proof.
  intros Hlen Hd Hp Hs Hg Hf Hdt.
  unfold lengths_ok in Hlen. apply andb_true_iff in Hlen.
  destruct Hlen as [Lw Lh].
  unfold fin_position in Hp. apply andb_true_iff in Hp.
  destruct Hp as [C1 C2].
  destruct (render_live t w Hd) as (_ & R2 & _).
  destruct (fin_advance (timeDelta t w) (currentPosition (sc w))
              (getScrollLength w) (friction (sc w)) (scrolling (sc w))
              (gliding (sc w)) Hdt Hf Hs Hg) as (_ & A2 & A3).
  rewrite R2. unfold in_range. cbn [left top].
  apply andb_true_iff.
  split; apply clamp_range; auto; apply fin_not_nan, fin_add; assumption.
Qed.

(** C2, as the code has it: on an element whose scrollable lengths are not
    negative, for every sequence of public calls, frames and events,
    whatever numbers they bring, every position committed by a frame is on
    each axis within [[0, length]] or [NaN]: all the positions written to
    the element are, and so is the cached position after one more frame of
    the live scroller.  That frame commits a position within the range when
    it starts from a finite position, finite scrolling and gliding
    velocities, a finite friction and a finite elapsed time. *)
Theorem committed_positions_in_range (w : World) (l : list action) (t : num) :
  lengths_ok w = true ->
  Forall (fun p => in_range_or_nan p (getScrollLength w) = true)
    (written (host w)) ->
  Forall (fun p => in_range_or_nan p (getScrollLength w) = true)
    (written (host (run w l)))
  /\ (self_disposed (sc (run w l)) = false ->
      in_range_or_nan (currentPosition (sc (render t (run w l))))
        (getScrollLength w) = true
      /\ (fin_position (currentPosition (sc (run w l))) = true ->
          fin_velocity (scrolling (sc (run w l))) = true ->
          fin_velocity (gliding (sc (run w l))) = true ->
          is_finite (friction (sc (run w l))) = true ->
          is_finite (timeDelta t (run w l)) = true ->
          in_range (currentPosition (sc (render t (run w l))))
            (getScrollLength w) = true)).
Proof.
  intros Hlen Hall. pose proof Hlen as Hlen'. unfold lengths_ok in Hlen.
  apply andb_true_iff in Hlen. destruct Hlen as [Lw Lh].
  assert (H : committed_ok (getScrollLength w) w) by (split; auto).
  pose proof (run_committed (getScrollLength w) l w Lw Lh H) as H1.
  split; [apply H1|].
  intros Hd. split.
  - pose proof (render_committed (getScrollLength w) t (run w l) Lw Lh H1)
      as (_ & H2).
    destruct (render_live t (run w l) Hd) as (_ & R2 & _ & _ & _ & R6 & _).
    rewrite R6 in H2. rewrite R2. inversion H2; assumption.
  - intros Hp Hs Hg Hf Hdt. destruct H1 as (E & _). rewrite <- E.
    apply render_in_range; auto.
    unfold lengths_ok. rewrite E. exact Hlen'.
Qed.

(** C2 on the running example: a jump to the end and three frames; a
    fourth frame commits a position in the range. *)
Lemma committed_positions_in_range_witness :
  let l := [ScrollTo (Demo.toLeft PInf); Frame zero; Frame (ofZ 17);
            Frame (ofZ 34)] in
  Forall (fun p => in_range_or_nan p (getScrollLength Demo.w0) = true)
    (written (host (run Demo.w0 l)))
  /\ in_range (currentPosition (sc (render (ofZ 50) (run Demo.w0 l))))
       (getScrollLength Demo.w0) = true.
Proof.
  cbv zeta.
  destruct (@committed_positions_in_range Demo.w0
              [ScrollTo (Demo.toLeft PInf); Frame zero; Frame (ofZ 17);
               Frame (ofZ 34)] (ofZ 50) eq_refl (Forall_nil _)) as [A B].
  split; [exact A|].
  destruct B as [_ B]; [reflexivity|].
  apply B; vm_compute; reflexivity.
Defined.

(** C2 fails as stated, twice.  A scroll by [Infinity] followed by a scroll
    to [Infinity] leaves the velocity [Infinity - Infinity], and the next
    frame commits [NaN], which is in no range.  And a scroll to [Infinity]
    alone settles under [width = 1000], not at it: the velocity left at the
    0.2 pixel cutoff is dropped. *)
Lemma committed_position_counterexample :
  let w := run Demo.w0 [ScrollBy (Demo.byLeft PInf);
                        ScrollTo (Demo.toLeft PInf); Frame zero] in
  let w' := frames 40 zero (scrollTo (Demo.toLeft PInf) Demo.w0) in
  written (host w) = [mkPosition NaN zero]
  /\ currentPosition (sc w) = mkPosition NaN zero
  /\ in_range (currentPosition (sc w)) (getScrollLength w) = false
  /\ width (getScrollLength w') = ofZ 1000
  /\ scrolling (sc w') = None
  /\ rafQueue (host w') = []
  /\ ltb (left (currentPosition (sc w'))) (ofZ 1000) = true.
Proof.
  cbv zeta. repeat split; vm_compute; reflexivity.
Qed.

End Finite.

(** ** Where a scroll is heading *)

Section Destination.

Local Open Scope num_scope.

Lemma finite_inv (a : num) : is_finite a = true -> exists q, a = Fin q.
Proof. destruct a as [| | |q]; try discriminate. intros _. exists q. reflexivity. Qed.

Lemma getScrollLength_element (w w' : World) :
  element (host w') = element (host w) ->
  getScrollLength w' = getScrollLength w.
Proof. intros H. unfold getScrollLength. rewrite H. reflexivity. Qed.

(** The two outcomes of an axis in a frame. *)
Lemma nextVelocity_cases (v d p l : num) :
  nextVelocity v d p l = zero
  \/ (nextVelocity v d p l = v - d
      /\ isWithin zero (p + d) l = true
      /\ ltb (Num.abs d) EPSILON = false).
Proof.
  unfold nextVelocity.
  destruct (ltb (Num.abs d) EPSILON) eqn:A; [left; reflexivity|].
  destruct (isWithin zero (p + d) l) eqn:B; [|left; reflexivity].
  right. auto.
Qed.

(** Whole numbers add and subtract as whole numbers. *)
Lemma ofZ_add (a b : Z) : ofZ a + ofZ b = ofZ (a + b).
Proof.
  unfold ofZ. cbn [add]. f_equal. apply Qc_is_canon.
  rewrite this_plus, !this_Q2Qc, inject_Z_plus. reflexivity.
Qed.

Lemma ofZ_sub (a b : Z) : ofZ a - ofZ b = ofZ (a - b).
Proof.
  unfold ofZ, sub. cbn [neg add]. f_equal. apply Qc_is_canon.
  rewrite this_plus, this_opp, !this_Q2Qc.
  unfold Z.sub. rewrite inject_Z_plus, inject_Z_opp. reflexivity.
Qed.

Lemma ofZ_whole (b z : Z) : (Z.abs z <= b)%Z -> is_whole b (ofZ z) = true.
Proof.
  intros H. unfold is_whole, ofZ, Q2Qc, inject_Z. cbn [this].
  rewrite Qred_identity by apply Z.gcd_1_r. cbn [Qden Qnum].
  apply andb_true_iff. split; [reflexivity | apply Z.leb_le, H].
Qed.

Lemma whole_inv (b : Z) (x : num) :
  is_whole b x = true -> exists z, x = ofZ z /\ (Z.abs z <= b)%Z.
Proof.
  destruct x as [| | |q]; try discriminate. cbn [is_whole]. intros H.
  apply andb_true_iff in H. destruct H as [D N].
  apply Pos.eqb_eq in D. apply Z.leb_le in N.
  exists (Qnum (this q)). split; [|exact N].
  unfold ofZ. f_equal. apply Qc_is_canon. rewrite this_Q2Qc.
  destruct q as [[n d] c]. cbn [this Qnum Qden] in *. subst d. reflexivity.
Qed.

Lemma whole_finite (b : Z) (x : num) : is_whole b x = true -> is_finite x = true.
Proof. destruct x; try discriminate. reflexivity. Qed.

Lemma max_velocity : MAX_VELOCITY = (2 * MAX_POSITION)%Z.
Proof. reflexivity. Qed.

(** One axis of [scrollTo] on whole numbers: the pending velocity [v]
    becomes the way from the position [p] to the clamped target [c]. *)
Lemma whole_axis (p v c : num) :
  is_whole MAX_POSITION p = true -> is_whole MAX_VELOCITY v = true ->
  is_whole MAX_POSITION c = true ->
  v + (c - (p + v)) = c - p
  /\ p + (c - p) = c
  /\ is_whole MAX_VELOCITY (c - p) = true.
Proof.
  intros Hp Hv Hc.
  destruct (whole_inv _ _ Hp) as (a & -> & Ba).
  destruct (whole_inv _ _ Hv) as (b & -> & Bb).
  destruct (whole_inv _ _ Hc) as (d & -> & Bd).
  repeat first [rewrite ofZ_add | rewrite ofZ_sub].
  split; [f_equal; lia|]. split; [f_equal; lia|].
  apply ofZ_whole. rewrite max_velocity. lia.
Qed.

(** What [scrollTo] leaves: the pending velocity plus the delta of each
    axis, and the friction of [scrollBy]. *)
Lemma scrollTo_fields (o : ScrollOptions) (w : World) :
  let pos := currentPosition (sc w) in
  let len := getScrollLength w in
  scrolling (sc (scrollTo o w))
  = Some (pendingX (sc w)
          + targetDelta (so_left o) (width len) (left pos) (pendingX (sc w)),
          pendingY (sc w)
          + targetDelta (so_top o) (height len) (top pos) (pendingY (sc w)))
  /\ currentPosition (sc (scrollTo o w)) = pos
  /\ getScrollLength (scrollTo o w) = len
  /\ friction (sc (scrollTo o w))
     = opt_or_else (so_friction o) (self_friction (sc w))
  /\ written (host (scrollTo o w)) = written (host w).
Proof.
  cbv zeta. unfold scrollTo.
  match goal with |- context [scrollBy ?O w] =>
    destruct (scrollBy_fields O w) as (F1 & F2 & _ & F4 & _);
    destruct (scrollBy_host_fields O w) as (G1 & G2 & _);
    pose proof (getScrollLength_element w (scrollBy O w) G1) as GL
  end.
  rewrite F1, F2, F4, GL, G2. cbn [so_left so_top so_friction nullish].
  unfold targetDelta.
  destruct (so_left o), (so_top o); repeat split; reflexivity.
Qed.

(** [scrollTo] on whole numbers: each axis it is given heads from the
    position to the clamped target, the other keeps its velocity, and the
    numbers stay whole. *)
Lemma scrollTo_whole (o : ScrollOptions) (w : World) :
  whole_motion w = true -> whole_target o w = true ->
  let pos := currentPosition (sc w) in
  let len := getScrollLength w in
  scrolling (sc (scrollTo o w))
  = Some (match so_left o with
          | Some l => clamp zero l (width len) - left pos
          | None => pendingX (sc w)
          end,
          match so_top o with
          | Some t => clamp zero t (height len) - top pos
          | None => pendingY (sc w)
          end)
  /\ pendingX (sc (scrollTo o w))
     = match so_left o with
       | Some l => clamp zero l (width len) - left pos
       | None => pendingX (sc w)
       end
  /\ pendingY (sc (scrollTo o w))
     = match so_top o with
       | Some t => clamp zero t (height len) - top pos
       | None => pendingY (sc w)
       end
  /\ whole_motion (scrollTo o w) = true.
Proof.
  intros Hm Ht. cbv zeta.
  unfold whole_motion in Hm. rewrite !andb_true_iff in Hm.
  destruct Hm as [[[M1 M2] M3] M4].
  unfold whole_target in Ht. rewrite andb_true_iff in Ht.
  destruct Ht as [T1 T2].
  destruct (scrollTo_fields o w) as (S & P & _ & _).
  cbv zeta in S, P. unfold targetDelta in S.
  assert (X : pendingX (sc w)
              + match so_left o with
                | Some c => clamp zero c (width (getScrollLength w))
                            - (left (currentPosition (sc w)) + pendingX (sc w))
                | None => zero
                end
              = match so_left o with
                | Some l => clamp zero l (width (getScrollLength w))
                            - left (currentPosition (sc w))
                | None => pendingX (sc w)
                end
              /\ is_whole MAX_VELOCITY
                   match so_left o with
                   | Some l => clamp zero l (width (getScrollLength w))
                               - left (currentPosition (sc w))
                   | None => pendingX (sc w)
                   end = true).
  { destruct (so_left o) as [l|].
    - destruct (whole_axis _ _ _ M1 M3 T1) as (A & _ & B). auto.
    - split; [apply add_zero_r | exact M3]. }
  assert (Y : pendingY (sc w)
              + match so_top o with
                | Some c => clamp zero c (height (getScrollLength w))
                            - (top (currentPosition (sc w)) + pendingY (sc w))
                | None => zero
                end
              = match so_top o with
                | Some l => clamp zero l (height (getScrollLength w))
                            - top (currentPosition (sc w))
                | None => pendingY (sc w)
                end
              /\ is_whole MAX_VELOCITY
                   match so_top o with
                   | Some l => clamp zero l (height (getScrollLength w))
                               - top (currentPosition (sc w))
                   | None => pendingY (sc w)
                   end = true).
  { destruct (so_top o) as [l|].
    - destruct (whole_axis _ _ _ M2 M4 T2) as (A & _ & B). auto.
    - split; [apply add_zero_r | exact M4]. }
  destruct X as [X WX]. destruct Y as [Y WY].
  rewrite X, Y in S.
  assert (PX : pendingX (sc (scrollTo o w))
               = match so_left o with
                 | Some l => clamp zero l (width (getScrollLength w))
                             - left (currentPosition (sc w))
                 | None => pendingX (sc w)
                 end).
  { unfold pendingX at 1. rewrite S. cbn [option_map fst opt_or_else].
    apply or_else_finite, (whole_finite _ _ WX). }
  assert (PY : pendingY (sc (scrollTo o w))
               = match so_top o with
                 | Some l => clamp zero l (height (getScrollLength w))
                             - top (currentPosition (sc w))
                 | None => pendingY (sc w)
                 end).
  { unfold pendingY at 1. rewrite S. cbn [option_map snd opt_or_else].
    apply or_else_finite, (whole_finite _ _ WY). }
  split; [exact S|]. split; [exact PX|]. split; [exact PY|].
  unfold whole_motion. rewrite P, PX, PY, M1, M2, WX, WY. reflexivity.
Qed.

(** C1, as the code has it: [scrollTo] adds to the pending velocity of each
    axis it is given the delta [clamp(0, target, length) - (position +
    pending)], and nothing on the other axis; from rest the velocity is then
    [clamp(0, target, length) - position].  On whole numbers of pixels the
    cached position plus the new velocity is the clamped target, so
    [scrollTo({left: l1})] at once followed by [scrollTo({left: l2})] heads
    for [clamp(0, l2, width)], with the very velocity of a single
    [scrollTo({left: l2})], not for a blend of the two. *)
Theorem scrollTo_projected_destination (w : World) (o : ScrollOptions)
    (l1 l2 : num) :
  let pos := currentPosition (sc w) in
  let len := getScrollLength w in
  (exists vx vy,
     scrolling (sc (scrollTo o w)) = Some (vx, vy)
     /\ vx = pendingX (sc w)
             + targetDelta (so_left o) (width len) (left pos) (pendingX (sc w))
     /\ vy = pendingY (sc w)
             + targetDelta (so_top o) (height len) (top pos) (pendingY (sc w))
     /\ currentPosition (sc (scrollTo o w)) = pos
     /\ written (host (scrollTo o w)) = written (host w)
     /\ (so_left o = None -> vx = pendingX (sc w))
     /\ (so_top o = None -> vy = pendingY (sc w))
     /\ (forall l, so_left o = Some l -> pendingX (sc w) = zero ->
         vx = clamp zero l (width len) - left pos)
     /\ (forall t, so_top o = Some t -> pendingY (sc w) = zero ->
         vy = clamp zero t (height len) - top pos)
     /\ (whole_motion w = true -> whole_target o w = true ->
         (forall l, so_left o = Some l ->
          left pos + vx = clamp zero l (width len))
         /\ (forall t, so_top o = Some t ->
             top pos + vy = clamp zero t (height len))
         /\ whole_motion (scrollTo o w) = true))
  /\ (whole_motion w = true ->
      is_whole MAX_POSITION (clamp zero l1 (width len)) = true ->
      is_whole MAX_POSITION (clamp zero l2 (width len)) = true ->
      let o1 := mkScrollOptions (Some l1) None None in
      let o2 := mkScrollOptions (Some l2) None None in
      exists vx vy,
        scrolling (sc (scrollTo o2 (scrollTo o1 w))) = Some (vx, vy)
        /\ currentPosition (sc (scrollTo o2 (scrollTo o1 w))) = pos
        /\ left pos + vx = clamp zero l2 (width len)
        /\ scrolling (sc (scrollTo o2 w)) = Some (vx, vy)).
Proof.
  cbv zeta. split.
  - destruct (scrollTo_fields o w) as (S & P & _ & _ & Wr). cbv zeta in S, P.
    do 2 eexists. split; [exact S|]. split; [reflexivity|].
    split; [reflexivity|]. split; [exact P|]. split; [exact Wr|].
    split; [intros E; rewrite E; apply add_zero_r|].
    split; [intros E; rewrite E; apply add_zero_r|].
    split; [intros l E Z; rewrite E, Z; cbn [targetDelta];
            rewrite add_zero_l, add_zero_r; reflexivity|].
    split; [intros l E Z; rewrite E, Z; cbn [targetDelta];
            rewrite add_zero_l, add_zero_r; reflexivity|].
    intros Hm Ht.
    destruct (scrollTo_whole o w Hm Ht) as (_ & _ & _ & M).
    unfold whole_motion in Hm. rewrite !andb_true_iff in Hm.
    destruct Hm as [[[M1 M2] M3] M4].
    unfold whole_target in Ht. rewrite andb_true_iff in Ht.
    destruct Ht as [T1 T2].
    split; [|split; [|exact M]].
    + intros l E. rewrite E in T1 |- *. cbn [targetDelta].
      destruct (whole_axis _ _ _ M1 M3 T1) as (A & B & _).
      rewrite A. exact B.
    + intros t E. rewrite E in T2 |- *. cbn [targetDelta].
      destruct (whole_axis _ _ _ M2 M4 T2) as (A & B & _).
      rewrite A. exact B.
  - intros Hm H1 H2.
    set (o1 := mkScrollOptions (Some l1) None None).
    set (o2 := mkScrollOptions (Some l2) None None).
    assert (T1 : whole_target o1 w = true)
      by (unfold whole_target; cbn [o1 so_left so_top]; rewrite H1; reflexivity).
    assert (T2 : whole_target o2 w = true)
      by (unfold whole_target; cbn [o2 so_left so_top]; rewrite H2; reflexivity).
    destruct (scrollTo_whole o1 w Hm T1) as (_ & _ & PY1 & M1). cbv zeta in PY1.
    destruct (scrollTo_fields o1 w) as (_ & P1 & L1 & _). cbv zeta in P1, L1.
    assert (T2' : whole_target o2 (scrollTo o1 w) = true)
      by (unfold whole_target; rewrite L1; exact T2).
    destruct (scrollTo_whole o2 (scrollTo o1 w) M1 T2') as (S2 & _).
    destruct (scrollTo_whole o2 w Hm T2) as (S & _).
    cbv zeta in S2, S. rewrite P1, L1, PY1 in S2.
    cbn [o1 o2 so_left so_top] in S2, S.
    do 2 eexists. split; [exact S2|].
    split; [destruct (scrollTo_fields o2 (scrollTo o1 w)) as (_ & P2 & _);
            cbv zeta in P2; rewrite P2; exact P1|].
    split; [|exact S].
    unfold whole_motion in Hm. rewrite !andb_true_iff in Hm.
    destruct Hm as [[[A1 _] A3] _].
    destruct (whole_axis _ _ _ A1 A3 H2) as (_ & A & _). exact A.
Qed.

(** C1 on the running example: a scroll to 300 heads for 300, and at once
    followed by a scroll to 500 it heads for 500 as a single scroll to 500
    does; a scroll down to 700 heads for 700 and leaves the horizontal axis
    alone. *)
Lemma scrollTo_projected_destination_witness :
  let w1 := scrollTo (Demo.toLeft (ofZ 300)) Demo.w0 in
  let w2 := scrollTo (Demo.toLeft (ofZ 500)) w1 in
  let down := mkScrollOptions None (Some (ofZ 700)) None in
  (exists vx vy,
     scrolling (sc w1) = Some (vx, vy)
     /\ vx = clamp zero (ofZ 300) (width (getScrollLength Demo.w0))
             - left (currentPosition (sc Demo.w0))
     /\ left (currentPosition (sc Demo.w0)) + vx = ofZ 300
     /\ vy = zero)
  /\ (exists vx vy,
        scrolling (sc w2) = Some (vx, vy)
        /\ currentPosition (sc w2) = currentPosition (sc Demo.w0)
        /\ left (currentPosition (sc Demo.w0)) + vx = ofZ 500
        /\ scrolling (sc (scrollTo (Demo.toLeft (ofZ 500)) Demo.w0))
           = Some (vx, vy))
  /\ (exists vx vy,
        scrolling (sc (scrollTo down Demo.w0)) = Some (vx, vy)
        /\ vx = zero
        /\ vy = clamp zero (ofZ 700) (height (getScrollLength Demo.w0))
                - top (currentPosition (sc Demo.w0))
        /\ top (currentPosition (sc Demo.w0)) + vy = ofZ 700
        /\ whole_motion (scrollTo down Demo.w0) = true).
Proof.
  cbv zeta.
  destruct (@scrollTo_projected_destination Demo.w0
              (Demo.toLeft (ofZ 300)) (ofZ 300) (ofZ 500)) as (H1 & H2).
  destruct (@scrollTo_projected_destination Demo.w0
              (mkScrollOptions None (Some (ofZ 700)) None)
              (ofZ 300) (ofZ 500)) as (H3 & _).
  cbv zeta in H1, H2, H3.
  assert (Wm : whole_motion Demo.w0 = true) by (vm_compute; reflexivity).
  assert (Wt : whole_target (Demo.toLeft (ofZ 300)) Demo.w0 = true)
    by (vm_compute; reflexivity).
  assert (Wd : whole_target (mkScrollOptions None (Some (ofZ 700)) None)
                 Demo.w0 = true)
    by (vm_compute; reflexivity).
  split; [|split].
  - destruct H1 as (vx & vy & A & _ & _ & _ & _ & _ & Y & R & _ & W).
    exists vx, vy. split; [exact A|].
    split; [apply R; reflexivity|].
    destruct (W Wm Wt) as (C & _).
    split; [rewrite (C _ eq_refl); vm_compute; reflexivity|].
    rewrite (Y eq_refl). reflexivity.
  - destruct H2 as (vx & vy & A & B & C & D); try (vm_compute; reflexivity).
    exists vx, vy. split; [exact A|]. split; [exact B|].
    split; [rewrite C; vm_compute; reflexivity | exact D].
  - destruct H3 as (vx & vy & A & _ & _ & _ & _ & X & _ & _ & R & W).
    exists vx, vy. split; [exact A|].
    split; [rewrite (X eq_refl); reflexivity|].
    split; [apply R; reflexivity|].
    destruct (W Wm Wd) as (_ & C & M).
    split; [rewrite (C _ eq_refl); vm_compute; reflexivity | exact M].
Defined.

(** C1 fails as stated: after a scroll to 300 at once followed by a scroll
    to 500, with the default friction and frames one standard frame time
    apart, the motion is over after 29 frames and the position is under 500
    ([clamp(0, 500, 1000) = 500]): the velocity left when the frame delta
    falls under 0.2 pixels is dropped. *)
Lemma scrollTo_settles_short_counterexample :
  let w2 := scrollTo (Demo.toLeft (ofZ 500))
              (scrollTo (Demo.toLeft (ofZ 300)) Demo.w0) in
  let w' := frames 29 zero w2 in
  clamp zero (ofZ 500) (width (getScrollLength w2)) = ofZ 500
  /\ friction (sc w2) = ofQ (2 # 10)
  /\ scrolling (sc w') = None
  /\ rafQueue (host w') = []
  /\ left (currentPosition (sc w')) <> ofZ 500
  /\ ltb (left (currentPosition (sc w'))) (ofZ 500) = true.
Proof.
  cbv zeta. repeat split; try (vm_compute; reflexivity).
  vm_compute. intros H. discriminate H.
Qed.

End Destination.

(** ** The decay of a scrolling motion *)

Section Decay.

Local Open Scope Q_scope.

Lemma shrink_nonneg (b r : Q) (k : nat) :
  0 <= b -> 0 <= r -> 0 <= shrink b r k.
Proof.
  intros Hb Hr. induction k; cbn [shrink]; [exact Hb|].
  apply Qmult_le_0_compat; assumption.
Qed.

Lemma shrink_shift (b r : Q) (k : nat) :
  shrink (b * r) r k == shrink b r k * r.
Proof.
  induction k; cbn [shrink]; [reflexivity|]. rewrite IHk. reflexivity.
Qed.

(** Bernoulli's inequality, read as a bound on the decayed velocity. *)
Lemma shrink_bernoulli (b f : Q) (k : nat) :
  0 <= b -> 0 < f -> f < 1 ->
  shrink b (1 - f) k * (1 + inject_Z (Z.of_nat k) * f) <= b.
Proof.
  intros Hb H0 H1. induction k.
  - cbn [shrink Z.of_nat]. change (inject_Z 0) with 0.
    assert (E : b * (1 + 0 * f) == b) by ring. rewrite E. lra.
  - cbn [shrink]. rewrite Nat2Z.inj_succ. unfold Z.succ.
    rewrite inject_Z_plus.
    assert (Hr : 0 <= 1 - f) by lra.
    pose proof (shrink_nonneg b (1 - f) k Hb Hr) as Hs.
    set (s := shrink b (1 - f) k) in *.
    set (kk := inject_Z (Z.of_nat k)) in *.
    assert (Hk : 0 <= kk)
      by (unfold kk; change 0 with (inject_Z 0); rewrite <- Zle_Qle; lia).
    change (inject_Z 1) with 1.
    assert (P : 0 <= s * (f * f) * (kk + 1)).
    { apply Qmult_le_0_compat; [apply Qmult_le_0_compat|]; try nra; lra. }
    assert (E : s * (1 - f) * (1 + (kk + 1) * f)
                == s * (1 + kk * f) - s * (f * f) * (kk + 1)) by ring.
    rewrite E. lra.
Qed.

(** After more than [5 b] frames the frame delta of a velocity that started
    within [b] is under the cutoff, whatever the friction in (0, 1). *)
Lemma shrink_small (b f : Q) (k : nat) :
  0 <= b -> 0 < f -> f < 1 ->
  inject_Z 5 * b <= inject_Z (Z.of_nat k) ->
  shrink b (1 - f) k * f < 2 # 10.
Proof.
  intros Hb H0 H1 Hk.
  pose proof (shrink_bernoulli b f k Hb H0 H1) as B.
  assert (Hr : 0 <= 1 - f) by lra.
  pose proof (shrink_nonneg b (1 - f) k Hb Hr) as Hs.
  set (s := shrink b (1 - f) k) in *.
  set (kk := inject_Z (Z.of_nat k)) in *.
  change (inject_Z 5) with 5 in Hk.
  assert (Hkk : 0 <= kk) by lra.
  assert (P : 0 <= s * kk * f).
  { apply Qmult_le_0_compat; [apply Qmult_le_0_compat|]; lra. }
  assert (E : s * (1 + kk * f) == s + s * kk * f) by ring.
  rewrite E in B.
  destruct (Qlt_le_dec 0 s) as [Sp|Sn].
  - destruct (Qlt_le_dec 0 kk) as [Kp|Kn].
    + assert (H2 : s * f * kk < b).
      { assert (E2 : s * f * kk == s * kk * f) by ring. rewrite E2. lra. }
      assert (H3 : 5 * (s * f) * kk < kk) by nra.
      apply Qnot_le_lt. intros C.
      assert (kk <= 5 * (s * f) * kk) by nra. lra.
    + assert (Eb : b == 0) by lra. rewrite Eb in B. lra.
  - assert (Es : s == 0) by lra. rewrite Es. lra.
Qed.

Lemma axisBound_spec (q : Qc) (k : nat) :
  (axisBound (Fin q) <= k)%nat ->
  inject_Z 5 * Qabs (this q) <= inject_Z (Z.of_nat k).
Proof.
  intros H. cbn [axisBound] in H.
  apply Qle_trans with (inject_Z (Qceiling (inject_Z 5 * Qabs (this q)))).
  - apply Qle_ceiling.
  - rewrite <- Zle_Qle. lia.
Qed.

Lemma this_EPSILON : EPSILON = Fin (Q2Qc (2 # 10)).
Proof. reflexivity. Qed.

Lemma abs_under_cutoff (q : Qc) :
  Qabs (this q) < 2 # 10 -> ltb (Num.abs (Fin q)) EPSILON = true.
Proof.
  intros H. rewrite this_EPSILON. unfold Num.abs, sgn.
  destruct (q ?= 0)%Qc; apply ltb_Fin; unfold Qclt;
    rewrite this_Q2Qc, ?this_opp.
  - apply Qle_lt_trans with (Qabs (this q)); [apply Qle_Qabs | exact H].
  - apply Qle_lt_trans with (Qabs (- this q)); [apply Qle_Qabs|].
    rewrite Qabs_opp. exact H.
  - apply Qle_lt_trans with (Qabs (this q)); [apply Qle_Qabs | exact H].
Qed.

(** One frame of one axis: a finite velocity within [b], under an adjusted
    friction [a] in [[0, 1]], ends up within [b (1 - a)], and is zero when
    [b a] is under the cutoff. *)
Lemma axis_decay (x a : Qc) (p l : num) (b : Q) :
  Qabs (this x) <= b -> 0 <= this a -> this a <= 1 ->
  exists x' : Qc,
    nextVelocity (Fin x) (Fin x * Fin a)%num p l = Fin x'
    /\ Qabs (this x') <= b * (1 - this a)
    /\ (b * this a < 2 # 10 -> x' = 0%Qc).
Proof.
  intros Hx Ha0 Ha1.
  assert (Hb : 0 <= b)
    by (apply Qle_trans with (Qabs (this x)); [apply Qabs_nonneg | exact Hx]).
  assert (Z0 : Qabs (this 0%Qc) <= b * (1 - this a)).
  { change (this 0%Qc) with 0. cbn [Qabs]. apply Qmult_le_0_compat; lra. }
  apply Qabs_Qle_condition in Hx. destruct Hx as [Hx1 Hx2].
  destruct (Qlt_le_dec (b * this a) (2 # 10)) as [S|L].
  - exists 0%Qc. split; [|split; [exact Z0 | reflexivity]].
    unfold nextVelocity. cbn [mul]. rewrite abs_under_cutoff; [reflexivity|].
    rewrite this_mult. apply Qle_lt_trans with (b * this a); [|exact S].
    apply Qabs_Qle_condition. split; nra.
  - destruct (nextVelocity_cases (Fin x) (Fin x * Fin a)%num p l)
      as [E|[E _]]; rewrite E.
    + exists 0%Qc. split; [reflexivity|]. split; [exact Z0|]. intros S. lra.
    + exists (x - x * a)%Qc. split; [reflexivity|]. split; [|intros S; lra].
      rewrite this_minus, this_mult.
      apply Qabs_Qle_condition. split; nra.
Qed.

(** A frame that leaves a scrolling motion schedules the next frame. *)
Lemma render_scrolling_reschedules (t : num) (w : World) (v : Velocity) :
  self_disposed (sc w) = false ->
  scrolling (sc (render t w)) = Some v ->
  frameId (sc (render t w)) = Some (rafNext (host w))
  /\ rafQueue (host (render t w)) = rafQueue (host w) ++ [rafNext (host w)]
  /\ lastFrameTime (sc (render t w)) = Some t.
Proof.
  intros Hd. unfold render. rewrite Hd.
  destruct (advance _ _ _ _ _ _) as [[s' lb] tb].
  match goal with |- context [reschedule t ?W] =>
    destruct (reschedule_sc_fields t W) as (A & _); set (W0 := W) in * end.
  rewrite A. cbn [W0 sc setPosition set_sc set_host scrolling
    with_currentPosition with_scrolling]. intros Hs. subst s'.
  unfold reschedule.
  assert (E : scrolling (sc W0) = Some v) by reflexivity. rewrite E.
  destruct (gliding (sc W0));
    match goal with |- context [requestRender ?W] =>
      destruct (@requestRender_schedules W eq_refl) as [F1 F2];
      destruct (requestRender_sc_fields W) as (_ & _ & _ & _ & C & _) end;
    rewrite F1, F2, C; cbn; repeat split.
Qed.

Lemma frames_keep_none (n : nat) (t : num) (w : World) :
  scrolling (sc w) = None -> scrolling (sc (frames n t w)) = None.
Proof.
  revert t w. induction n as [|n IH]; intros t w H; cbn [frames];
    [exact H|].
  apply IH. apply frame_keeps, H.
Qed.

Lemma standard_frame_time_finite :
  exists s : Qc, STANDARD_FRAME_TIME = Fin s.
Proof. apply finite_inv. reflexivity. Qed.

Lemma adjustedFriction_standard (f : Qc) :
  (0 < f)%Qc -> (f < 1)%Qc ->
  adjustedFriction (Fin f) STANDARD_FRAME_TIME = Fin f.
Proof.
  intros H0 H1. unfold adjustedFriction.
  assert (E : (STANDARD_FRAME_TIME / STANDARD_FRAME_TIME)%num = one).
  { unfold one. cbn. f_equal. apply Qc_is_canon. reflexivity. }
  rewrite E. unfold one. cbn [mul].
  assert (E1 : (f * 1)%Qc = f) by ring. rewrite E1.
  apply clamp_within. apply isWithin_Fin.
  split; apply Qclt_le_weak; assumption.
Qed.

Lemma next_timeDelta (t : num) (w : World) :
  is_finite t = true ->
  lastFrameTime (sc w) = Some t ->
  timeDelta (t + STANDARD_FRAME_TIME)%num w = STANDARD_FRAME_TIME.
Proof.
  intros Ht Hl. unfold timeDelta. rewrite Hl.
  destruct standard_frame_time_finite as [s Es]. rewrite Es.
  destruct (finite_inv _ Ht) as [q Eq]. subst t.
  cbn. f_equal. ring.
Qed.

(** One frame of a pending scrolling motion under the adjusted friction
    [a]: both bounds lose the fraction [a], and the motion is over when both
    frame deltas are under the cutoff. *)
Lemma decay_step (f a : Qc) (bl bt : Q) (t : num) (w : World)
    (vx vy : Qc) (i : positive) :
  self_disposed (sc w) = false ->
  friction (sc w) = Fin f ->
  scrolling (sc w) = Some (Fin vx, Fin vy) ->
  Qabs (this vx) <= bl -> Qabs (this vy) <= bt ->
  rafQueue (host w) = [i] ->
  is_finite t = true ->
  adjustedFriction (Fin f) (timeDelta t w) = Fin a ->
  0 <= this a -> this a <= 1 ->
  decaying f (bl * (1 - this a)) (bt * (1 - this a))
    (t + STANDARD_FRAME_TIME)%num (frame t w)
  /\ (bl * this a < 2 # 10 -> bt * this a < 2 # 10 ->
      scrolling (sc (frame t w)) = None).
Proof.
  intros Hd Hf Hs Hx Hy Hq Ht Ha A0 A1.
  rewrite (frame_single t w i Hq).
  set (w1 := set_host (set_rafQueue [] (host w)) w).
  assert (Hd1 : self_disposed (sc w1) = false) by exact Hd.
  destruct (render_live t w1 Hd1) as (R1 & _ & _ & R4 & R5 & _).
  assert (E : scrolling (sc (render t w1))
              = fst (fst (scrollingStep (Fin f) (timeDelta t w)
                            (currentPosition (sc w)) (getScrollLength w)
                            (Fin vx, Fin vy)))).
  { rewrite R1. change (scrolling (sc w1)) with (scrolling (sc w)).
    change (friction (sc w1)) with (friction (sc w)).
    rewrite Hs, Hf. apply advance_scrolling. }
  unfold scrollingStep in E. rewrite Ha in E. cbn [fst] in E.
  destruct (axis_decay vx a (left (currentPosition (sc w)))
              (width (getScrollLength w)) bl Hx A0 A1) as (x' & Ex & Bx & Zx).
  destruct (axis_decay vy a (top (currentPosition (sc w)))
              (height (getScrollLength w)) bt Hy A0 A1) as (y' & Ey & By & Zy).
  rewrite Ex, Ey in E.
  destruct (eqb (Fin x') zero && eqb (Fin y') zero) eqn:Hz.
  - split; [|intros _ _; exact E].
    split; [exact R5|]. split; [rewrite R4; exact Hf|]. left. exact E.
  - split.
    + split; [exact R5|]. split; [rewrite R4; exact Hf|]. right.
      destruct (render_scrolling_reschedules t w1 _ Hd1 E) as (F1 & F2 & F3).
      exists x', y', (rafNext (host w1)).
      split; [exact E|]. split; [exact Bx|]. split; [exact By|].
      split; [exact F1|]. split; [rewrite F2; reflexivity|].
      split; [|apply next_timeDelta; assumption].
      destruct standard_frame_time_finite as [s Es]. rewrite Es.
      apply fin_add; [exact Ht | reflexivity].
    + intros Sx Sy. rewrite (Zx Sx), (Zy Sy) in Hz. discriminate Hz.
Qed.

Lemma decaying_step (f : Qc) (bl bt : Q) (t : num) (w : World) :
  (0 < f)%Qc -> (f < 1)%Qc ->
  decaying f bl bt t w ->
  decaying f (bl * (1 - this f)) (bt * (1 - this f))
    (t + STANDARD_FRAME_TIME)%num (frame t w)
  /\ (bl * this f < 2 # 10 -> bt * this f < 2 # 10 ->
      scrolling (sc (frame t w)) = None).
Proof.
  intros H0 H1 (Hd & Hf & [Hs|(vx & vy & i & Hs & Hx & Hy & _ & Hq & Ht & Hdt)]).
  - destruct (frame_keeps t w) as (A & B & C).
    split; [|intros _ _; apply C, Hs].
    split; [rewrite A; exact Hd|]. split; [rewrite B; exact Hf|].
    left. apply C, Hs.
  - apply (decay_step f f bl bt t w vx vy i); auto.
    + rewrite Hdt. apply adjustedFriction_standard; assumption.
    + apply Qlt_le_weak. exact H0.
    + apply Qlt_le_weak. exact H1.
Qed.

(** A decaying motion is over once both bounds have shrunk under the
    cutoff. *)
Lemma decay_to_none (f : Qc) :
  (0 < f)%Qc -> (f < 1)%Qc ->
  forall (k n : nat) (bl bt : Q) (t : num) (w : World),
    decaying f bl bt t w ->
    shrink bl (1 - this f) k * this f < 2 # 10 ->
    shrink bt (1 - this f) k * this f < 2 # 10 ->
    (k < n)%nat ->
    scrolling (sc (frames n t w)) = None.
Proof.
  intros H0 H1. induction k as [|k IH]; intros n bl bt t w D Sl St Hn.
  - destruct n as [|n]; [lia|]. cbn [frames shrink] in *.
    apply frames_keep_none.
    destruct (decaying_step f bl bt t w H0 H1 D) as [_ Z]. apply Z; assumption.
  - destruct n as [|n]; [lia|]. cbn [frames].
    destruct (decaying_step f bl bt t w H0 H1 D) as [D' _].
    apply (IH n _ _ _ _ D'); [| |lia].
    + rewrite shrink_shift. exact Sl.
    + rewrite shrink_shift. exact St.
Qed.

Lemma decaying_weaken (f : Qc) (bl bt bl' bt' : Q) (t : num) (w : World) :
  bl <= bl' -> bt <= bt' ->
  decaying f bl bt t w -> decaying f bl' bt' t w.
Proof.
  intros Hl Ht (Hd & Hf & [Hs|(vx & vy & i & Hs & Hx & Hy & R)]).
  - split; [exact Hd|]. split; [exact Hf|]. left. exact Hs.
  - split; [exact Hd|]. split; [exact Hf|]. right.
    exists vx, vy, i. split; [exact Hs|].
    split; [apply Qle_trans with bl; assumption|].
    split; [apply Qle_trans with bt; assumption|]. exact R.
Qed.

(** C5: on a live scroller with nothing scrolling, a [scrollBy] of finite
    deltas whose friction in effect lies in (0, 1) starts a motion that is
    cleared after at most [frameBound] frames, the first at any finite
    time and each next one a standard frame time later, and stays cleared:
    two frames more than five times the larger delta, whatever the
    friction. *)
Theorem scrollBy_motion_ends (w : World) (o : ScrollOptions) (f : Qc)
    (t0 : num) (n : nat) :
  fin_world w = true ->
  self_disposed (sc w) = false ->
  scheduled_ok w ->
  scrolling (sc w) = None ->
  fin_onum (so_left o) = true -> fin_onum (so_top o) = true ->
  opt_or_else (so_friction o) (self_friction (sc w)) = Fin f ->
  (0 < f)%Qc -> (f < 1)%Qc ->
  is_finite t0 = true ->
  (frameBound o <= n)%nat ->
  scrolling (sc (scrollBy o w))
    = Some (nullish (so_left o) zero, nullish (so_top o) zero)
  /\ scrolling (sc (frames n t0 (scrollBy o w))) = None.
Proof.
  intros Hw Hd Hok Hs Hl Ht Hf H0 H1 Ht0 Hn.
  destruct (scrollBy_fields o w) as (F1 & F2 & _ & _ & F5 & F6 & _).
  destruct (scrollBy_host_fields o w) as (_ & _ & _ & _ & G5).
  assert (P : pendingX (sc w) = zero /\ pendingY (sc w) = zero)
    by (unfold pendingX, pendingY; rewrite Hs; split; reflexivity).
  destruct P as [Px Py]. rewrite Px, Py, !add_zero_l in F2.
  split; [exact F2|].
  assert (Hx : is_finite (nullish (so_left o) zero) = true)
    by (apply fin_nullish; [exact Hl | reflexivity]).
  assert (Hy : is_finite (nullish (so_top o) zero) = true)
    by (apply fin_nullish; [exact Ht | reflexivity]).
  destruct (finite_inv _ Hx) as [x Ex]. destruct (finite_inv _ Hy) as [y Ey].
  unfold frameBound in Hn. rewrite Ex, Ey in *.
  set (k := Nat.max (axisBound (Fin x)) (axisBound (Fin y))) in *.
  destruct n as [|n]; [lia|]. cbn [frames].
  (* the frame is scheduled *)
  assert (Hq : exists i, rafQueue (host (scrollBy o w)) = [i]).
  { unfold scrollBy. red in Hok.
    destruct (frameId (sc w)) as [i|] eqn:Hi.
    - exists i. rewrite requestRender_keeps with (i := i) by exact Hi.
      exact Hok.
    - match goal with |- context [requestRender ?W] =>
        destruct (@requestRender_schedules W) as [A B]; [exact Hi|] end.
      eexists. rewrite B. cbn. rewrite Hok. reflexivity. }
  destruct Hq as [i Hq].
  (* the adjusted friction of the first frame *)
  pose proof Hw as Hw'. apply fin_world_spec in Hw'.
  destruct Hw' as (_ & W2 & _ & _ & _ & _ & _ & _ & W9).
  assert (Hdt : is_finite (timeDelta t0 (scrollBy o w)) = true).
  { apply fin_timeDelta; [exact Ht0 | rewrite G5; exact W2
                         | rewrite F5; exact W9]. }
  assert (Haf : is_finite (adjustedFriction (Fin f)
                             (timeDelta t0 (scrollBy o w))) = true)
    by (apply fin_adjustedFriction; [reflexivity | exact Hdt]).
  destruct (finite_inv _ Haf) as [a Ea].
  assert (Ra : isWithin zero (Fin a) one = true).
  { rewrite <- Ea. unfold adjustedFriction. apply clamp_in_range;
      try reflexivity.
    apply fin_not_nan, fin_mul; [reflexivity|]. apply fin_div_standard, Hdt. }
  apply isWithin_Fin in Ra. destruct Ra as [A0 A1].
  destruct (decay_step f a (Qabs (this x)) (Qabs (this y)) t0 (scrollBy o w)
              x y i) as [D _]; auto using Qle_refl.
  { rewrite F6. exact Hd. }
  { rewrite F1. exact Hf. }
  assert (Bx : 0 <= Qabs (this x)) by apply Qabs_nonneg.
  assert (By : 0 <= Qabs (this y)) by apply Qabs_nonneg.
  unfold Qcle in A0, A1. change (this 0%Qc) with 0 in A0.
  change (this 1%Qc) with 1 in A1.
  apply (decaying_weaken f _ _ (Qabs (this x)) (Qabs (this y))) in D;
    [|nra|nra].
  apply (decay_to_none f H0 H1 k n _ _ _ _ D); [| |lia].
  - apply shrink_small; auto.
    apply axisBound_spec. unfold k. lia.
  - apply shrink_small; auto.
    apply axisBound_spec. unfold k. lia.
Qed.

(** C5 on the running example: a scroll by 5 pixels with friction 1/2 is
    over within [frameBound = 27] frames. *)
Lemma scrollBy_motion_ends_witness :
  scrolling (sc (frames 27 zero
                   (scrollBy (mkScrollOptions (Some (ofZ 5)) None
                                (Some (ofQ (1 # 2)))) Demo.w0))) = None.
Proof.
  destruct (@scrollBy_motion_ends Demo.w0
              (mkScrollOptions (Some (ofZ 5)) None (Some (ofQ (1 # 2))))
              (Q2Qc (1 # 2)) zero 27%nat
              eq_refl eq_refl eq_refl eq_refl eq_refl eq_refl eq_refl
              eq_refl eq_refl eq_refl) as [_ H].
  - vm_compute. lia.
  - exact H.
Defined.

End Decay.

(** ** The order of [num] *)

Section NumOrder.

Lemma leb_not_nan (a b : num) :
  leb a b = true -> is_nan a = false /\ is_nan b = false.
Proof. destruct a, b; cbn; intros H; try discriminate H; auto. Qed.

Lemma ltb_not_nan (a b : num) :
  ltb a b = true -> is_nan a = false /\ is_nan b = false.
Proof. destruct a, b; cbn; intros H; try discriminate H; auto. Qed.

Lemma leb_refl (a : num) : is_nan a = false -> leb a a = true.
Proof.
  destruct a as [| | |q]; cbn; intros H; try discriminate H; try reflexivity.
  apply leb_Fin, Qcle_refl.
Qed.

Lemma leb_trans (a b c : num) :
  leb a b = true -> leb b c = true -> leb a c = true.
Proof.
  destruct a as [| | |x], b as [| | |y], c as [| | |z]; cbn;
    intros H1 H2; try discriminate H1; try discriminate H2;
    try reflexivity.
  apply leb_Fin in H1, H2. apply leb_Fin.
  apply Qcle_trans with y; assumption.
Qed.

Lemma ltb_leb (a b : num) : ltb a b = true -> leb a b = true.
Proof.
  unfold ltb, leb. destruct (cmp a b) as [[| |]|]; intros H;
    try discriminate H; reflexivity.
Qed.

(** The order is total away from [NaN]. *)
Lemma ltb_false_leb (a b : num) :
  is_nan a = false -> is_nan b = false ->
  ltb a b = false -> leb b a = true.
Proof.
  destruct a as [| | |x], b as [| | |y]; cbn; intros Ha Hb H;
    try discriminate Ha; try discriminate Hb; try discriminate H;
    try reflexivity.
  apply leb_Fin. apply Qcnot_lt_le. intros L.
  apply ltb_Fin in L. unfold ltb in *. cbn in *. congruence.
Qed.

End NumOrder.

(** ** The frame clock *)

Section FrameClockFacts.

Import FrameClock.

Lemma sample_app (ts ts' : list num) (c : FrameClock.t) :
  sample (ts ++ ts') c = sample ts' (sample ts c).
Proof. unfold sample. apply fold_left_app. Qed.

Lemma sample_cons (time : num) (ts : list num) (c : FrameClock.t) :
  sample (time :: ts) c = sample ts (tick time c).
Proof. reflexivity. Qed.

Lemma tick_scheduled (time : num) (c : FrameClock.t) :
  scheduled c = true -> tick time c = frameTimeLoop time c.
Proof. intros H. unfold tick. rewrite H. reflexivity. Qed.

Lemma sample_unscheduled (ts : list num) (c : FrameClock.t) :
  scheduled c = false -> sample ts c = c.
Proof.
  intros H. induction ts as [|time ts IH]; [reflexivity|].
  rewrite sample_cons. unfold tick. rewrite H. exact IH.
Qed.

(** One frame never raises the measure, and keeps it a number. *)
Lemma tick_minFrameTime (time : num) (c : FrameClock.t) :
  is_nan (FrameClock.minFrameTime c) = false ->
  is_nan (FrameClock.minFrameTime (tick time c)) = false
  /\ leb (FrameClock.minFrameTime (tick time c)) (FrameClock.minFrameTime c)
     = true.
Proof.
  intros H. unfold tick. destruct (scheduled c).
  - cbn. destruct (ltb _ _) eqn:L.
    + split; [apply (ltb_not_nan _ _ L) | apply ltb_leb, L].
    + split; [exact H | apply leb_refl, H].
  - split; [exact H | apply leb_refl, H].
Qed.

Lemma sample_minFrameTime (ts : list num) (c : FrameClock.t) :
  is_nan (FrameClock.minFrameTime c) = false ->
  is_nan (FrameClock.minFrameTime (sample ts c)) = false
  /\ leb (FrameClock.minFrameTime (sample ts c)) (FrameClock.minFrameTime c)
     = true.
Proof.
  revert c. induction ts as [|time ts IH]; intros c H.
  - split; [exact H | apply leb_refl, H].
  - destruct (tick_minFrameTime time c H) as [N L].
    destruct (IH (tick time c) N) as [N' L'].
    rewrite sample_cons.
    split; [exact N'|]. apply leb_trans with (1 := L'), L.
Qed.

(** X1: whatever the frames bring, the measured [minFrameTime] never goes
    above [STANDARD_FRAME_TIME], and more frames never raise it. *)
Theorem frameClock_never_above_standard (ts ts' : list num) :
  leb (FrameClock.minFrameTime (sample ts init)) STANDARD_FRAME_TIME = true
  /\ leb (FrameClock.minFrameTime (sample (ts ++ ts') init))
         (FrameClock.minFrameTime (sample ts init)) = true.
Proof.
  destruct (sample_minFrameTime ts init eq_refl) as [N L].
  split; [exact L|].
  rewrite sample_app. apply sample_minFrameTime, N.
Qed.

Lemma sample_count (ts : list num) (c : FrameClock.t) :
  scheduled c = true -> (0 <= FrameClock.frames c)%Z ->
  ((Z.of_nat (length ts) <= FrameClock.frames c)%Z ->
   scheduled (sample ts c) = true
   /\ FrameClock.frames (sample ts c)
      = (FrameClock.frames c - Z.of_nat (length ts))%Z)
  /\ ((FrameClock.frames c < Z.of_nat (length ts))%Z ->
      scheduled (sample ts c) = false).
Proof.
  revert c. induction ts as [|time ts IH]; intros c Hs Hf.
  - cbn. split; [intros _; split; [exact Hs | lia] | lia].
  - rewrite sample_cons, (tick_scheduled time c Hs). cbn [length].
    destruct (Z.ltb_spec 0 (FrameClock.frames c)) as [P|P].
    + destruct (IH (frameTimeLoop time c)) as [A B].
      { cbn. apply Z.ltb_lt, P. }
      { cbn. lia. }
      cbn [FrameClock.frames frameTimeLoop] in A, B.
      split; intros H.
      * destruct A as [A1 A2]; [lia|]. split; [exact A1 | lia].
      * apply B. lia.
    + assert (U : scheduled (frameTimeLoop time c) = false).
      { cbn. apply Z.ltb_ge. lia. }
      rewrite (sample_unscheduled ts _ U).
      split; intros H; [lia | exact U].
Qed.

(** X2: the clock samples 101 frames and then stops: its callback is
    scheduled as long as at most 100 frames have come, is no longer
    scheduled from the 101st on, and the frames after it change nothing. *)
Theorem frameClock_stops (ts : list num) :
  ((length ts <= 100)%nat -> scheduled (sample ts init) = true)
  /\ ((101 <= length ts)%nat ->
      scheduled (sample ts init) = false
      /\ sample ts init = sample (firstn 101 ts) init).
Proof.
  split; intros H.
  - destruct (sample_count ts init eq_refl) as [A _]; [cbn; lia|].
    apply A. cbn. lia.
  - destruct (sample_count ts init eq_refl) as [_ B]; [cbn; lia|].
    split; [apply B; cbn; lia|].
    rewrite <- (firstn_skipn 101 ts) at 1. rewrite sample_app.
    apply sample_unscheduled.
    destruct (sample_count (firstn 101 ts) init eq_refl) as [_ B'];
      [cbn; lia|].
    apply B'. rewrite length_firstn.
    change (FrameClock.frames init) with 100%Z. lia.
Qed.

(** X2 on three frames and on 150 frames. *)
Lemma frameClock_stops_witness :
  scheduled (sample [zero; ofZ 16; ofZ 33] init) = true
  /\ scheduled (sample (repeat zero 150) init) = false.
Proof.
  destruct (frameClock_stops [zero; ofZ 16; ofZ 33]) as [A _].
  destruct (frameClock_stops (repeat zero 150)) as [_ B].
  split; [apply A; cbn; lia|].
  apply B. rewrite repeat_length. lia.
Defined.

Lemma sample_under_gaps (ts : list num) (c : FrameClock.t) :
  scheduled c = true ->
  is_nan (FrameClock.minFrameTime c) = false ->
  (Z.of_nat (length ts) <= FrameClock.frames c + 1)%Z ->
  forall g, In g (gaps (FrameClock.lastFrameTime c) ts) ->
            is_nan g = false ->
            leb (FrameClock.minFrameTime (sample ts c)) g = true.
Proof.
  revert c. induction ts as [|time ts IH]; intros c Hs Hn Hl g Hg Hgn.
  - destruct Hg.
  - cbn [gaps In] in Hg. rewrite sample_cons.
    destruct (tick_minFrameTime time c Hn) as [N1 L1].
    destruct (sample_minFrameTime ts (tick time c) N1) as [_ L2].
    destruct Hg as [Hg|Hg].
    + subst g. apply leb_trans with (1 := L2).
      rewrite (tick_scheduled time c Hs). cbn.
      destruct (ltb _ _) eqn:L; [apply leb_refl, Hgn|].
      apply ltb_false_leb; assumption.
    + destruct ts as [|time' ts']; [destruct Hg|].
      cbn [length] in Hl.
      assert (P : (0 < FrameClock.frames c)%Z) by lia.
      rewrite (tick_scheduled time c Hs) in *.
      apply IH; auto.
      * cbn. apply Z.ltb_lt, P.
      * cbn [FrameClock.frames frameTimeLoop length]. lia.
Qed.

(** X3: over the frames it samples (at most 101), the measured
    [minFrameTime] ends up at or under the time between any frame and the
    next, the first one counted from -100. *)
Theorem frameClock_under_every_gap (ts : list num) (g : num) :
  (length ts <= 101)%nat ->
  In g (gaps (ofZ (-100)) ts) ->
  is_nan g = false ->
  leb (FrameClock.minFrameTime (sample ts init)) g = true.
Proof.
  intros Hl Hg Hn.
  apply (sample_under_gaps ts init eq_refl eq_refl); auto.
  cbn. lia.
Qed.

(** X3 when two frames carry the same timestamp, as a coarse clock gives
    them: the measure is 0 or less. *)
Lemma frameClock_under_every_gap_witness :
  leb (FrameClock.minFrameTime (sample [zero; ofZ 100; ofZ 100] init)) zero
  = true.
Proof.
  apply (frameClock_under_every_gap [zero; ofZ 100; ofZ 100] zero).
  - cbn. lia.
  - cbn. right. right. left. apply f_equal. apply Qc_is_canon. reflexivity.
  - reflexivity.
Defined.

End FrameClockFacts.

(** ** Scheduling, stopping and disposing *)

Section Lifecycle.

Local Open Scope num_scope.

Lemma frame_idle (t : num) (w : World) :
  rafQueue (host w) = [] -> frame t w = w.
Proof.
  intros H. unfold frame. rewrite H. cbn [fold_left].
  destruct w as [g h s]. destruct h. cbn in *. subst. reflexivity.
Qed.

Lemma requestRender_single_flight (w : World) :
  single_flight w -> single_flight (requestRender w).
Proof.
  intros [H|(i & Hi & H)].
  - destruct (frameId (sc w)) as [i|] eqn:Hi.
    + rewrite (requestRender_keeps w i Hi). left. exact H.
    + destruct (requestRender_schedules w Hi) as [A B].
      right. exists (rafNext (host w)). rewrite A, B, H. auto.
  - rewrite (requestRender_keeps w i Hi). right. exists i. auto.
Qed.

Lemma stop_queue (w : World) :
  single_flight w -> rafQueue (host (stop w)) = [].
Proof.
  intros [H|(i & Hi & H)]; unfold stop.
  - destruct (frameId (sc w)); cbn; rewrite H; reflexivity.
  - rewrite Hi. cbn. rewrite H. cbn. rewrite Pos.eqb_refl. reflexivity.
Qed.

Lemma dispose_queue (w : World) :
  single_flight w -> rafQueue (host (dispose w)) = [].
Proof.
  intros [H|(i & Hi & H)]; unfold dispose, stop.
  - destruct (frameId (sc w)); cbn; rewrite H; reflexivity.
  - rewrite Hi. cbn. rewrite H. cbn. rewrite Pos.eqb_refl. reflexivity.
Qed.

Lemma frame_single_flight (t : num) (w : World) :
  single_flight w -> single_flight (frame t w).
Proof.
  intros [H|(i & Hi & H)].
  - rewrite (frame_idle t w H). left. exact H.
  - rewrite (frame_single t w i H).
    set (w1 := set_host (set_rafQueue [] (host w)) w).
    destruct (self_disposed (sc w1)) eqn:Hd.
    + rewrite render_disposed by exact Hd. left. reflexivity.
    + destruct (render_schedule t w1 Hd) as [[A B]|[A B]].
      * left. rewrite B. reflexivity.
      * right. exists (rafNext (host w1)). rewrite A, B. auto.
Qed.

Lemma globalWheel_single_flight (now : Z) (e : WheelEvent) (w : World) :
  single_flight w -> single_flight (globalWheel now e w).
Proof.
  intros H. unfold globalWheel.
  destruct (match ignoreEvent (glob w) with
            | Some i => Nat.eqb i (ev_id e)
            | None => false end); exact H.
Qed.

Lemma step_single_flight (w : World) (a : action) :
  single_flight w -> single_flight (step w a).
Proof.
  intros H.
  destruct a as [o|o|o| | |f|b|f|time|now e|now e| ]; cbn [step].
  - unfold scrollTo, scrollBy. apply requestRender_single_flight. exact H.
  - unfold scrollBy. apply requestRender_single_flight. exact H.
  - unfold glide. apply requestRender_single_flight. exact H.
  - left. apply stop_queue, H.
  - left. apply dispose_queue, H.
  - exact H.
  - exact H.
  - exact H.
  - apply frame_single_flight, H.
  - unfold wheel. destruct (wheelBound (host w)).
    + unfold handleWheel.
      destruct (now - lastGlobalWheel (glob w) <? WHEEL_THRESHOLD)%Z;
        cbn [fst]; apply globalWheel_single_flight; [exact H|].
      unfold scrollBy. apply requestRender_single_flight. exact H.
    + cbn [fst]. apply globalWheel_single_flight, H.
  - apply globalWheel_single_flight, H.
  - unfold scrollEvent, handleScroll.
    destruct (scrollBound (host w)); [|exact H].
    destruct (no_frameId (sc w)); exact H.
Qed.

Lemma run_single_flight (l : list action) (w : World) :
  single_flight w -> single_flight (run w l).
Proof.
  revert w. unfold run.
  induction l as [|a l IH]; intros w H; cbn [fold_left]; [exact H|].
  apply IH, step_single_flight, H.
Qed.

(** X4: a scroller made on a host with nothing scheduled never has more than
    one frame callback scheduled, whatever is called and whatever happens,
    also after [dispose()]; and the callback scheduled is the one whose
    handle [frameId] holds. *)
Theorem single_flight_always (g : Globals) (h : Host) (o : Options)
    (l : list action) :
  rafQueue h = [] ->
  let w := run (makeScroller g h o) l in
  (length (rafQueue (host w)) <= 1)%nat
  /\ (forall i, In i (rafQueue (host w)) -> frameId (sc w) = Some i).
Proof.
  intros Hq. cbv zeta.
  assert (S : single_flight (makeScroller g h o)) by (left; exact Hq).
  destruct (run_single_flight l _ S) as [E|(i & Hi & E)]; rewrite E.
  - split; [cbn; lia | intros i []].
  - split; [cbn; lia|]. intros j [<-|[]]. exact Hi.
Qed.

(** X4 on the running example. *)
Lemma single_flight_always_witness :
  (length (rafQueue (host (run Demo.w0
     [ScrollBy (Demo.byLeft (ofZ 100)); Glide (mkGlideOptions None None);
      Frame zero; ScrollTo (Demo.toLeft (ofZ 10)); Frame (ofZ 17)]))) <= 1)%nat.
Proof.
  apply (single_flight_always Demo.g0 Demo.h0 Demo.noOptions
           [ScrollBy (Demo.byLeft (ofZ 100)); Glide (mkGlideOptions None None);
            Frame zero; ScrollTo (Demo.toLeft (ofZ 10)); Frame (ofZ 17)]
           eq_refl).
Defined.

Lemma frames_idle (ts : list num) (w : World) :
  rafQueue (host w) = [] -> run w (map Frame ts) = w.
Proof.
  intros H. unfold run. induction ts as [|t ts IH]; [reflexivity|].
  cbn [map fold_left step]. rewrite (frame_idle t w H). exact IH.
Qed.

(** X5: [stop()] leaves no motion, no handle and nothing scheduled, keeps the
    cached position and writes nothing; calling it again changes nothing,
    and neither do the animation frames that follow. *)
Theorem stop_halts (w : World) (ts : list num) :
  single_flight w ->
  scrolling (sc (stop w)) = None
  /\ gliding (sc (stop w)) = None
  /\ frameId (sc (stop w)) = None
  /\ rafQueue (host (stop w)) = []
  /\ currentPosition (sc (stop w)) = currentPosition (sc w)
  /\ written (host (stop w)) = written (host w)
  /\ stop (stop w) = stop w
  /\ run (stop w) (map Frame ts) = stop w.
Proof.
  intros H.
  destruct (stop_fields w) as (A & B & C & _ & _ & D & _ & E).
  pose proof (stop_queue w H) as Q.
  split; [exact A|]. split; [exact B|]. split; [exact C|].
  split; [exact Q|]. split; [exact D|]. split; [exact E|].
  split; [reflexivity|]. apply frames_idle, Q.
Qed.

(** X5 on the running example, stopped after the first frame of a scroll. *)
Lemma stop_halts_witness :
  let w := frame zero (scrollBy (Demo.byLeft (ofZ 100)) Demo.w0) in
  scrolling (sc w) = Some (ofZ 80, zero)
  /\ run (stop w) (map Frame [ofZ 17; ofZ 34]) = stop w
  /\ currentPosition (sc (stop w)) = mkPosition (ofZ 20) zero.
Proof.
  cbv zeta.
  assert (S : single_flight
                (frame zero (scrollBy (Demo.byLeft (ofZ 100)) Demo.w0))).
  { right. exists 2%positive. split; reflexivity. }
  destruct (stop_halts _ [ofZ 17; ofZ 34] S)
    as (_ & _ & _ & _ & P & _ & _ & R).
  split; [vm_compute; reflexivity|]. split; [exact R|].
  rewrite P. vm_compute. reflexivity.
Defined.

Lemma stuck_step (w : World) (a : action) :
  keeps_handle a = true ->
  self_disposed (sc w) = true -> frameId (sc w) <> None ->
  rafQueue (host w) = [] ->
  self_disposed (sc (step w a)) = true
  /\ frameId (sc (step w a)) <> None
  /\ rafQueue (host (step w a)) = [].
Proof.
  intros Ha Hd Hf Hq.
  destruct (frameId (sc w)) as [i|] eqn:Hi; [clear Hf | congruence].
  assert (K : forall W : World,
            frameId (sc W) = Some i -> requestRender W = W)
    by (intros W HW; apply (requestRender_keeps W i HW)).
  assert (G : forall now e,
            globalWheel now e w = w
            \/ globalWheel now e w
               = set_glob (mkGlobals (minFrameTime (glob w)) now
                             (ignoreEvent (glob w))) w).
  { intros now e. unfold globalWheel.
    destruct (match ignoreEvent (glob w) with
              | Some i0 => Nat.eqb i0 (ev_id e)
              | None => false end); auto. }
  destruct a as [o|o|o| | |f|b|f|time|now e|now e| ];
    cbn [step keeps_handle] in *; try discriminate Ha.
  - unfold scrollTo, scrollBy. rewrite K by exact Hi. cbn.
    rewrite Hi. repeat split; [exact Hd | congruence | exact Hq].
  - unfold scrollBy. rewrite K by exact Hi. cbn.
    rewrite Hi. repeat split; [exact Hd | congruence | exact Hq].
  - unfold glide. rewrite K by exact Hi. cbn.
    rewrite Hi. repeat split; [exact Hd | congruence | exact Hq].
  - cbn. rewrite Hi. repeat split; [exact Hd | congruence | exact Hq].
  - cbn. rewrite Hi. repeat split; [exact Hd | congruence | exact Hq].
  - cbn. rewrite Hi. repeat split; [exact Hd | congruence | exact Hq].
  - rewrite (frame_idle time w Hq), Hi.
    repeat split; [exact Hd | congruence | exact Hq].
  - unfold wheel. destruct (wheelBound (host w)).
    + unfold handleWheel.
      destruct (now - lastGlobalWheel (glob w) <? WHEEL_THRESHOLD)%Z;
        cbn [fst].
      * destruct (G now e) as [E|E]; rewrite E; cbn; rewrite Hi;
          repeat split; [exact Hd | congruence | exact Hq
                        | exact Hd | congruence | exact Hq].
      * unfold scrollBy. rewrite K by exact Hi. unfold globalWheel.
        cbn. rewrite Nat.eqb_refl. cbn. rewrite Hi.
        repeat split; [exact Hd | congruence | exact Hq].
    + cbn [fst]. destruct (G now e) as [E|E]; rewrite E; cbn; rewrite Hi;
        repeat split; [exact Hd | congruence | exact Hq
                      | exact Hd | congruence | exact Hq].
  - destruct (G now e) as [E|E]; rewrite E; cbn; rewrite Hi;
      repeat split; [exact Hd | congruence | exact Hq
                    | exact Hd | congruence | exact Hq].
  - unfold scrollEvent, handleScroll, no_frameId. rewrite Hi.
    destruct (scrollBound (host w)); rewrite Hi;
      repeat split; [exact Hd | congruence | exact Hq
                    | exact Hd | congruence | exact Hq].
Qed.

Lemma cleared_queue_stuck (X : World) (i : positive) :
  self_disposed (sc X) = true -> frameId (sc X) = Some i ->
  self_disposed (sc (set_host (set_rafQueue [] (host X)) X)) = true
  /\ frameId (sc (set_host (set_rafQueue [] (host X)) X)) <> None
  /\ rafQueue (host (set_host (set_rafQueue [] (host X)) X)) = [].
Proof.
  intros Hd Hf. cbn. rewrite Hf. repeat split; [exact Hd | congruence].
Qed.

Lemma written_set_rafQueue (X : World) :
  written (host (set_host (set_rafQueue [] (host X)) X)) = written (host X).
Proof. reflexivity. Qed.

Lemma run_stuck (l : list action) (X : World) :
  forallb keeps_handle l = true ->
  self_disposed (sc X) = true /\ frameId (sc X) <> None
  /\ rafQueue (host X) = [] ->
  rafQueue (host (run X l)) = [].
Proof.
  revert X. unfold run.
  induction l as [|a l IH]; intros X Hl (I1 & I2 & I3); cbn [fold_left].
  - exact I3.
  - cbn [forallb] in Hl. apply andb_true_iff in Hl. destruct Hl as [Ha Hl].
    apply (IH _ Hl). apply stuck_step; assumption.
Qed.

(** X6: [dispose()] is idempotent and leaves nothing scheduled, but a scroll
    called after it still schedules one frame; that frame writes nothing
    and leaves its handle in [frameId], so that, until [stop()] or
    [dispose()] is called again, no later call or event schedules
    anything. *)
Theorem dispose_rearms_once (w : World) (o : ScrollOptions) (t : num)
    (l : list action) :
  single_flight w ->
  forallb keeps_handle l = true ->
  let d := dispose w in
  let w1 := scrollBy o d in
  let w2 := frame t w1 in
  dispose d = d
  /\ rafQueue (host d) = []
  /\ rafQueue (host w1) = [rafNext (host w)]
  /\ rafQueue (host w2) = []
  /\ written (host w2) = written (host w)
  /\ rafQueue (host (run w2 l)) = [].
Proof.
  intros S Hl. cbv zeta.
  pose proof (dispose_queue w S) as Q.
  destruct (dispose_fields w) as (D1 & _ & _ & D4 & _ & D6 & _).
  assert (N : rafNext (host (dispose w)) = rafNext (host w)).
  { unfold dispose, stop. destruct (frameId (sc w)); reflexivity. }
  assert (W1 : frameId (sc (scrollBy o (dispose w)))
               = Some (rafNext (host w))
               /\ rafQueue (host (scrollBy o (dispose w)))
                  = [rafNext (host w)]).
  { unfold scrollBy.
    match goal with |- context [requestRender ?W] =>
      destruct (@requestRender_schedules W) as [A B]; [exact D4|] end.
    rewrite A, B.
    change (rafNext (host (set_sc _ (dispose w))))
      with (rafNext (host (dispose w))).
    change (rafQueue (host (set_sc _ (dispose w))))
      with (rafQueue (host (dispose w))).
    rewrite Q, N. auto. }
  destruct W1 as [F1 Q1].
  destruct (scrollBy_fields o (dispose w)) as (_ & _ & _ & _ & _ & S6 & _).
  destruct (scrollBy_host_fields o (dispose w)) as (_ & S2 & _).
  assert (Hd1 : self_disposed (sc (scrollBy o (dispose w))) = true)
    by (rewrite S6; exact D1).
  split.
  { unfold dispose, stop. destruct (frameId (sc w)); reflexivity. }
  split; [exact Q|]. split; [exact Q1|].
  rewrite (frame_disposed t _ Hd1).
  split; [apply cleared_queue_stuck with (i := rafNext (host w)); assumption|].
  split; [rewrite written_set_rafQueue, S2; exact D6|].
  apply run_stuck; [exact Hl|].
  apply cleared_queue_stuck with (i := rafNext (host w)); assumption.
Qed.

(** X6 on the running example. *)
Lemma dispose_rearms_once_witness :
  let d := dispose Demo.w0 in
  let w2 := frame zero (scrollBy (Demo.byLeft (ofZ 100)) d) in
  rafQueue (host (scrollBy (Demo.byLeft (ofZ 100)) d)) = [1%positive]
  /\ rafQueue (host (run w2 [ScrollTo (Demo.toLeft (ofZ 5));
                              Glide (mkGlideOptions (Some one) None);
                              Frame (ofZ 17)])) = [].
Proof.
  cbv zeta.
  destruct (dispose_rearms_once Demo.w0 (Demo.byLeft (ofZ 100)) zero
              [ScrollTo (Demo.toLeft (ofZ 5));
               Glide (mkGlideOptions (Some one) None); Frame (ofZ 17)])
    as (_ & _ & A & _ & _ & B).
  - left. reflexivity.
  - reflexivity.
  - split; [exact A | exact B].
Defined.

End Lifecycle.

(** ** Edge cases of a frame *)

Section FrameEdges.

Local Open Scope num_scope.

Lemma advance_no_glide (dt : num) (pos : Position) (len : ScrollLength)
    (fr : num) (v : Velocity) :
  advance dt pos len fr (Some v) None
  = (fst (fst (scrollingStep fr dt pos len v)),
     zero + snd (fst (scrollingStep fr dt pos len v)),
     zero + snd (scrollingStep fr dt pos len v)).
Proof.
  unfold advance. destruct (scrollingStep fr dt pos len v) as [[v' xd] yd].
  reflexivity.
Qed.

(** When the adjusted friction is 0 a finite scrolling motion is cleared
    without a move. *)
Lemma scrollingStep_no_friction (fr dt : num) (pos : Position)
    (len : ScrollLength) (x y : Qc) :
  adjustedFriction fr dt = zero ->
  scrollingStep fr dt pos len (Fin x, Fin y) = (None, zero, zero).
Proof.
  intros E. unfold scrollingStep. rewrite E.
  assert (X : forall q : Qc, Fin q * zero = zero).
  { intros q. cbn. unfold zero. f_equal. ring. }
  rewrite !X. unfold nextVelocity.
  assert (L : ltb (Num.abs zero) EPSILON = true) by reflexivity.
  rewrite L. reflexivity.
Qed.

Lemma div_standard (d : Qc) :
  exists k : Qc, (0 < k)%Qc
                 /\ Fin d / STANDARD_FRAME_TIME = Fin (d * k)%Qc.
Proof.
  exists (/ Q2Qc (inject_Z 1000 / inject_Z 60))%Qc. split; reflexivity.
Qed.

(** With a friction of 0 or more and no time elapsed (or a negative one)
    the adjusted friction is 0. *)
Lemma adjustedFriction_no_time (f d : Qc) :
  (0 <= f)%Qc -> (d <= 0)%Qc -> adjustedFriction (Fin f) (Fin d) = zero.
Proof.
  intros Hf Hd. unfold adjustedFriction.
  destruct (div_standard d) as (k & Hk & E). rewrite E. cbn [mul].
  assert (V : (f * (d * k) <= 0)%Qc).
  { unfold Qcle, Qclt in *. rewrite !this_mult.
    change (this 0%Qc) with 0%Q in *.
    set (F := this f) in *. set (D := this d) in *. set (K := this k) in *.
    assert (P : (0 <= F * (- D * K))%Q).
    { apply Qmult_le_0_compat; [exact Hf|].
      apply Qmult_le_0_compat; lra. }
    assert (E' : (F * (D * K) == - (F * (- D * K)))%Q) by ring.
    rewrite E'. lra. }
  unfold clamp, one.
  destruct (min_Fin_cases 1 (f * (d * k))) as [[M L]|[M L]]; rewrite M.
  - exfalso. apply (Qcle_not_lt _ _ (Qcle_trans _ _ _ L V)). reflexivity.
  - unfold zero. destruct (max_Fin_cases 0 (f * (d * k))) as [[M' L']|[M' L']];
      rewrite M'; [reflexivity|].
    exfalso. exact (Qcle_not_lt _ _ V L').
Qed.

(** X7: a frame for which no time has elapsed (its timestamp is not after
    the last one, or the measured [minFrameTime] is 0 or less on a first
    frame) clears a finite scrolling motion without applying any of it;
    when nothing glides the cached position is only clamped again and no
    further frame is requested. *)
Theorem zero_elapsed_ends_scroll (t : num) (w : World) (x y f d : Qc) :
  self_disposed (sc w) = false ->
  scrolling (sc w) = Some (Fin x, Fin y) ->
  friction (sc w) = Fin f -> (0 <= f)%Qc ->
  timeDelta t w = Fin d -> (d <= 0)%Qc ->
  scrolling (sc (render t w)) = None
  /\ (gliding (sc w) = None ->
      currentPosition (sc (render t w))
      = reclamp (getScrollLength w) (currentPosition (sc w))
      /\ frameId (sc (render t w)) = None).
Proof.
  intros Hd Hs Hf F0 Ht D0.
  destruct (render_live t w Hd) as (R1 & R2 & R3 & _).
  pose proof (scrollingStep_no_friction (Fin f) (Fin d)
                (currentPosition (sc w)) (getScrollLength w) x y
                (adjustedFriction_no_time f d F0 D0)) as E.
  split.
  - rewrite R1, Hs, Hf, Ht, advance_scrolling, E. reflexivity.
  - intros Hg. split.
    + rewrite R2, Hs, Hf, Ht, Hg, advance_no_glide, E. cbn [fst snd].
      rewrite !add_zero_l, !add_zero_r. reflexivity.
    + destruct (render_schedule t w Hd) as [[A _]|[A _]]; [exact A|].
      exfalso.
      assert (N : scrolling (sc (render t w)) = None)
        by (rewrite R1, Hs, Hf, Ht, advance_scrolling, E; reflexivity).
      revert A. unfold render. rewrite Hd.
      destruct (advance _ _ _ _ _ _) as [[s' lb] tb] eqn:EA.
      assert (s' = None).
      { rewrite Hs, Hf, Ht, Hg, advance_no_glide, E in EA.
        injection EA as <- _ _. reflexivity. }
      subst s'. unfold reschedule. cbn. rewrite Hg. cbn. discriminate.
Qed.

(** X7 after a frame clock that saw two frames with one timestamp: the
    scroll by 100 pixels is dropped by its first frame. *)
Lemma zero_elapsed_ends_scroll_witness :
  let g := mkGlobals
             (FrameClock.minFrameTime
                (FrameClock.sample [zero; ofZ 100; ofZ 100] FrameClock.init))
             0 None in
  let w := scrollBy (Demo.byLeft (ofZ 100))
             (makeScroller g Demo.h0 Demo.noOptions) in
  scrolling (sc w) = Some (ofZ 100, zero)
  /\ scrolling (sc (render (ofZ 200) w)) = None
  /\ currentPosition (sc (render (ofZ 200) w)) = mkPosition zero zero.
Proof.
  cbv zeta.
  split; [vm_compute; reflexivity|].
  destruct (zero_elapsed_ends_scroll (ofZ 200)
              (scrollBy (Demo.byLeft (ofZ 100))
                 (makeScroller
                    (mkGlobals
                       (FrameClock.minFrameTime
                          (FrameClock.sample [zero; ofZ 100; ofZ 100]
                             FrameClock.init)) 0 None)
                    Demo.h0 Demo.noOptions))
              (Q2Qc (inject_Z 100)) 0%Qc (Q2Qc (2 # 10)) 0%Qc)
    as [A B]; try reflexivity.
  - discriminate.
  - discriminate.
  - split; [exact A|]. destruct (B eq_refl) as [B1 _]. rewrite B1.
    vm_compute. reflexivity.
Defined.

End FrameEdges.

(** ** How a scroll approaches its destination *)

Section Approach.

Local Open Scope num_scope.





(** The adjusted friction of finite numbers is a fraction. *)
Lemma adjustedFriction_fraction (fr dt : num) :
  is_finite fr = true -> is_finite dt = true ->
  exists a : Qc, adjustedFriction fr dt = Fin a /\ (0 <= a)%Qc /\ (a <= 1)%Qc.
Proof.
  intros Hf Hd.
  destruct (finite_inv _ (fin_adjustedFriction fr dt Hf Hd)) as [a Ea].
  exists a. split; [exact Ea|].
  apply isWithin_Fin. change (Fin 1%Qc) with one. rewrite <- Ea.
  unfold adjustedFriction. apply clamp_in_range; try reflexivity.
  apply fin_not_nan, fin_mul; [exact Hf|]. apply fin_div_standard, Hd.
Qed.

(** One frame of one axis never turns the velocity around and never makes
    it larger. *)
Lemma axis_monotone (x a : Qc) (p l : num) :
  (0 <= a)%Qc -> (a <= 1)%Qc ->
  exists x' : Qc,
    nextVelocity (Fin x) (Fin x * Fin a) p l = Fin x'
    /\ ((0 <= x' /\ x' <= x)%Qc \/ (x <= x' /\ x' <= 0)%Qc).
Proof.
  intros A0 A1.
  assert (Z : ((0 <= 0 /\ 0 <= x) \/ (x <= 0 /\ 0 <= 0))%Qc).
  { destruct (Qclt_le_dec x 0) as [N|P].
    - right. split; [apply Qclt_le_weak, N | apply Qcle_refl].
    - left. split; [apply Qcle_refl | exact P]. }
  destruct (nextVelocity_cases (Fin x) (Fin x * Fin a) p l) as [E|[E _]];
    rewrite E.
  - exists 0%Qc. split; [reflexivity | exact Z].
  - exists (x - x * a)%Qc. split; [reflexivity|].
    unfold Qcle in *. rewrite !this_minus, !this_mult.
    change (this 0%Qc) with 0%Q in *. change (this 1%Qc) with 1%Q in *.
    destruct (Qlt_le_dec (this x) 0) as [N|P]; [right | left]; split; nra.
Qed.

(** X9: in a frame of a scroller that holds finite numbers the pending
    velocity of each axis keeps its sign and does not grow: it stays
    between 0 and what it was. *)
Theorem velocity_never_turns (t : num) (w : World) :
  fin_world w = true -> is_finite t = true ->
  self_disposed (sc w) = false ->
  exists vx vy vx' vy' : Qc,
    pendingX (sc w) = Fin vx /\ pendingY (sc w) = Fin vy
    /\ pendingX (sc (render t w)) = Fin vx'
    /\ pendingY (sc (render t w)) = Fin vy'
    /\ ((0 <= vx' /\ vx' <= vx)%Qc \/ (vx <= vx' /\ vx' <= 0)%Qc)
    /\ ((0 <= vy' /\ vy' <= vy)%Qc \/ (vy <= vy' /\ vy' <= 0)%Qc).
Proof.
  intros Hw Ht Hd. apply fin_world_spec in Hw.
  destruct Hw as (W1 & W2 & W3 & W4 & W5 & W6 & W7 & W8 & W9).
  pose proof (fin_timeDelta t w Ht W2 W9) as Hdt.
  destruct (render_live t w Hd) as (R1 & _).
  unfold pendingX, pendingY. rewrite R1.
  destruct (scrolling (sc w)) as [[x y]|] eqn:Hs.
  - cbn [fin_velocity] in W7. apply andb_true_iff in W7.
    destruct W7 as [X Y].
    destruct (finite_inv _ X) as [qx Ex]. destruct (finite_inv _ Y) as [qy Ey].
    subst x y. rewrite advance_scrolling. unfold scrollingStep.
    destruct (adjustedFriction_fraction _ _ W5 Hdt) as (a & Ea & A0 & A1).
    rewrite Ea.
    destruct (axis_monotone qx a (left (currentPosition (sc w)))
                (width (getScrollLength w)) A0 A1) as (x' & Ex' & Mx).
    destruct (axis_monotone qy a (top (currentPosition (sc w)))
                (height (getScrollLength w)) A0 A1) as (y' & Ey' & My).
    rewrite Ex', Ey'. cbn [fst option_map opt_or_else].
    exists qx, qy, x', y'.
    rewrite !or_else_finite by reflexivity.
    split; [reflexivity|]. split; [reflexivity|].
    destruct (eqb (Fin x') zero && eqb (Fin y') zero) eqn:Hz.
    + apply andb_true_iff in Hz. destruct Hz as [Zx Zy].
      apply eqb_Fin in Zx, Zy. subst x' y'. cbn. auto.
    + cbn [fst snd option_map opt_or_else].
      rewrite !or_else_finite by reflexivity. auto.
  - rewrite advance_none. cbn.
    exists 0%Qc, 0%Qc, 0%Qc, 0%Qc.
    assert (Z : ((0 <= 0 /\ 0 <= 0) \/ (0 <= 0 /\ 0 <= 0))%Qc)
      by (left; split; apply Qcle_refl).
    auto 10.
Qed.

(** X9 on the first frame of a scroll back by 100 pixels. *)
Lemma velocity_never_turns_witness :
  exists vx vx' : Qc,
    pendingX (sc (scrollBy (Demo.byLeft (ofZ (-100))) Demo.w0)) = Fin vx
    /\ pendingX (sc (render zero
                       (scrollBy (Demo.byLeft (ofZ (-100))) Demo.w0)))
       = Fin vx'
    /\ ((0 <= vx' /\ vx' <= vx)%Qc \/ (vx <= vx' /\ vx' <= 0)%Qc).
Proof.
  destruct (velocity_never_turns zero
              (scrollBy (Demo.byLeft (ofZ (-100))) Demo.w0)
              eq_refl eq_refl eq_refl)
    as (vx & vy & vx' & vy' & A & _ & B & _ & C & _).
  exists vx, vx'. auto.
Defined.

End Approach.

(** ** A glide goes on *)

Section GlideGoesOn.

Local Open Scope num_scope.

Lemma gliding_step (v : Velocity) (w : World) (a : action) :
  keeps_gliding a = true ->
  self_disposed (sc w) = false ->
  gliding (sc w) = Some v ->
  (exists i, frameId (sc w) = Some i /\ rafQueue (host w) = [i]) ->
  self_disposed (sc (step w a)) = false
  /\ gliding (sc (step w a)) = Some v
  /\ exists i, frameId (sc (step w a)) = Some i
               /\ rafQueue (host (step w a)) = [i].
Proof.
  intros Ha Hd Hg (i & Hi & Hq).
  assert (K : forall W : World,
            frameId (sc W) = Some i -> requestRender W = W)
    by (intros W HW; apply (requestRender_keeps W i HW)).
  assert (G : forall now e (W : World),
            self_disposed (sc W) = false -> gliding (sc W) = Some v ->
            frameId (sc W) = Some i -> rafQueue (host W) = [i] ->
            self_disposed (sc (globalWheel now e W)) = false
            /\ gliding (sc (globalWheel now e W)) = Some v
            /\ exists j, frameId (sc (globalWheel now e W)) = Some j
                         /\ rafQueue (host (globalWheel now e W)) = [j]).
  { intros now e W D1 D2 D3 D4. unfold globalWheel.
    destruct (match ignoreEvent (glob W) with
              | Some i0 => Nat.eqb i0 (ev_id e)
              | None => false end); cbn; eauto. }
  destruct a as [o|o|o| | |f|b|f|time|now e|now e| ];
    cbn [step keeps_gliding] in *; try discriminate Ha.
  - unfold scrollTo, scrollBy. rewrite K by exact Hi. cbn. eauto.
  - unfold scrollBy. rewrite K by exact Hi. cbn. eauto.
  - cbn. eauto.
  - cbn. eauto.
  - cbn. eauto.
  - rewrite (frame_single time w i Hq).
    set (w1 := set_host (set_rafQueue [] (host w)) w).
    assert (Hd1 : self_disposed (sc w1) = false) by exact Hd.
    assert (Hg1 : gliding (sc w1) = Some v) by exact Hg.
    destruct (render_gliding_reschedules time w1 v Hd1 Hg1) as (F1 & F2 & _).
    destruct (render_live time w1 Hd1) as (_ & _ & R3 & _ & R5 & _).
    split; [exact R5|]. split; [rewrite R3; exact Hg1|].
    exists (rafNext (host w1)). rewrite F1, F2. auto.
  - unfold wheel. destruct (wheelBound (host w)).
    + unfold handleWheel.
      destruct (now - lastGlobalWheel (glob w) <? WHEEL_THRESHOLD)%Z;
        cbn [fst].
      * apply G; assumption.
      * unfold scrollBy. rewrite K by exact Hi. apply G; assumption.
    + cbn [fst]. apply G; assumption.
  - apply G; assumption.
  - unfold scrollEvent, handleScroll, no_frameId. rewrite Hi.
    destruct (scrollBound (host w)); eauto.
Qed.

(** X11: a glide goes on until [glide], [stop] or [dispose] is called: on a
    live scroller, whatever scrolls, frames and events follow a [glide],
    the gliding vector stays as [glide] set it, at any speed and also at
    the end of the range, and a frame stays scheduled. *)
Theorem glide_goes_on (w : World) (o : GlideOptions) (l : list action) :
  self_disposed (sc w) = false ->
  scheduled_ok w ->
  forallb keeps_gliding l = true ->
  let w' := run (glide o w) l in
  gliding (sc w')
  = Some (opt_or_else (go_left o) zero, opt_or_else (go_top o) zero)
  /\ self_disposed (sc w') = false
  /\ exists i, frameId (sc w') = Some i /\ rafQueue (host w') = [i].
Proof.
  intros Hd Hok Hl. cbv zeta.
  destruct (glide_fields o w) as (G1 & _ & _ & _ & _ & G6 & _).
  assert (Q : exists i, frameId (sc (glide o w)) = Some i
                        /\ rafQueue (host (glide o w)) = [i]).
  { unfold glide. red in Hok.
    destruct (frameId (sc w)) as [i|] eqn:Hf.
    - exists i. rewrite requestRender_keeps with (i := i) by exact Hf.
      cbn. split; [exact Hf | exact Hok].
    - match goal with |- context [requestRender ?W] =>
        destruct (@requestRender_schedules W) as [A B]; [exact Hf|] end.
      eexists. split; [exact A|]. rewrite B. cbn. rewrite Hok. reflexivity. }
  rewrite Hd in G6. revert G1 G6 Q.
  generalize (opt_or_else (go_left o) zero, opt_or_else (go_top o) zero).
  generalize (glide o w). unfold run.
  induction l as [|a l IH]; intros w0 v G1 G6 Q; cbn [fold_left].
  - auto.
  - cbn [forallb] in Hl. apply andb_true_iff in Hl. destruct Hl as [Ha Hl].
    destruct (gliding_step v w0 a Ha G6 G1 Q) as (A & B & C).
    apply (IH Hl); assumption.
Qed.

(** X11 on the running example: a glide to the right at 100 px/s, a scroll
    and frames up to a minute later, far beyond the end of the range. *)
Lemma glide_goes_on_witness :
  let w' := run (glide (mkGlideOptions (Some (ofZ 100)) None) Demo.w0)
              [Frame zero; ScrollBy (Demo.byLeft (ofZ 50)); Frame (ofZ 17);
               Frame (ofZ 60000); Frame (ofZ 60017)] in
  gliding (sc w') = Some (ofZ 100, zero)
  /\ left (currentPosition (sc w')) = ofZ 1000
  /\ exists i, frameId (sc w') = Some i /\ rafQueue (host w') = [i].
Proof.
  cbv zeta.
  destruct (glide_goes_on Demo.w0 (mkGlideOptions (Some (ofZ 100)) None)
              [Frame zero; ScrollBy (Demo.byLeft (ofZ 50)); Frame (ofZ 17);
               Frame (ofZ 60000); Frame (ofZ 60017)]
              eq_refl eq_refl eq_refl) as (A & _ & C).
  split; [rewrite A; vm_compute; reflexivity|].
  split; [vm_compute; reflexivity | exact C].
Defined.

End GlideGoesOn.

(** ** How scroll calls compose *)

Section Calls.

Local Open Scope num_scope.

Lemma whole_onum_inv (b : Z) (o : option num) :
  whole_onum b o = true -> exists z, nullish o zero = ofZ z.
Proof.
  destruct o as [x|]; cbn [whole_onum nullish]; intros H.
  - destruct (whole_inv b x H) as (z & E & _). exists z. exact E.
  - exists 0%Z. reflexivity.
Qed.

(** One [scrollBy] with whole amounts on a whole pending velocity. *)
Lemma scrollBy_whole (o : ScrollOptions) (w : World) (vx vy a b : Z) :
  pendingX (sc w) = ofZ vx -> pendingY (sc w) = ofZ vy ->
  nullish (so_left o) zero = ofZ a -> nullish (so_top o) zero = ofZ b ->
  scrolling (sc (scrollBy o w)) = Some (ofZ (vx + a), ofZ (vy + b))
  /\ pendingX (sc (scrollBy o w)) = ofZ (vx + a)
  /\ pendingY (sc (scrollBy o w)) = ofZ (vy + b).
Proof.
  intros Px Py Ea Eb.
  destruct (scrollBy_fields o w) as (_ & S & _).
  rewrite Px, Py, Ea, Eb, !ofZ_add in S.
  split; [exact S|].
  unfold pendingX, pendingY. rewrite S. cbn [option_map fst snd opt_or_else].
  split; apply or_else_finite; reflexivity.
Qed.

(** A run of them: the amounts add up as whole numbers. *)
Lemma scrollBy_run_whole (os : list ScrollOptions) :
  forall (w : World) (vx vy : Z),
    pendingX (sc w) = ofZ vx -> pendingY (sc w) = ofZ vy ->
    forallb whole_amounts os = true ->
    exists sx sy,
      sumLeft os = ofZ sx /\ sumTop os = ofZ sy
      /\ pendingX (sc (run w (map ScrollBy os))) = ofZ (vx + sx)
      /\ pendingY (sc (run w (map ScrollBy os))) = ofZ (vy + sy)
      /\ (os <> [] ->
          scrolling (sc (run w (map ScrollBy os)))
          = Some (ofZ (vx + sx), ofZ (vy + sy))).
Proof.
  unfold run.
  induction os as [|o os IH]; intros w vx vy Px Py H;
    cbn [map fold_left step sumLeft sumTop].
  - exists 0%Z, 0%Z. rewrite !Z.add_0_r.
    repeat split; auto. congruence.
  - cbn [forallb] in H. apply andb_true_iff in H. destruct H as [Ho H].
    unfold whole_amounts in Ho. apply andb_true_iff in Ho.
    destruct Ho as [O1 O2].
    destruct (whole_onum_inv _ _ O1) as (a & Ea).
    destruct (whole_onum_inv _ _ O2) as (b & Eb).
    destruct (scrollBy_whole o w vx vy a b Px Py Ea Eb) as (S & PX & PY).
    destruct (IH (scrollBy o w) (vx + a)%Z (vy + b)%Z PX PY H)
      as (sx & sy & Sx & Sy & QX & QY & C).
    exists (a + sx)%Z, (b + sy)%Z.
    rewrite Ea, Eb, Sx, Sy, !ofZ_add, !Z.add_assoc.
    repeat split; auto.
    intros _. destruct os as [|o' os'].
    + cbn [map fold_left] in QX, QY |- *. rewrite PX in QX. rewrite PY in QY.
      rewrite <- QX, <- QY. exact S.
    + apply C. congruence.
Qed.

(** X12: scrolls by whole numbers of pixels add up: after a run of
    [scrollBy] calls with no frame in between, the pending velocity on each
    axis is what was pending before plus the sum of the amounts, in
    whatever order the calls came.  The bounds on the amounts and on the
    number of calls keep every sum within the whole numbers that
    JavaScript adds without rounding. *)
Theorem scrollBy_accumulates (w : World) (os : list ScrollOptions) :
  is_whole MAX_POSITION (pendingX (sc w)) = true ->
  is_whole MAX_POSITION (pendingY (sc w)) = true ->
  forallb whole_amounts os = true ->
  (Z.of_nat (length os) <= MAX_CALLS)%Z ->
  os <> [] ->
  scrolling (sc (run w (map ScrollBy os)))
  = Some (pendingX (sc w) + sumLeft os, pendingY (sc w) + sumTop os).
Proof.
  intros Wx Wy H _ Hne.
  destruct (whole_inv _ _ Wx) as (vx & Px & _).
  destruct (whole_inv _ _ Wy) as (vy & Py & _).
  destruct (scrollBy_run_whole os w vx vy Px Py H)
    as (sx & sy & Sx & Sy & _ & _ & C).
  rewrite (C Hne), Px, Py, Sx, Sy, !ofZ_add. reflexivity.
Qed.

(** X12 on the running example: by 100, back by 30, down by 7. *)
Lemma scrollBy_accumulates_witness :
  scrolling (sc (run Demo.w0
                   (map ScrollBy [Demo.byLeft (ofZ 100);
                                  Demo.byLeft (ofZ (-30));
                                  mkScrollOptions None (Some (ofZ 7)) None])))
  = Some (ofZ 70, ofZ 7).
Proof.
  rewrite (scrollBy_accumulates Demo.w0
             [Demo.byLeft (ofZ 100); Demo.byLeft (ofZ (-30));
              mkScrollOptions None (Some (ofZ 7)) None]).
  - vm_compute. reflexivity.
  - vm_compute. reflexivity.
  - vm_compute. reflexivity.
  - vm_compute. reflexivity.
  - vm_compute. discriminate.
  - discriminate.
Defined.

(** X13: unlike [scrollBy], a [scrollTo] on whole numbers of pixels does
    not add up: calling it a second time with the same options, before any
    frame, leaves the pending velocity, the friction in effect and the
    schedule as the first call left them. *)
Theorem scrollTo_twice (w : World) (o : ScrollOptions) :
  whole_motion w = true -> whole_target o w = true ->
  scrolling (sc (scrollTo o (scrollTo o w))) = scrolling (sc (scrollTo o w))
  /\ friction (sc (scrollTo o (scrollTo o w)))
     = friction (sc (scrollTo o w))
  /\ host (scrollTo o (scrollTo o w)) = host (scrollTo o w).
Proof.
  intros Hm Ht.
  destruct (scrollTo_whole o w Hm Ht) as (S & PX & PY & M).
  destruct (scrollTo_fields o w) as (_ & P & L & _).
  cbv zeta in S, PX, PY, P, L.
  assert (Ht' : whole_target o (scrollTo o w) = true)
    by (unfold whole_target; rewrite L; exact Ht).
  destruct (scrollTo_whole o (scrollTo o w) M Ht') as (S' & _).
  cbv zeta in S'. rewrite P, L, PX, PY in S'.
  split.
  - rewrite S', S. destruct (so_left o), (so_top o); reflexivity.
  - destruct (scrollTo_as_scrollBy o w) as (o1 & E1 & F1).
    destruct (scrollTo_as_scrollBy o (scrollTo o w)) as (o2 & E2 & F2).
    destruct (scrollBy_fields o1 w) as (A1 & _ & _ & _ & _ & _ & A7 & _).
    destruct (scrollBy_fields o2 (scrollTo o w)) as (B1 & _).
    split.
    + rewrite E2, B1, F2. rewrite E1 at 2. rewrite A1, F1.
      rewrite E1, A7. reflexivity.
    + rewrite E2. unfold scrollBy at 1.
      assert (N : frameId (sc (scrollTo o w)) <> None)
        by (rewrite E1; unfold scrollBy; apply requestRender_frameId).
      destruct (frameId (sc (scrollTo o w))) as [i|] eqn:Hi; [|congruence].
      rewrite requestRender_keeps with (i := i); [reflexivity | exact Hi].
Qed.

(** X13 on the running example. *)
Lemma scrollTo_twice_witness :
  scrolling (sc (scrollTo (Demo.toLeft (ofZ 300))
                   (scrollTo (Demo.toLeft (ofZ 300)) Demo.w0)))
  = Some (ofZ 300, zero).
Proof.
  destruct (scrollTo_twice Demo.w0 (Demo.toLeft (ofZ 300))) as (A & _).
  - vm_compute. reflexivity.
  - vm_compute. reflexivity.
  - rewrite A. vm_compute. reflexivity.
Defined.

(** A coordinate at or beyond the end of the range is clamped to the end,
    one at 0 or below to 0. *)
Lemma clamp_above (l w : num) :
  leb zero w = true -> leb w l = true -> clamp zero l w = w.
Proof.
  intros H0 Hl. destruct w as [| | |q]; try discriminate H0.
  - destruct l; try discriminate Hl. reflexivity.
  - assert (M : Num.min (Fin q) l = Fin q).
    { unfold Num.min. unfold leb in Hl.
      destruct (cmp (Fin q) l) as [[| |]|]; try discriminate Hl; reflexivity. }
    unfold clamp. rewrite M. apply max_zero_nonneg.
    apply leb_Fin. exact H0.
Qed.

Lemma clamp_below (l w : num) :
  leb zero w = true -> leb l zero = true -> clamp zero l w = zero.
Proof.
  intros H0 Hl.
  assert (Z : forall m : Qc, (m <= 0)%Qc -> Num.max zero (Fin m) = zero).
  { intros m Hm. unfold zero.
    destruct (max_Fin_cases 0 m) as [[E _]|[E L]]; rewrite E;
      [reflexivity|].
    exfalso. exact (Qcle_not_lt _ _ Hm L). }
  destruct w as [| | |q]; try discriminate H0;
    destruct l as [| | |x]; try discriminate Hl; try reflexivity.
  - apply leb_Fin in Hl. unfold clamp.
    change (Num.min PInf (Fin x)) with (Fin x). apply Z, Hl.
  - apply leb_Fin in H0. apply leb_Fin in Hl. unfold clamp.
    destruct (min_Fin_cases q x) as [[E L]|[E L]]; rewrite E; apply Z.
    + apply Qcle_trans with x; assumption.
    + exact Hl.
Qed.

(** X14: a [scrollTo] whose coordinate lies at or beyond the end of the
    range, [Infinity] included, is the same call as a [scrollTo] to the
    end, and one whose coordinate is 0 or less, [-Infinity] included, is
    the same call as a [scrollTo] to 0; on either axis. *)
Theorem scrollTo_beyond_range (w : World) (o : ScrollOptions) :
  lengths_ok w = true ->
  (forall l, so_left o = Some l ->
     (leb (width (getScrollLength w)) l = true ->
      scrollTo o w = scrollTo (with_left (width (getScrollLength w)) o) w)
     /\ (leb l zero = true ->
         scrollTo o w = scrollTo (with_left zero o) w))
  /\ (forall t, so_top o = Some t ->
        (leb (height (getScrollLength w)) t = true ->
         scrollTo o w = scrollTo (with_top (height (getScrollLength w)) o) w)
        /\ (leb t zero = true ->
            scrollTo o w = scrollTo (with_top zero o) w)).
Proof.
  intros Hlen. unfold lengths_ok in Hlen. apply andb_true_iff in Hlen.
  destruct Hlen as [Lw Lh].
  assert (R : forall x, leb zero x = true -> leb x x = true).
  { intros x Hx. apply leb_refl. destruct x; try discriminate Hx; reflexivity. }
  split; intros c Hc; split; intros H;
    unfold scrollTo, with_left, with_top;
    cbn [so_left so_top so_friction]; rewrite Hc.
  - rewrite (clamp_above c _ Lw H), (clamp_above _ _ Lw (R _ Lw)). reflexivity.
  - rewrite (clamp_below c _ Lw H), (clamp_below zero _ Lw eq_refl).
    reflexivity.
  - rewrite (clamp_above c _ Lh H), (clamp_above _ _ Lh (R _ Lh)). reflexivity.
  - rewrite (clamp_below c _ Lh H), (clamp_below zero _ Lh eq_refl).
    reflexivity.
Qed.

(** X14 on the running example: to [Infinity] is to 1000, to [-Infinity]
    is to 0, across; down to 5000 is down to 1600, and to -3 is to 0. *)
Lemma scrollTo_beyond_range_witness :
  let down := fun t => mkScrollOptions None (Some t) None in
  scrollTo (Demo.toLeft PInf) Demo.w0 = scrollTo (Demo.toLeft (ofZ 1000)) Demo.w0
  /\ scrollTo (Demo.toLeft NInf) Demo.w0 = scrollTo (Demo.toLeft zero) Demo.w0
  /\ scrollTo (down (ofZ 5000)) Demo.w0 = scrollTo (down (ofZ 1600)) Demo.w0
  /\ scrollTo (down (ofZ (-3))) Demo.w0 = scrollTo (down zero) Demo.w0.
Proof.
  cbv zeta.
  destruct (scrollTo_beyond_range Demo.w0 (Demo.toLeft PInf) eq_refl)
    as (A & _).
  destruct (scrollTo_beyond_range Demo.w0 (Demo.toLeft NInf) eq_refl)
    as (B & _).
  destruct (scrollTo_beyond_range Demo.w0
              (mkScrollOptions None (Some (ofZ 5000)) None) eq_refl)
    as (_ & C).
  destruct (scrollTo_beyond_range Demo.w0
              (mkScrollOptions None (Some (ofZ (-3))) None) eq_refl)
    as (_ & D).
  destruct (A PInf eq_refl) as (A1 & _).
  destruct (B NInf eq_refl) as (_ & B2).
  destruct (C (ofZ 5000) eq_refl) as (C1 & _).
  destruct (D (ofZ (-3)) eq_refl) as (_ & D2).
  split; [rewrite (A1 eq_refl); vm_compute; reflexivity|].
  split; [exact (B2 eq_refl)|].
  split; [rewrite (C1 eq_refl); vm_compute; reflexivity|].
  exact (D2 eq_refl).
Defined.

End Calls.

(** ** Events from outside *)

Section Outside.

Local Open Scope num_scope.

(** X15: the cached position follows a scroll made by someone else only
    while no frame is pending.  With no frame pending the scroll event puts
    the element's offsets in the cache; with a frame pending the cache is
    left alone and the frame overwrites the offsets: the world after the
    frame is the one there would be had nobody scrolled. *)
Theorem userScroll_sync (p : Position) (w : World) (t : num) (i : positive) :
  scrollBound (host w) = true ->
  (frameId (sc w) = None ->
   currentPosition (sc (userScroll p w)) = p
   /\ scrolling (sc (userScroll p w)) = scrolling (sc w)
   /\ gliding (sc (userScroll p w)) = gliding (sc w))
  /\ (self_disposed (sc w) = false ->
      frameId (sc w) = Some i -> rafQueue (host w) = [i] ->
      currentPosition (sc (userScroll p w)) = currentPosition (sc w)
      /\ frame t (userScroll p w) = frame t w).
Proof.
  destruct w as [g [e wb sb n q wr] s]. destruct e as [sl st sw cw sh ch].
  cbn [host scrollBound]. intros Hb. subst sb.
  unfold userScroll, scrollEvent, handleScroll, no_frameId.
  cbn [host set_host scrollBound sc frameId rafQueue self_disposed].
  split.
  - intros Hf. rewrite Hf. cbn. destruct p. auto.
  - intros Hd Hf Hq. rewrite Hf. subst q. split; [reflexivity|].
    unfold frame. cbn [host set_host rafQueue fold_left].
    unfold render. cbn [sc set_host]. rewrite Hd.
    unfold timeDelta, getScrollLength.
    cbn [sc glob host set_host set_rafQueue element scrollWidth clientWidth
         scrollHeight clientHeight].
    destruct (advance _ _ _ _ _ _) as [[s' lb] tb].
    reflexivity.
Qed.

(** X15 on the running example: a jump to 40 by hand while idle, and one in
    the middle of a scroll. *)
Lemma userScroll_sync_witness :
  let p := mkPosition (ofZ 40) zero in
  let w := scrollBy (Demo.byLeft (ofZ 100)) Demo.w0 in
  currentPosition (sc (userScroll p Demo.w0)) = p
  /\ frame zero (userScroll p w) = frame zero w
  /\ scrollLeft (element (host (frame zero (userScroll p w)))) = ofZ 20.
Proof.
  cbv zeta.
  destruct (userScroll_sync (mkPosition (ofZ 40) zero) Demo.w0 zero
              1%positive eq_refl) as [A _].
  destruct (userScroll_sync (mkPosition (ofZ 40) zero)
              (scrollBy (Demo.byLeft (ofZ 100)) Demo.w0) zero
              1%positive eq_refl) as [_ B].
  destruct (A eq_refl) as [A1 _].
  destruct (B eq_refl eq_refl eq_refl) as [_ B2].
  split; [exact A1|]. split; [exact B2|].
  rewrite B2. vm_compute. reflexivity.
Defined.

Lemma globalWheel_foreign (now : Z) (e : WheelEvent) (w : World) :
  ignoreEvent (glob w) <> Some (ev_id e) ->
  globalWheel now e w
  = set_glob (mkGlobals (minFrameTime (glob w)) now (ignoreEvent (glob w))) w.
Proof.
  intros H. unfold globalWheel.
  destruct (ignoreEvent (glob w)) as [i|]; [|reflexivity].
  destruct (Nat.eqb_spec i (ev_id e)) as [E|E]; [|reflexivity].
  subst i. congruence.
Qed.

Lemma last_cons_any (a d d' : Z) (l : list Z) :
  last (a :: l) d = last (a :: l) d'.
Proof.
  revert a. induction l as [|c l IH]; intros a; [reflexivity|].
  change (last (a :: c :: l) d) with (last (c :: l) d).
  change (last (a :: c :: l) d') with (last (c :: l) d').
  apply IH.
Qed.

(** X16: a wheel series that began elsewhere is never taken over: as long
    as every event comes less than 300 ms after the one before, the first
    less than 300 ms after the last foreign event, the scroller's
    variables and the host are left as they were, and each event is recorded
    as the last foreign one. *)
Theorem foreign_series_left_alone (evs : list (Z * WheelEvent)) (w : World) :
  foreign_series (ignoreEvent (glob w)) (lastGlobalWheel (glob w)) evs ->
  let w' := run w (wheels evs) in
  sc w' = sc w
  /\ host w' = host w
  /\ ignoreEvent (glob w') = ignoreEvent (glob w)
  /\ lastGlobalWheel (glob w')
     = last (map fst evs) (lastGlobalWheel (glob w)).
Proof.
  revert w. unfold run, wheels.
  induction evs as [|[now e] evs IH]; intros w H; cbv zeta.
  - cbn. auto.
  - cbn [foreign_series] in H. destruct H as (H1 & H2 & H3).
    cbn [map fold_left step fst snd].
    assert (E : fst (wheel now e w)
                = set_glob (mkGlobals (minFrameTime (glob w)) now
                              (ignoreEvent (glob w))) w).
    { unfold wheel.
      assert (HW : (if wheelBound (host w) then handleWheel now e w
                    else (w, e)) = (w, e)).
      { destruct (wheelBound (host w)); [|reflexivity].
        unfold handleWheel, WHEEL_THRESHOLD.
        destruct (Z.ltb_spec (now - lastGlobalWheel (glob w)) 300);
          [reflexivity | lia]. }
      rewrite HW. cbn [fst]. apply globalWheel_foreign.
      intros C. apply H2. exact C. }
    rewrite E.
    specialize (IH (set_glob (mkGlobals (minFrameTime (glob w)) now
                                (ignoreEvent (glob w))) w)).
    cbv zeta in IH. cbn [glob set_glob ignoreEvent lastGlobalWheel] in IH.
    destruct (IH H3) as (A & B & C & D).
    split; [exact A|]. split; [exact B|]. split; [exact C|].
    rewrite D. destruct evs as [|[now' e'] evs']; [reflexivity|].
    cbn [map fst].
    transitivity (last (now' :: map fst evs') (lastGlobalWheel (glob w)));
      [apply last_cons_any | reflexivity].
Qed.

(** X16 on the running example with the wheel handled: three events 200 ms
    apart, the first 100 ms after a foreign one. *)
Lemma foreign_series_left_alone_witness :
  let w := set_glob (mkGlobals STANDARD_FRAME_TIME 1000 None)
             (makeScroller Demo.g0 Demo.h0
                (mkOptions None (Some true) None None)) in
  let e := mkWheelEvent 1 zero (ofZ 120) false in
  sc (run w (wheels [(1100, e); (1300, e); (1500, e)])%Z) = sc w
  /\ lastGlobalWheel (glob (run w (wheels [(1100, e); (1300, e); (1500, e)])%Z))
     = 1500%Z.
Proof.
  cbv zeta.
  destruct (foreign_series_left_alone
              [(1100, mkWheelEvent 1 zero (ofZ 120) false);
               (1300, mkWheelEvent 1 zero (ofZ 120) false);
               (1500, mkWheelEvent 1 zero (ofZ 120) false)]%Z
              (set_glob (mkGlobals STANDARD_FRAME_TIME 1000 None)
                 (makeScroller Demo.g0 Demo.h0
                    (mkOptions None (Some true) None None))))
    as (A & _ & _ & D).
  - cbn. repeat split; try lia; discriminate.
  - split; [exact A | exact D].
Defined.

Lemma scrollBy_congr (o : ScrollOptions) (w1 w2 : World) :
  sc w1 = sc w2 -> host w1 = host w2 ->
  sc (scrollBy o w1) = sc (scrollBy o w2)
  /\ host (scrollBy o w1) = host (scrollBy o w2)
  /\ glob (scrollBy o w1) = glob w1.
Proof.
  intros Hs Hh. destruct w1 as [g1 h1 s1], w2 as [g2 h2 s2].
  cbn in Hs, Hh. subst s2 h2.
  unfold scrollBy, requestRender. cbn [sc set_sc host].
  destruct (no_frameId _); cbn; auto.
Qed.

(** X17: a wheel series the scroller has taken stays its own however fast
    the events come: an event it takes is not recorded as foreign, so as
    long as each event comes 300 ms or more after the last foreign one, all
    are taken, and the scroller's variables and the host end up as after the
    [scrollBy] calls with the events' deltas and the wheel friction. *)
Theorem own_series_taken (evs : list (Z * WheelEvent)) (w : World) :
  wheelBound (host w) = true ->
  Forall (fun ne => (300 <= fst ne - lastGlobalWheel (glob w))%Z) evs ->
  let w' := run w (wheels evs) in
  let calls := map ScrollBy (map (wheelOptions w) (map snd evs)) in
  sc w' = sc (run w calls)
  /\ host w' = host (run w calls)
  /\ lastGlobalWheel (glob w') = lastGlobalWheel (glob w).
Proof.
  intros Hb Hall. cbv zeta.
  assert (G : forall (wa wb : World),
            sc wa = sc wb -> host wa = host wb ->
            lastGlobalWheel (glob wa) = lastGlobalWheel (glob w) ->
            self_flipWheel (sc wa) = self_flipWheel (sc w) ->
            self_wheelFriction (sc wa) = self_wheelFriction (sc w) ->
            wheelBound (host wa) = true ->
            sc (run wa (wheels evs))
            = sc (run wb (map ScrollBy (map (wheelOptions w) (map snd evs))))
            /\ host (run wa (wheels evs))
               = host (run wb (map ScrollBy
                                 (map (wheelOptions w) (map snd evs))))
            /\ lastGlobalWheel (glob (run wa (wheels evs)))
               = lastGlobalWheel (glob w)).
  { unfold run, wheels.
    induction Hall as [|[now e] evs Hne Hall IH]; intros wa wb Hs Hh Hl Hf Hwf Hwb.
    - cbn. auto.
    - cbn [map fold_left step fst snd] in *.
      set (owned := set_glob (mkGlobals (minFrameTime (glob wa))
                                (lastGlobalWheel (glob wa))
                                (Some (ev_id e))) wa).
      assert (E : fst (wheel now e wa) = scrollBy (wheelOptions w e) owned).
      { unfold wheel. rewrite Hwb. unfold handleWheel, WHEEL_THRESHOLD.
        destruct (Z.ltb_spec (now - lastGlobalWheel (glob wa)) 300) as [L|L];
          [rewrite Hl in L; lia|].
        fold owned.
        assert (O : (if self_flipWheel (sc owned)
                     then mkScrollOptions (Some (deltaY e)) (Some (deltaX e))
                            (Some (self_wheelFriction (sc owned)))
                     else mkScrollOptions (Some (deltaX e)) (Some (deltaY e))
                            (Some (self_wheelFriction (sc owned))))
                    = wheelOptions w e).
        { unfold wheelOptions. cbn [owned sc set_glob]. rewrite Hf, Hwf.
          reflexivity. }
        rewrite O. cbn [fst].
        destruct (scrollBy_congr (wheelOptions w e) owned owned eq_refl eq_refl)
          as (_ & _ & Gl).
        unfold globalWheel. rewrite Gl. cbn [owned glob set_glob ignoreEvent ev_id].
        rewrite Nat.eqb_refl. reflexivity. }
      rewrite E.
      destruct (scrollBy_congr (wheelOptions w e) owned wb) as (A & B & C);
        [exact Hs | exact Hh |].
      destruct (scrollBy_fields (wheelOptions w e) owned)
        as (_ & _ & _ & _ & _ & _ & _ & F8 & F9).
      destruct (scrollBy_host_fields (wheelOptions w e) owned)
        as (_ & _ & F3 & _).
      apply IH; auto.
      + rewrite C. cbn. exact Hl.
      + rewrite F9. exact Hf.
      + rewrite F8. exact Hwf.
      + rewrite F3. exact Hwb. }
  apply G; auto.
Qed.

(** X17 on the running example with the wheel handled: three events 1 ms
    apart add up to 360 pixels down. *)
Lemma own_series_taken_witness :
  let w := makeScroller Demo.g0 Demo.h0
             (mkOptions None (Some true) None None) in
  let e := mkWheelEvent 1 zero (ofZ 120) false in
  scrolling (sc (run w (wheels [(5000, e); (5001, e); (5002, e)])%Z))
  = Some (zero, ofZ 360).
Proof.
  cbv zeta.
  destruct (own_series_taken
              [(5000, mkWheelEvent 1 zero (ofZ 120) false);
               (5001, mkWheelEvent 1 zero (ofZ 120) false);
               (5002, mkWheelEvent 1 zero (ofZ 120) false)]%Z
              (makeScroller Demo.g0 Demo.h0
                 (mkOptions None (Some true) None None)) eq_refl)
    as (A & _).
  - repeat constructor; cbn; lia.
  - rewrite A. vm_compute. reflexivity.
Defined.

End Outside.

(** ** The direction of a frame *)

Section Direction.

Local Open Scope num_scope.

(** One axis of a frame without gliding, from a position within the range:
    the new position is within the range, and not behind the old one in the
    direction of the velocity. *)
Lemma axis_follows (qp qx a qw : Qc) :
  (0 <= a)%Qc -> (a <= 1)%Qc -> (0 <= qp)%Qc -> (qp <= qw)%Qc ->
  exists c : Qc,
    clamp zero (Fin qp + (zero + Fin qx * Fin a)) (Fin qw) = Fin c
    /\ (0 <= c)%Qc /\ (c <= qw)%Qc
    /\ ((0 <= qx)%Qc -> (qp <= c)%Qc)
    /\ ((qx <= 0)%Qc -> (c <= qp)%Qc).
Proof.
  intros A0 A1 P0 PW. cbn [add mul zero]. unfold clamp.
  set (s := (qp + (0 + qx * a))%Qc).
  assert (Up : (0 <= qx)%Qc -> (qp <= s)%Qc).
  { intros X. unfold s, Qcle in *. rewrite !this_plus, this_mult.
    change (this 0%Qc) with 0%Q in *. nra. }
  assert (Down : (qx <= 0)%Qc -> (s <= qp)%Qc).
  { intros X. unfold s, Qcle in *. rewrite !this_plus, this_mult.
    change (this 0%Qc) with 0%Q in *. nra. }
  destruct (min_Fin_cases qw s) as [[E L]|[E L]]; rewrite E;
    change (Fin 0%Qc) with zero.
  - rewrite (max_zero_nonneg qw) by (apply Qcle_trans with qp; assumption).
    exists qw. split; [reflexivity|].
    split; [apply Qcle_trans with qp; assumption|].
    split; [apply Qcle_refl|]. split; [intros _; exact PW|].
    intros X. apply Qcle_trans with s; [exact L | apply Down, X].
  - unfold zero. destruct (max_Fin_cases 0 s) as [[E' L']|[E' L']]; rewrite E'.
    + exists 0%Qc. split; [reflexivity|]. split; [apply Qcle_refl|].
      split; [apply Qcle_trans with qp; assumption|].
      split; [|intros _; exact P0].
      intros X. apply Qcle_trans with s; [apply Up, X | exact L'].
    + exists s. split; [reflexivity|].
      split; [apply Qclt_le_weak, L'|].
      split; [apply Qclt_le_weak, L|]. split; assumption.
Qed.

(** X19: a frame of a scroller that holds finite numbers, does not glide and
    is within the range keeps the position within the range and never moves
    it against the pending velocity: not back when the velocity is 0 or
    more, not forth when it is 0 or less.  (Rounding is monotone, so this
    does not depend on the sums being exact.) *)
Theorem position_follows_velocity (t : num) (w : World) :
  fin_world w = true -> is_finite t = true ->
  self_disposed (sc w) = false -> gliding (sc w) = None ->
  in_range (currentPosition (sc w)) (getScrollLength w) = true ->
  let p := currentPosition (sc w) in
  let p' := currentPosition (sc (render t w)) in
  in_range p' (getScrollLength w) = true
  /\ (leb zero (pendingX (sc w)) = true -> leb (left p) (left p') = true)
  /\ (leb (pendingX (sc w)) zero = true -> leb (left p') (left p) = true)
  /\ (leb zero (pendingY (sc w)) = true -> leb (top p) (top p') = true)
  /\ (leb (pendingY (sc w)) zero = true -> leb (top p') (top p) = true).
Proof.
  intros Hw Ht Hd Hg Hin. cbv zeta. apply fin_world_spec in Hw.
  destruct Hw as (W1 & W2 & W3 & W4 & W5 & W6 & W7 & W8 & W9).
  pose proof (fin_timeDelta t w Ht W2 W9) as Hdt.
  unfold fin_position in W6. apply andb_true_iff in W6.
  destruct W6 as [C1 C2].
  unfold fin_element in W1. rewrite !andb_true_iff in W1.
  destruct W1 as [[[[[_ _] E3] E4] E5] E6].
  assert (L1 : is_finite (width (getScrollLength w)) = true)
    by (unfold getScrollLength; cbn; apply sub_finite; assumption).
  assert (L2 : is_finite (height (getScrollLength w)) = true)
    by (unfold getScrollLength; cbn; apply sub_finite; assumption).
  destruct (finite_inv _ C1) as [qp Ep]. destruct (finite_inv _ C2) as [qq Eq].
  destruct (finite_inv _ L1) as [qw Ew]. destruct (finite_inv _ L2) as [qh Eh].
  unfold in_range in Hin |- *. rewrite Ep, Eq, Ew, Eh in Hin.
  apply andb_true_iff in Hin. destruct Hin as [I1 I2].
  apply isWithin_Fin in I1. apply isWithin_Fin in I2.
  destruct I1 as [P0 PW]. destruct I2 as [Q0 QH].
  destruct (render_live t w Hd) as (_ & R2 & _).
  rewrite R2. cbn [left top]. rewrite Hg, Ep, Eq, Ew, Eh.
  unfold pendingX, pendingY.
  destruct (scrolling (sc w)) as [[x y]|] eqn:Hs.
  - cbn [fin_velocity] in W7. apply andb_true_iff in W7.
    destruct W7 as [X Y].
    destruct (finite_inv _ X) as [qx Ex]. destruct (finite_inv _ Y) as [qy Ey].
    subst x y. rewrite advance_no_glide. unfold scrollingStep.
    destruct (adjustedFriction_fraction _ _ W5 Hdt) as (a & Ea & A0 & A1).
    rewrite Ea. cbn [fst snd option_map opt_or_else].
    rewrite !or_else_finite by reflexivity.
    destruct (axis_follows qp qx a qw A0 A1 P0 PW) as (c & Ec & c0 & cw & Up & Dn).
    destruct (axis_follows qq qy a qh A0 A1 Q0 QH) as (d & Ed & d0 & dh & Up' & Dn').
    rewrite Ec, Ed. unfold zero.
    split; [apply andb_true_iff; split; apply isWithin_Fin; auto|].
    rewrite !leb_Fin. auto.
  - cbn [option_map opt_or_else]. cbn [advance fst snd].
    rewrite !add_zero_r.
    rewrite (clamp_within (Fin qp) (Fin qw)) by (apply isWithin_Fin; auto).
    rewrite (clamp_within (Fin qq) (Fin qh)) by (apply isWithin_Fin; auto).
    split; [apply andb_true_iff; split; apply isWithin_Fin; auto|].
    unfold zero. rewrite !leb_Fin. auto using Qcle_refl.
Qed.

(** X19 on the first frame of a scroll by 100 pixels from the start of the
    range: the position does not go back, and stays where it is down the
    other axis; and on the first frame of a scroll back by 100 pixels: the
    position does not go forth. *)
Lemma position_follows_velocity_witness :
  let w := scrollBy (Demo.byLeft (ofZ 100)) Demo.w0 in
  let v := scrollBy (Demo.byLeft (ofZ (-100))) Demo.w0 in
  leb (left (currentPosition (sc w)))
      (left (currentPosition (sc (render zero w)))) = true
  /\ leb (top (currentPosition (sc w)))
         (top (currentPosition (sc (render zero w)))) = true
  /\ leb (top (currentPosition (sc (render zero w))))
         (top (currentPosition (sc w))) = true
  /\ leb (left (currentPosition (sc (render zero v))))
         (left (currentPosition (sc v))) = true.
Proof.
  cbv zeta.
  destruct (position_follows_velocity zero
              (scrollBy (Demo.byLeft (ofZ 100)) Demo.w0)
              eq_refl eq_refl eq_refl eq_refl eq_refl) as (_ & A & _ & C & D).
  destruct (position_follows_velocity zero
              (scrollBy (Demo.byLeft (ofZ (-100))) Demo.w0)
              eq_refl eq_refl eq_refl eq_refl eq_refl) as (_ & _ & B & _).
  split; [apply A; vm_compute; reflexivity|].
  split; [apply C; vm_compute; reflexivity|].
  split; [apply D; vm_compute; reflexivity|].
  apply B; vm_compute; reflexivity.
Defined.

End Direction.

(** ** A position that is not a number *)

Section NotANumber.

Local Open Scope num_scope.

Lemma clamp_nan (w : num) : clamp zero NaN w = NaN.
Proof. destruct w; reflexivity. Qed.

Lemma is_nan_inv (a : num) : is_nan a = true -> a = NaN.
Proof. destruct a; try discriminate. reflexivity. Qed.

(** A frame keeps a [NaN] on the horizontal axis of the cached position,
    and writes it if it writes. *)
Lemma render_nan (t : num) (w : World) :
  is_nan (left (currentPosition (sc w))) = true ->
  is_nan (left (currentPosition (sc (render t w)))) = true
  /\ exists k, written (host (render t w)) = k ++ written (host w)
               /\ Forall (fun p => is_nan (left p) = true) k.
Proof.
  intros H. destruct (self_disposed (sc w)) eqn:Hd.
  - rewrite render_disposed by exact Hd. split; [exact H|].
    exists []. split; [reflexivity | constructor].
  - destruct (render_live t w Hd) as (_ & R2 & _ & _ & _ & R6 & _).
    rewrite R2, R6. cbn [left]. rewrite (is_nan_inv _ H).
    change (NaN + ?x) with NaN. rewrite clamp_nan.
    split; [reflexivity|].
    eexists [_]. split; [reflexivity|]. repeat constructor.
Qed.

Lemma frame_nan (t : num) (w : World) :
  is_nan (left (currentPosition (sc w))) = true ->
  is_nan (left (currentPosition (sc (frame t w)))) = true
  /\ exists k, written (host (frame t w)) = k ++ written (host w)
               /\ Forall (fun p => is_nan (left p) = true) k.
Proof.
  unfold frame.
  change (left (currentPosition (sc w)))
    with (left (currentPosition (sc (set_host (set_rafQueue [] (host w)) w)))).
  change (written (host w))
    with (written (host (set_host (set_rafQueue [] (host w)) w))).
  generalize (set_host (set_rafQueue [] (host w)) w).
  induction (rafQueue (host w)) as [|i q IH]; intros v Hv; cbn [fold_left].
  - split; [exact Hv|]. exists []. split; [reflexivity | constructor].
  - destruct (render_nan t v Hv) as (A & k & B & C).
    destruct (IH (render t v) A) as (A' & k' & B' & C').
    split; [exact A'|]. exists (k' ++ k).
    rewrite B', B, app_assoc. split; [reflexivity|].
    apply Forall_app. auto.
Qed.

Lemma step_nan (w : World) (a : action) :
  keeps_position a = true ->
  is_nan (left (currentPosition (sc w))) = true ->
  is_nan (left (currentPosition (sc (step w a)))) = true
  /\ exists k, written (host (step w a)) = k ++ written (host w)
               /\ Forall (fun p => is_nan (left p) = true) k.
Proof.
  intros Ha H.
  assert (Same : forall v : World,
            currentPosition (sc v) = currentPosition (sc w) ->
            written (host v) = written (host w) ->
            is_nan (left (currentPosition (sc v))) = true
            /\ exists k, written (host v) = k ++ written (host w)
                         /\ Forall (fun p => is_nan (left p) = true) k).
  { intros v E1 E2. rewrite E1, E2. split; [exact H|].
    exists []. split; [reflexivity | constructor]. }
  assert (By : forall (o : ScrollOptions) (v : World),
            currentPosition (sc v) = currentPosition (sc w) ->
            written (host v) = written (host w) ->
            currentPosition (sc (scrollBy o v)) = currentPosition (sc w)
            /\ written (host (scrollBy o v)) = written (host w)).
  { intros o v E1 E2.
    destruct (scrollBy_fields o v) as (_ & _ & _ & F4 & _).
    destruct (scrollBy_host_fields o v) as (_ & G2 & _).
    rewrite F4, G2. auto. }
  destruct a; cbn [step]; try discriminate Ha.
  - destruct (scrollTo_as_scrollBy o w) as (o' & E & _). rewrite E.
    destruct (By o' w eq_refl eq_refl) as [A B]. apply Same; assumption.
  - destruct (By o w eq_refl eq_refl) as [A B]. apply Same; assumption.
  - destruct (glide_fields o w) as (_ & _ & _ & F4 & _).
    destruct (glide_host_fields o w) as (_ & G2 & _). apply Same; assumption.
  - destruct (stop_fields w) as (_ & _ & _ & _ & _ & F6 & _ & F8).
    apply Same; assumption.
  - apply Same; unfold dispose, stop; destruct (frameId (sc w)); reflexivity.
  - apply Same; reflexivity.
  - apply Same; reflexivity.
  - apply Same; reflexivity.
  - apply frame_nan, H.
  - assert (G : forall v : World,
              currentPosition (sc (globalWheel now e v)) = currentPosition (sc v)
              /\ written (host (globalWheel now e v)) = written (host v)).
    { intros v. unfold globalWheel.
      destruct (match ignoreEvent (glob v) with
                | Some i => Nat.eqb i (ev_id e)
                | None => false end); auto. }
    unfold wheel. destruct (wheelBound (host w)).
    + unfold handleWheel.
      destruct (now - lastGlobalWheel (glob w) <? WHEEL_THRESHOLD)%Z;
        cbn [fst].
      * apply Same; apply G.
      * match goal with |- context [scrollBy ?O ?V] =>
          destruct (By O V eq_refl eq_refl) as [A B] end.
        unfold globalWheel.
        match goal with |- context [if ?c then _ else _] => destruct c end;
          apply Same; assumption.
    + cbn [fst]. apply Same; apply G.
  - apply Same; unfold globalWheel;
      destruct (match ignoreEvent (glob w) with
                | Some i => Nat.eqb i (ev_id e)
                | None => false end); reflexivity.
Qed.

Lemma run_nan (l : list action) (w : World) :
  forallb keeps_position l = true ->
  is_nan (left (currentPosition (sc w))) = true ->
  is_nan (left (currentPosition (sc (run w l)))) = true
  /\ exists k, written (host (run w l)) = k ++ written (host w)
               /\ Forall (fun p => is_nan (left p) = true) k.
Proof.
  revert w. unfold run.
  induction l as [|a l IH]; intros w Hl H; cbn [fold_left].
  - split; [exact H|]. exists []. split; [reflexivity | constructor].
  - cbn [forallb] in Hl. apply andb_true_iff in Hl. destruct Hl as [Ha Hl].
    destruct (step_nan w a Ha H) as (A & k & B & C).
    destruct (IH (step w a) Hl A) as (A' & k' & B' & C').
    split; [exact A'|]. exists (k' ++ k).
    rewrite B', B, app_assoc. split; [reflexivity|].
    apply Forall_app. auto.
Qed.

(** X18: a cached position that is [NaN] on the horizontal axis stays so.
    Whatever calls, frames and wheel events follow, the cached position
    keeps the [NaN], every position written to the element has it, and a
    [scrollTo] with a horizontal coordinate leaves a [NaN] velocity on that
    axis.  Only a scroll event of the element, which is not among these
    actions, assigns the cached position anew. *)
Theorem nan_position_sticks (w : World) (l : list action)
    (o : ScrollOptions) (c : num) :
  is_nan (left (currentPosition (sc w))) = true ->
  forallb keeps_position l = true ->
  is_nan (left (currentPosition (sc (run w l)))) = true
  /\ (exists k, written (host (run w l)) = k ++ written (host w)
                /\ Forall (fun p => is_nan (left p) = true) k)
  /\ (so_left o = Some c ->
      exists vy, scrolling (sc (scrollTo o (run w l))) = Some (NaN, vy)).
Proof.
  intros H Hl. destruct (run_nan l w Hl H) as (A & B).
  split; [exact A|]. split; [exact B|].
  intros Hc. destruct (scrollTo_fields o (run w l)) as (S & _).
  cbv zeta in S. rewrite S, Hc. cbn [targetDelta].
  rewrite (is_nan_inv _ A). eexists. f_equal. f_equal.
  change (NaN + ?x) with NaN.
  destruct (clamp zero c (width (getScrollLength (run w l))));
    destruct (pendingX (sc (run w l))); reflexivity.
Qed.

(** X18 on the running example: after the scroll by [Infinity] and the
    scroll to [Infinity] that make the position [NaN], a stop, a scroll to
    300 and two frames leave it [NaN], and a further scroll to 300 leaves a
    [NaN] velocity. *)
Lemma nan_position_sticks_witness :
  let w := run Demo.w0 [ScrollBy (Demo.byLeft PInf);
                        ScrollTo (Demo.toLeft PInf); Frame zero] in
  let l := [Stop; ScrollTo (Demo.toLeft (ofZ 300)); Frame (ofZ 17);
            Frame (ofZ 34)] in
  left (currentPosition (sc (run w l))) = NaN
  /\ exists vy,
       scrolling (sc (scrollTo (Demo.toLeft (ofZ 300)) (run w l)))
       = Some (NaN, vy).
Proof.
  cbv zeta.
  destruct (nan_position_sticks
              (run Demo.w0 [ScrollBy (Demo.byLeft PInf);
                            ScrollTo (Demo.toLeft PInf); Frame zero])
              [Stop; ScrollTo (Demo.toLeft (ofZ 300)); Frame (ofZ 17);
               Frame (ofZ 34)]
              (Demo.toLeft (ofZ 300)) (ofZ 300))
    as (A & _ & C).
  - vm_compute. reflexivity.
  - reflexivity.
  - split; [apply is_nan_inv, A | apply C; reflexivity].
Defined.

End NotANumber.
